(** * pyke.kepler_prf: a shallow embedding and its checked properties

    The development follows [src/pyke/kepler_prf.py]:

    - [Py]      exceptions, results and the state-and-error monad used for
                methods that write attributes of [self];
    - [Float]   the numbers of the program, and their exact arithmetic;
    - [Fp]      IEEE 754 binary formats: rounding to nearest, ties to even,
                gradual underflow, overflow to an infinity;
    - [Np]      the numpy operations the module calls ([arange], [nansum],
                [sum], element-wise arithmetic on 2D arrays);
    - [Scipy]   [scipy.interpolate.RectBivariateSpline]: argument checks of
                the constructor and of [__call__];
    - [Fits]    calibration files as [pyfits.open] hands them over;
    - [Prf]     class [KeplerPRF], in exact arithmetic;
    - [Phot]    class [KeplerPRFPhotometry];
    - [Machine] class [KeplerPRF], in the arithmetic of the interpreter.

    Numbers.  A Python or numpy float is modelled by [Float.float]: a finite
    value is a rational ([Qc]), and the three non-finite values of IEEE 754
    (+inf, -inf, NaN) are kept with their IEEE behaviour.  The class is
    embedded twice.  [Prf] is the idealisation in which every operation
    returns its exact result; it serves the properties that are about the
    algebra and the control flow of the code and are worded that way.
    [Machine] is the code as it runs: every operation rounds its exact
    result to binary64, values assigned to the float32 arrays of lines
    193-196 and 207-208 are rounded to binary32, and a result too large for
    the format is an infinity.  What depends on the outcome of a rounding,
    on an overflow or on float32 storage is stated and proved on [Machine].
    The sign of zero is modelled in neither.

    External code.  [math.sqrt], [math.cos], [math.sin] and C's [pow]
    (libm), FITPACK's fitting and evaluation routines, [glob.glob],
    [pyfits.open] and [pyke.utils.channel_to_module_output] are not part of
    the module; they are parameters, gathered in the records [Libm],
    [Fitpack] and [Host]; the optimiser and the likelihood used by
    [do_photometry] are parameters too ([Collaborators]). *)

From Stdlib Require Import ZArith QArith Qcanon Qround String List Bool Lia Lqa.
From Stdlib Require Import Ascii DecimalString Qabs Qpower.
Import ListNotations.

(* ------------------------------------------------------------------ *)
(** ** Python results, exceptions, and a state-and-error monad *)

Module Py.

(** The exception classes that the module's code paths can raise.
    [OtherError] stands for an exception raised inside an external
    collaborator (the optimiser, the FITS reader, ...). *)
Inductive exn : Type :=
| IndexError
| KeyError
| ValueError
| NameError
| AttributeError
| OverflowError
| OtherError (cls : string).

Definition exn_name (e : exn) : string :=
  match e with
  | IndexError => "IndexError"
  | KeyError => "KeyError"
  | ValueError => "ValueError"
  | NameError => "NameError"
  | AttributeError => "AttributeError"
  | OverflowError => "OverflowError"
  | OtherError cls => cls
  end.

Inductive result (A : Type) : Type :=
| Ok (a : A)
| Raise (e : exn).

Arguments Ok {A} a.
Arguments Raise {A} e.

Definition bind {A B : Type} (r : result A) (k : A -> result B) : result B :=
  match r with
  | Ok a => k a
  | Raise e => Raise e
  end.

Definition is_ok {A : Type} (r : result A) : bool :=
  match r with Ok _ => true | Raise _ => false end.

(** [xs[i]] on a sequence: [IndexError] past the end. *)
Definition getitem {A : Type} (xs : list A) (i : nat) : result A :=
  match nth_error xs i with
  | Some x => Ok x
  | None => Raise IndexError
  end.

(** A method of an object with attributes of type [S]: it returns or raises,
    and leaves the object in a new state either way. *)
Definition M (S A : Type) : Type := S -> result A * S.

Definition ret {S A : Type} (a : A) : M S A := fun s => (Ok a, s).

Definition lift {S A : Type} (r : result A) : M S A := fun s => (r, s).

Definition mbind {S A B : Type} (m : M S A) (k : A -> M S B) : M S B :=
  fun s =>
    match m s with
    | (Ok a, s') => k a s'
    | (Raise e, s') => (Raise e, s')
    end.

Definition get {S : Type} : M S S := fun s => (Ok s, s).

Definition modify {S : Type} (f : S -> S) : M S unit := fun s => (Ok tt, f s).

End Py.

Import Py.

Declare Scope py_scope.
Delimit Scope py_scope with py.
Notation "x <- r ;; k" := (Py.bind r (fun x => k))
  (at level 61, r at next level, right associativity) : py_scope.
Notation "x <~ m ;; k" := (Py.mbind m (fun x => k))
  (at level 61, m at next level, right associativity) : py_scope.
Notation "m ;;; k" := (Py.mbind m (fun _ => k))
  (at level 61, right associativity) : py_scope.

(* ------------------------------------------------------------------ *)
(** ** Numbers *)

Module Float.

Open Scope Qc_scope.

Inductive float : Type :=
| Fin (q : Qc)
| PInf
| NInf
| NaN.

Definition of_Z (z : Z) : Qc := Q2Qc (inject_Z z).
Definition of_nat (n : nat) : Qc := of_Z (Z.of_nat n).
Definition half : Qc := Q2Qc (1 # 2).
Definition two : Qc := Q2Qc 2.

Definition Qcltb (a b : Qc) : bool :=
  match a ?= b with Lt => true | _ => false end.

Definition Qcleb (a b : Qc) : bool :=
  match a ?= b with Gt => false | _ => true end.

Definition Qceqb (a b : Qc) : bool :=
  match a ?= b with Eq => true | _ => false end.

Definition is_nan (x : float) : bool :=
  match x with NaN => true | _ => false end.

Definition is_finite (x : float) : bool :=
  match x with Fin _ => true | _ => false end.

Definition is_inf (x : float) : bool :=
  match x with PInf | NInf => true | _ => false end.

(** Sign of a value that is not NaN, as a comparison with zero. *)
Definition fsgn (x : float) : comparison :=
  match x with
  | Fin a => a ?= 0
  | PInf => Gt
  | NInf => Lt
  | NaN => Eq
  end.

Definition sgn_mul (s t : comparison) : comparison :=
  match s, t with
  | Eq, _ | _, Eq => Eq
  | Gt, Gt | Lt, Lt => Gt
  | Gt, Lt | Lt, Gt => Lt
  end.

(** The infinity of a given sign; a zero sign gives NaN (0 * inf, 0 / 0). *)
Definition inf_of_sgn (s : comparison) : float :=
  match s with Gt => PInf | Lt => NInf | Eq => NaN end.

Definition fneg (x : float) : float :=
  match x with
  | Fin a => Fin (- a)
  | PInf => NInf
  | NInf => PInf
  | NaN => NaN
  end.

Definition fadd (x y : float) : float :=
  match x, y with
  | NaN, _ | _, NaN => NaN
  | Fin a, Fin b => Fin (a + b)
  | PInf, NInf | NInf, PInf => NaN
  | PInf, _ | _, PInf => PInf
  | NInf, _ | _, NInf => NInf
  end.

Definition fsub (x y : float) : float := fadd x (fneg y).

Definition fmul (x y : float) : float :=
  match x, y with
  | NaN, _ | _, NaN => NaN
  | Fin a, Fin b => Fin (a * b)
  | _, _ => inf_of_sgn (sgn_mul (fsgn x) (fsgn y))
  end.

(** numpy's division: a zero divisor gives an infinity, or NaN for 0/0
    (the divisor's zero counts as positive). *)
Definition fdiv (x y : float) : float :=
  match x, y with
  | NaN, _ | _, NaN => NaN
  | Fin a, Fin b => if Qceqb b 0 then inf_of_sgn (a ?= 0) else Fin (a / b)
  | Fin _, _ => Fin 0
  | _, Fin b => inf_of_sgn (sgn_mul (fsgn x) (if Qcltb b 0 then Lt else Gt))
  | _, _ => NaN
  end.

(** [x < y] and [x <= y]: false as soon as one side is NaN. *)
Definition fltb (x y : float) : bool :=
  match x, y with
  | NaN, _ | _, NaN => false
  | Fin a, Fin b => Qcltb a b
  | NInf, NInf | PInf, _ => false
  | NInf, _ | _, PInf => true
  | _, NInf => false
  end.

Definition fleb (x y : float) : bool :=
  match x, y with
  | NaN, _ | _, NaN => false
  | Fin a, Fin b => Qcleb a b
  | NInf, _ | _, PInf => true
  | PInf, _ | _, NInf => false
  end.

Definition zero : float := Fin 0.

End Float.

Import Float.

(* ------------------------------------------------------------------ *)
(** ** IEEE 754 binary formats

    A format has [prec] bits of significand, its smallest positive number
    is [2^emin], and its finite numbers are below [2^emax] in magnitude:
    they are the [m * 2^e] with [|m| < 2^prec] and [emin <= e], below
    [2^emax].  An operation of the format returns the exact result of
    [Float], rounded to the nearest number of the format, to the one with
    an even significand when two are equally near. *)

Module Fp.

Open Scope Q_scope.

Record format : Type := mkFormat { prec : Z; emin : Z; emax : Z }.

Definition binary64 : format := mkFormat 53 (-1074) 1024.
Definition binary32 : format := mkFormat 24 (-149) 128.

Definition pow2 (e : Z) : Q := 2 ^ e.

(** For [x > 0], the exponent [k] with [2^k <= x < 2^(k+1)]. *)
Definition ilog2 (x : Q) : Z :=
  let k := (Z.log2 (Qnum x) - Z.log2 (Zpos (Qden x)))%Z in
  if Qle_bool (pow2 k) x then k else (k - 1)%Z.

(** The integer nearest to [t], the even one of two equally near. *)
Definition rne (t : Q) : Z :=
  let f := Qfloor t in
  match Qcompare (t - inject_Z f) (1 # 2) with
  | Lt => f
  | Gt => (f + 1)%Z
  | Eq => if Z.even f then f else (f + 1)%Z
  end.

(** The exponent of the last bit of the significand at [x > 0]: [prec]
    bits below the leading one, and never below [emin]. *)
Definition ulp_exp (fmt : format) (x : Q) : Z :=
  Z.max (ilog2 x + 1 - prec fmt) (emin fmt).

(** [x > 0] rounded to a multiple of its last bit. *)
Definition round_pos (fmt : format) (x : Q) : Q :=
  let e := ulp_exp fmt x in inject_Z (rne (x / pow2 e)) * pow2 e.

Definition round_q (fmt : format) (x : Q) : Q :=
  match Qcompare x 0 with
  | Eq => 0
  | Gt => round_pos fmt x
  | Lt => - round_pos fmt (- x)
  end.

(** Past the largest finite value of the format. *)
Definition overflows (fmt : format) (r : Q) : bool :=
  Qle_bool (pow2 (emax fmt)) (Qabs r).

(** The value of the format nearest to [x], ties to even; an infinity
    where that value would be [2^emax] or more. *)
Definition round (fmt : format) (x : Qc) : float :=
  let r := round_q fmt x in
  if overflows fmt r then (if Qle_bool 0 r then PInf else NInf)
  else Fin (Q2Qc r).

(** Conversion to the format; +inf, -inf and NaN are values of every
    format. *)
Definition rnd (fmt : format) (x : float) : float :=
  match x with
  | Fin q => round fmt q
  | _ => x
  end.

(** The arithmetic of the format: the exact result, rounded. *)
Definition add (fmt : format) (x y : float) : float := rnd fmt (fadd x y).
Definition sub (fmt : format) (x y : float) : float := rnd fmt (fsub x y).
Definition mul (fmt : format) (x y : float) : float := rnd fmt (fmul x y).
Definition div (fmt : format) (x y : float) : float := rnd fmt (fdiv x y).

(** [x] is a value of the format. *)
Definition in_format (fmt : format) (x : float) : bool :=
  match x with
  | Fin q => match round fmt q with Fin r => Qceqb r q | _ => false end
  | _ => true
  end.

End Fp.


(* ------------------------------------------------------------------ *)
(** ** numpy *)

Module Np.

Definition array1 : Type := list float.

(** A 2D array is the list of its rows.  (All arrays with no row are
    identified: their column count reads 0.) *)
Definition array2 : Type := list (list float).

Definition size (a : array1) : nat := length a.

Definition shape (a : array2) : nat * nat :=
  (length a, match a with [] => 0%nat | r :: _ => length r end).

Definition has_shape (sh : nat * nat) (a : array2) : bool :=
  (length a =? fst sh)%nat && forallb (fun r => (length r =? snd sh)%nat) a.

Definition zeros1 (n : nat) : array1 := repeat zero n.

Definition zeros (sh : nat * nat) : array2 := repeat (zeros1 (snd sh)) (fst sh).

(** [np.arange(start, stop)], step 1: [ceil(stop - start)] values
    [start, start + 1, ...]; numpy refuses a length it cannot compute. *)
Definition arange (start stop : float) : result array1 :=
  match start, stop with
  | Fin a, Fin b =>
      Ok (map (fun i => Fin (a + of_nat i)%Qc)
              (seq 0 (Z.to_nat (Qceiling (b - a)%Qc))))
  | _, _ => Raise ValueError
  end.

(** array (op) scalar, element by element. *)
Definition sub_scalar (a : array1) (s : float) : array1 :=
  map (fun x => fsub x s) a.

Definition mul_scalar (a : array1) (s : float) : array1 :=
  map (fun x => fmul x s) a.

Definition div_scalar2 (a : array2) (s : float) : array2 :=
  map (map (fun x => fdiv x s)) a.

Definition rmul_scalar2 (s : float) (a : array2) : array2 :=
  map (map (fun x => fmul s x)) a.

Fixpoint add1 (a b : array1) : array1 :=
  match a, b with
  | x :: a', y :: b' => fadd x y :: add1 a' b'
  | _, _ => []
  end.

(** [a + b] for two arrays of one shape. *)
Fixpoint add2 (a b : array2) : array2 :=
  match a, b with
  | r :: a', s :: b' => add1 r s :: add2 a' b'
  | _, _ => []
  end.

Definition sum1 (a : array1) : float := fold_right fadd zero a.

(** [np.sum(a)]: every element counts, so one NaN makes the sum NaN. *)
Definition sum (a : array2) : float := sum1 (concat a).

Definition nan_to_zero (x : float) : float := if is_nan x then zero else x.

(** [np.nansum(a)]: NaN elements are replaced by zero, then summed. *)
Definition nansum (a : array2) : float := sum1 (map nan_to_zero (concat a)).

(** [np.diff(a)]: [a[i+1] - a[i]]. *)
Fixpoint diff (a : array1) : array1 :=
  match a with
  | x :: ((y :: _) as a') => fsub y x :: diff a'
  | _ => []
  end.

End Np.

(* ------------------------------------------------------------------ *)
(** ** scipy.interpolate.RectBivariateSpline *)

Module Scipy.

(** The spline object, identified by the data it was fitted to: [x] and [y]
    are the coordinates of the first and of the second axis of [z]. *)
Record RectBivariateSpline : Type := mkSpline {
  sp_x : Np.array1;
  sp_y : Np.array1;
  sp_z : Np.array2
}.

(** FITPACK: [regrid_smth_ier x y z] is the status of the fit ([0], [-1] and
    [-2] are the successful ones) and [bispev s x y] the value of the fitted
    surface at [(x, y)]. *)
Record Fitpack : Type := mkFitpack {
  regrid_smth_ier : Np.array1 -> Np.array1 -> Np.array2 -> Z;
  bispev : RectBivariateSpline -> float -> float -> float
}.

(** [np.all(np.diff(a) > 0.0)] and [np.all(np.diff(a) >= 0.0)]. *)
Definition strictly_increasing (a : Np.array1) : bool :=
  forallb (fun d => fltb zero d) (Np.diff a).

Definition nondecreasing (a : Np.array1) : bool :=
  forallb (fun d => fleb zero d) (Np.diff a).

Definition ier_ok (ier : Z) : bool :=
  (ier =? 0)%Z || (ier =? -1)%Z || (ier =? -2)%Z.

(** The exception of the wrapper of FITPACK ([scipy.interpolate.dfitpack]). *)
Definition dfitpack_error : exn := OtherError "_dfitpack.error".

(** [RectBivariateSpline(x, y, z)] with the default [bbox], [kx], [ky], [s]:
    the constructor's checks, in its order, then the fit.  The wrapper of
    [regrid_smth] refuses an axis that has not more than [kx = ky = 3]
    points before FITPACK runs. *)
Definition make (fp : Fitpack) (x y : Np.array1) (z : Np.array2)
  : result RectBivariateSpline :=
  if negb (strictly_increasing x) then Raise ValueError
  else if negb (strictly_increasing y) then Raise ValueError
  else if negb (Np.size x =? fst (Np.shape z))%nat then Raise ValueError
  else if negb (Np.size y =? snd (Np.shape z))%nat then Raise ValueError
  else if (Np.size x <=? 3)%nat then Raise dfitpack_error
  else if (Np.size y <=? 3)%nat then Raise dfitpack_error
  else if negb (ier_ok (regrid_smth_ier fp x y z)) then Raise ValueError
  else Ok (mkSpline x y z).

(** [spline(x, y)] with [grid=True]: the surface on the grid
    [x] times [y], an array of shape [(len(x), len(y))]; both arrays
    must be sorted in increasing order. *)
Definition call (fp : Fitpack) (s : RectBivariateSpline) (x y : Np.array1)
  : result Np.array2 :=
  if (Np.size x =? 0)%nat || (Np.size y =? 0)%nat
  then Ok (Np.zeros (Np.size x, Np.size y))
  else if (2 <=? Np.size x)%nat && negb (nondecreasing x) then Raise ValueError
  else if (2 <=? Np.size y)%nat && negb (nondecreasing y) then Raise ValueError
  else Ok (map (fun xi => map (fun yj => bispev fp s xi yj) y) x).

End Scipy.

(* ------------------------------------------------------------------ *)
(** ** FITS calibration files *)

Module Fits.

(** One header-data unit: its image and the numeric cards of its header. *)
Record HDU : Type := mkHDU {
  data : Np.array2;
  header : list (string * float)
}.

Definition HDUList : Type := list HDU.

(** [header[key]]: [KeyError] when the card is missing. *)
Fixpoint header_get (h : list (string * float)) (key : string) : result float :=
  match h with
  | [] => Raise KeyError
  | (k, v) :: h' => if String.eqb k key then Ok v else header_get h' key
  end.

End Fits.

(* ------------------------------------------------------------------ *)
(** ** class KeplerPRF *)

Module Prf.

(** libm on finite arguments. *)
Record Libm : Type := mkLibm {
  libm_sqrt : Qc -> Qc;
  libm_cos : Qc -> Qc;
  libm_sin : Qc -> Qc
}.

(** [math.sqrt]: a domain error below zero. *)
Definition math_sqrt (lm : Libm) (x : float) : result float :=
  match x with
  | Fin q => if Qcltb q 0 then Raise ValueError else Ok (Fin (libm_sqrt lm q))
  | PInf => Ok PInf
  | NInf => Raise ValueError
  | NaN => Ok NaN
  end.

(** [math.cos] and [math.sin]: a domain error at an infinity. *)
Definition math_cos (lm : Libm) (x : float) : result float :=
  match x with
  | Fin q => Ok (Fin (libm_cos lm q))
  | NaN => Ok NaN
  | PInf | NInf => Raise ValueError
  end.

Definition math_sin (lm : Libm) (x : float) : result float :=
  match x with
  | Fin q => Ok (Fin (libm_sin lm q))
  | NaN => Ok NaN
  | PInf | NInf => Raise ValueError
  end.

(** What the module takes from its surroundings: the channel table of
    [pyke.utils], the directory listing and the FITS reader. *)
Record Host : Type := mkHost {
  channel_to_module_output : Z -> result (Z * Z);
  glob : string -> list string;
  pyfits_open : string -> result Fits.HDUList
}.

(** [str(n)] for an int. *)
Definition str (n : Z) : string := NilZero.string_of_int (Z.to_int n).

Definition ends_with_sep (s : string) : bool :=
  match String.get (String.length s - 1) s with
  | Some c => Ascii.eqb c "/"%char
  | None => false
  end.

Definition starts_with_sep (s : string) : bool :=
  match s with
  | String c _ => Ascii.eqb c "/"%char
  | EmptyString => false
  end.

(** [os.path.join(a, b)] (posixpath). *)
Definition os_path_join (a b : string) : string :=
  if starts_with_sep b then b
  else if String.eqb a "" || ends_with_sep a then (a ++ b)%string
  else (a ++ "/" ++ b)%string.

(** The attributes of a [KeplerPRF]; [prf_model] exists only once
    [prf_to_detector] has run. *)
Record KeplerPRF : Type := mkKeplerPRF {
  prf_files_dir : string;
  channel : Z;
  shape : Z * Z;
  column : float;
  row : float;
  col_coord : Np.array1;
  row_coord : Np.array1;
  interpolate : Scipy.RectBivariateSpline;
  prf_model : option Np.array2
}.

Definition set_prf_model (self : KeplerPRF) (m : Np.array2) : KeplerPRF :=
  mkKeplerPRF (prf_files_dir self) (channel self) (shape self) (column self)
    (row self) (col_coord self) (row_coord self) (interpolate self) (Some m).

(** What [_read_prf_calibration_file] returns for one extension. *)
Record Sample : Type := mkSample {
  prfn : Np.array2;
  crval1p : float;
  crval2p : float;
  cdelt1p : float;
  cdelt2p : float
}.

Definition n_hdu : nat := 5.

(** An extension holds the four cards that [_read_prf_calibration_file]
    reads (used to state what a well-formed file is). *)
Definition has_cards (h : Fits.HDU) : bool :=
  forallb (fun key => is_ok (Fits.header_get (Fits.header h) key))
    ["CRVAL1P"; "CRVAL2P"; "CDELT1P"; "CDELT2P"]%string.

Definition min_prf_weight : float := Fin (Q2Qc (1 # 1000000)).

Section WithExternals.

Context (lm : Libm) (fp : Scipy.Fitpack) (host : Host).

Open Scope py_scope.

(** Lines 167-176. *)
Definition _read_prf_calibration_file (path : string) (ext : nat)
  : result Sample :=
  prf_cal_file <- pyfits_open host path ;;
  hdu <- getitem prf_cal_file ext ;;
  let data := Fits.data hdu in
  hdu <- getitem prf_cal_file ext ;;
  crval1p <- Fits.header_get (Fits.header hdu) "CRVAL1P" ;;
  hdu <- getitem prf_cal_file ext ;;
  crval2p <- Fits.header_get (Fits.header hdu) "CRVAL2P" ;;
  hdu <- getitem prf_cal_file ext ;;
  cdelt1p <- Fits.header_get (Fits.header hdu) "CDELT1P" ;;
  hdu <- getitem prf_cal_file ext ;;
  cdelt2p <- Fits.header_get (Fits.header hdu) "CDELT2P" ;;
  Ok (mkSample data crval1p crval2p cdelt1p cdelt2p).

(** Lines 181-188: the pattern handed to [glob.glob]. *)
Definition prf_file_path (prf_files_dir : string) (module output : Z) : string :=
  let prefix := if (module <? 10)%Z then "kplr0"%string else "kplr"%string in
  os_path_join prf_files_dir
    (prefix ++ str module ++ "." ++ str output ++ "*_prf.fits")%string.

(** Lines 197-198: extension [i+1] for [i] in [range(n_hdu)]. *)
Fixpoint read_prf_images (prffile : string) (range : list nat)
  : result (list Sample) :=
  match range with
  | [] => Ok []
  | i :: range' =>
      s <- _read_prf_calibration_file prffile (i + 1) ;;
      ss <- read_prf_images prffile range' ;;
      Ok (s :: ss)
  end.

(** Line 199, [np.array(prfn)]: the images must have one common shape. *)
Definition np_array (samples : list Sample) : result (list Sample) :=
  first <- getitem samples 0 ;;
  if forallb (fun s => Np.has_shape (Np.shape (prfn first)) (prfn s)) samples
  then Ok samples
  else Raise ValueError.

(** Lines 200-203, one axis: [(arange(0.5, n + 0.5) - size / 2) * cdelt]. *)
Definition prf_axis (n : nat) (cdelt : float) : result Np.array1 :=
  a <- Np.arange (Fin half) (Fin (of_nat n + half)%Qc) ;;
  Ok (Np.mul_scalar (Np.sub_scalar a (Fin (of_nat (Np.size a) / two)%Qc)) cdelt).

(** Lines 209-210. *)
Definition ref_coordinate (origin : float) (dim : Z) : float :=
  fadd origin (Fin ((of_Z dim - 1) / two)%Qc).

Definition sq (x : float) : float := fmul x x.

(** Lines 212-215: the weight of one sample. *)
Definition prf_weight (ref_column ref_row : float) (s : Sample) : result float :=
  w <- math_sqrt lm (fadd (sq (fsub ref_column (crval1p s)))
                          (sq (fsub ref_row (crval2p s)))) ;;
  Ok (if fltb w min_prf_weight then min_prf_weight else w).

(** Lines 211-216: the loop over the samples; it returns [prfWeight] and
    the accumulated [prf]. *)
Fixpoint fuse (ref_column ref_row : float) (samples : list Sample)
  (prf : Np.array2) : result (Np.array1 * Np.array2) :=
  match samples with
  | [] => Ok ([], prf)
  | s :: samples' =>
      w <- prf_weight ref_column ref_row s ;;
      let prf := Np.add2 prf (Np.div_scalar2 (prfn s) w) in
      r <- fuse ref_column ref_row samples' prf ;;
      Ok (w :: fst r, snd r)
  end.

(** Line 217. *)
Definition normalize (prf : Np.array2) (cdelt1p0 cdelt2p0 : float) : Np.array2 :=
  Np.div_scalar2 prf (fmul (fmul (Np.nansum prf) cdelt1p0) cdelt2p0).

(** Lines 206-216: [prf] as the loop leaves it, before normalisation. *)
Definition accumulate (shape : Z * Z) (column row : float)
  (samples : list Sample) : result Np.array2 :=
  first <- getitem samples 0 ;;
  let rowdim := fst shape in
  let coldim := snd shape in
  let prf := Np.zeros (Np.shape (prfn first)) in
  let ref_column := ref_coordinate column coldim in
  let ref_row := ref_coordinate row rowdim in
  r <- fuse ref_column ref_row samples prf ;;
  Ok (snd r).

(** Lines 206-217: the fused and normalised grid. *)
Definition fused_grid (shape : Z * Z) (column row : float)
  (samples : list Sample) : result Np.array2 :=
  first <- getitem samples 0 ;;
  prf <- accumulate shape column row samples ;;
  Ok (normalize prf (cdelt1p first) (cdelt2p first)).

(** Lines 220-221, one axis: [arange(origin + .5, origin + dim + .5)]. *)
Definition footprint_axis (origin : float) (dim : Z) : result Np.array1 :=
  Np.arange (fadd origin (Fin half))
            (fadd (fadd origin (Fin (of_Z dim))) (Fin half)).

(** Lines 178-224. *)
Definition _prepare_prf (prf_files_dir : string) (channel : Z)
  (shape : Z * Z) (column row : float)
  : result (Np.array1 * Np.array1 * Scipy.RectBivariateSpline) :=
  mo <- channel_to_module_output host channel ;;
  let prf_file_path := prf_file_path prf_files_dir (fst mo) (snd mo) in
  prffile <- getitem (glob host prf_file_path) 0 ;;
  samples <- read_prf_images prffile (seq 0 n_hdu) ;;
  samples <- np_array samples ;;
  first <- getitem samples 0 ;;
  PRFcol <- prf_axis (snd (Np.shape (prfn first))) (cdelt1p first) ;;
  PRFrow <- prf_axis (fst (Np.shape (prfn first))) (cdelt2p first) ;;
  prf <- fused_grid shape column row samples ;;
  col_coord <- footprint_axis column (snd shape) ;;
  row_coord <- footprint_axis row (fst shape) ;;
  interpolate <- Scipy.make fp PRFcol PRFrow prf ;;
  Ok (col_coord, row_coord, interpolate).

(** Lines 126-132. *)
Definition __init__ (channel : Z) (shape : Z * Z) (column row : float)
  (prf_files_dir : string) : result KeplerPRF :=
  r <- _prepare_prf prf_files_dir channel shape column row ;;
  Ok (mkKeplerPRF prf_files_dir channel shape column row
        (fst (fst r)) (snd (fst r)) (snd r) None).

(** Lines 134-162. *)
Definition prf_to_detector
  (flux centroid_col centroid_row stretch_col stretch_row rotation_radians : float)
  : M KeplerPRF Np.array2 :=
  cos_rot <~ lift (math_cos lm rotation_radians) ;;
  sin_rot <~ lift (math_sin lm rotation_radians) ;;
  self <~ get ;;
  let delta_col := Np.sub_scalar (col_coord self) centroid_col in
  let delta_row := Np.sub_scalar (row_coord self) centroid_row in
  delta_row0 <~ lift (getitem delta_row 0) ;;
  let rot_col := Np.sub_scalar (Np.mul_scalar delta_col cos_rot)
                               (fmul delta_row0 sin_rot) in
  delta_col0 <~ lift (getitem delta_col 0) ;;
  let rot_row := map (fadd (fmul delta_col0 sin_rot))
                     (Np.mul_scalar delta_row cos_rot) in
  z <~ lift (Scipy.call fp (interpolate self)
               (Np.mul_scalar delta_row stretch_row)
               (Np.mul_scalar delta_col stretch_col)) ;;
  let model := Np.rmul_scalar2 flux z in
  modify (fun self => set_prf_model self model) ;;;
  ret model.

(** Lines 164-165. *)
Definition evaluate
  (flux centroid_col centroid_row stretch_col stretch_row rotation_radians : float)
  : M KeplerPRF Np.array2 :=
  prf_to_detector flux centroid_col centroid_row stretch_col stretch_row
    rotation_radians.

End WithExternals.

End Prf.

(* ------------------------------------------------------------------ *)
(** ** class KeplerPRFPhotometry *)

Module Phot.

Definition params : Type := list float.

(** A stack of frames, [tpf.flux]. *)
Definition cube : Type := list Np.array2.

(** The attributes of a target pixel file that [do_photometry] reads. *)
Record TargetPixelFile : Type := mkTpf {
  time : list float;
  flux : cube;
  tpf_shape : list nat
}.

Section WithCollaborators.

(** The PRF model object and the likelihood object are opaque here. *)
Variables (Model Loss : Type).

(** The collaborators: [logL.fit( *x0 ).x], [logL.uncertainties()],
    [tpf.flux - self.prf_model( *x )], and the function imported from
    [oktopus.models]. *)
Record Collaborators : Type := mkCollab {
  fit_x : Loss -> params -> result params;
  loss_uncertainties : Loss -> result params;
  residuals_of : cube -> Model -> params -> result cube;
  get_initial_guesses : cube -> result (params * params)
}.

(** Lines 74-79: the attributes set by [__init__]; [loss_function] builds
    the likelihood of one frame, and the last three are Python lists. *)
Record KeplerPRFPhotometry : Type := mkPhot {
  prf_model : Model;
  loss_function : Np.array2 -> Model -> result Loss;
  opt_params : list params;
  residuals : list cube;
  uncertainties : list params
}.

Definition __init__ (prf_model : Model)
  (loss_function : Np.array2 -> Model -> result Loss) : KeplerPRFPhotometry :=
  mkPhot prf_model loss_function [] [] [].

(** The functions bound in the module's global namespace (lines 1-11):
    [get_initial_guesses] is, no other name of that kind. *)
Definition load_global (c : Collaborators) (name : string)
  : result (cube -> result (params * params)) :=
  if String.eqb name "get_initial_guesses" then Ok (get_initial_guesses c)
  else Raise NameError.

(** The methods of a [list] object. *)
Definition list_attributes : list string :=
  ["append"; "clear"; "copy"; "count"; "extend"; "index"; "insert"; "pop";
   "remove"; "reverse"; "sort"]%string.

(** [getattr(l, name)] on a list: [AttributeError] for any other name. *)
Definition list_getattr (name : string) : result unit :=
  if existsb (String.eqb name) list_attributes then Ok tt
  else Raise AttributeError.

Context (c : Collaborators).

Open Scope py_scope.

Definition append_opt_params (x : params) (self : KeplerPRFPhotometry) :=
  mkPhot (prf_model self) (loss_function self) (opt_params self ++ [x])
    (residuals self) (uncertainties self).

Definition append_residuals (x : cube) (self : KeplerPRFPhotometry) :=
  mkPhot (prf_model self) (loss_function self) (opt_params self)
    (residuals self ++ [x]) (uncertainties self).

Definition append_uncertainties (x : params) (self : KeplerPRFPhotometry) :=
  mkPhot (prf_model self) (loss_function self) (opt_params self)
    (residuals self) (uncertainties self ++ [x]).

(** Lines 87-94: the loop over the frames; it returns the last
    [initial_guesses]. *)
Fixpoint frames (tpf : TargetPixelFile) (range : list nat)
  (initial_guesses : params) : M KeplerPRFPhotometry params :=
  match range with
  | [] => ret initial_guesses
  | t :: range' =>
      self <~ get ;;
      frame <~ lift (getitem (flux tpf) t) ;;
      logL <~ lift (loss_function self frame (prf_model self)) ;;
      opt_result <~ lift (fit_x c logL initial_guesses) ;;
      residuals_opt_result <~
        lift (residuals_of c (flux tpf) (prf_model self) opt_result) ;;
      modify (append_opt_params opt_result) ;;;
      modify (append_residuals residuals_opt_result) ;;;
      u <~ lift (loss_uncertainties c logL) ;;
      modify (append_uncertainties u) ;;;
      frames tpf range' opt_result
  end.

(** Lines 81-97. *)
Definition do_photometry (tpf : TargetPixelFile)
  (initial_guesses : option params) : M KeplerPRFPhotometry unit :=
  initial_guesses <~
    match initial_guesses with
    | None =>
        get_inital_guesses <~ lift (load_global c "get_inital_guesses") ;;
        r <~ lift (get_inital_guesses (flux tpf)) ;;
        ret (fst r)
    | Some g => ret g
    end ;;
  initial_guesses <~ frames tpf (seq 0 (length (time tpf))) initial_guesses ;;
  lift (list_getattr "reshape") ;;;
  lift (list_getattr "reshape") ;;;
  ret tt.

End WithCollaborators.

End Phot.


(* ------------------------------------------------------------------ *)
(** ** The module in machine arithmetic

    The same code with the numbers the interpreter computes with: a Python
    float and a float64 array element are binary64 values, the elements of
    a float32 array are binary32 values, and every operation returns the
    value of its format nearest to the exact result.  The loader of lines
    167-176, [np.array], the file pattern and the records are those of
    [Prf]; what involves arithmetic is written again below.

    Beyond IEEE 754 the numeric behaviour depends on three things, gathered
    in [Numerics]: the format in which numpy combines a Python float with a
    float32 scalar (binary64 under the value-based casting of NumPy 1.x,
    binary32 from NumPy 2 on), the dtype of the calibration images, and the
    order in which [np.sum] adds the elements of an array.  [x ** 2] is C's
    [pow(x, 2.0)], which libm does not promise to round correctly: it is a
    fourth function of [Libm].  The sign of zero is not modelled, and
    neither is the exhaustion of memory. *)

(** Element [(i, j)] of a 2D array, when there is one. *)
Definition cell (a : Np.array2) (i j : nat) : option float :=
  match nth_error a i with
  | Some r => nth_error r j
  | None => None
  end.

Module Machine.

Definition f64 : Fp.format := Fp.binary64.
Definition f32 : Fp.format := Fp.binary32.

Definition c_half : float := Fin half.
Definition c_one : float := Fin (Q2Qc 1).
Definition c_two : float := Fin two.

(** [float(n)] for an int, as [+], [-] and [/] apply it when the other
    operand is a float. *)
Definition float_of_int (n : Z) : result float :=
  match Fp.round f64 (of_Z n) with
  | Fin q => Ok (Fin q)
  | _ => Raise OverflowError
  end.

(** array (op) scalar, element by element, in a given format. *)
Definition sub_scalar (fmt : Fp.format) (a : Np.array1) (s : float) : Np.array1 :=
  map (fun x => Fp.sub fmt x s) a.

Definition mul_scalar (fmt : Fp.format) (a : Np.array1) (s : float) : Np.array1 :=
  map (fun x => Fp.mul fmt x s) a.

Definition div_scalar2 (fmt : Fp.format) (a : Np.array2) (s : float) : Np.array2 :=
  map (map (fun x => Fp.div fmt x s)) a.

Definition rmul_scalar2 (fmt : Fp.format) (s : float) (a : Np.array2) : Np.array2 :=
  map (map (fun x => Fp.mul fmt s x)) a.

(** [a += b] on a float32 array [a]: the sum is computed in the format
    of [b] and stored as a float32. *)
Fixpoint iadd1 (fmt : Fp.format) (a b : Np.array1) : Np.array1 :=
  match a, b with
  | x :: a', y :: b' => Fp.rnd f32 (Fp.add fmt x y) :: iadd1 fmt a' b'
  | _, _ => []
  end.

Fixpoint iadd2 (fmt : Fp.format) (a b : Np.array2) : Np.array2 :=
  match a, b with
  | r :: a', s :: b' => iadd1 fmt r s :: iadd2 fmt a' b'
  | _, _ => []
  end.

(** [np.diff(a)] on a float64 array. *)
Fixpoint diff (a : Np.array1) : Np.array1 :=
  match a with
  | x :: ((y :: _) as a') => Fp.sub f64 y x :: diff a'
  | _ => []
  end.

(** [np.arange(start, stop)] on two Python floats, with the step 1:
    the length is [ceil((stop - start) / 1)], refused when it is not a
    number of the index type; the first two elements are [start] and
    [start + 1], and element [i] from the third on is
    [start + i * delta] with [delta] the difference of the first two. *)
Definition arange (start stop : float) : result Np.array1 :=
  match Fp.div f64 (Fp.sub f64 stop start) c_one with
  | Fin len =>
      let n := Qceiling len in
      if (n <? - 2 ^ 63)%Z || (2 ^ 63 - 1 <? n)%Z then Raise ValueError
      else
        let next := Fp.add f64 start c_one in
        let delta := Fp.sub f64 next start in
        Ok (map (fun i =>
                   match i with
                   | O => start
                   | S O => next
                   | _ => Fp.add f64 start
                            (Fp.mul f64 (Fp.round f64 (of_nat i)) delta)
                   end)
                (seq 0 (Z.to_nat n)))
  | _ => Raise ValueError
  end.

(** [RectBivariateSpline]: the checks of [np.diff] on float64 arrays, and
    the wrapper of FITPACK's [regrid_smth], which refuses an axis of
    [kx = ky = 3] points or fewer with its own exception. *)
Definition strictly_increasing (a : Np.array1) : bool :=
  forallb (fun d => fltb zero d) (diff a).

Definition nondecreasing (a : Np.array1) : bool :=
  forallb (fun d => fleb zero d) (diff a).

Definition make (fp : Scipy.Fitpack) (x y : Np.array1) (z : Np.array2)
  : result Scipy.RectBivariateSpline :=
  if negb (strictly_increasing x) then Raise ValueError
  else if negb (strictly_increasing y) then Raise ValueError
  else if negb (Np.size x =? fst (Np.shape z))%nat then Raise ValueError
  else if negb (Np.size y =? snd (Np.shape z))%nat then Raise ValueError
  else if (Np.size x <=? 3)%nat then Raise Scipy.dfitpack_error
  else if (Np.size y <=? 3)%nat then Raise Scipy.dfitpack_error
  else if negb (Scipy.ier_ok (Scipy.regrid_smth_ier fp x y z)) then Raise ValueError
  else Ok (Scipy.mkSpline x y z).

Definition call (fp : Scipy.Fitpack) (s : Scipy.RectBivariateSpline)
  (x y : Np.array1) : result Np.array2 :=
  if (Np.size x =? 0)%nat || (Np.size y =? 0)%nat
  then Ok (Np.zeros (Np.size x, Np.size y))
  else if (2 <=? Np.size x)%nat && negb (nondecreasing x) then Raise ValueError
  else if (2 <=? Np.size y)%nat && negb (nondecreasing y) then Raise ValueError
  else Ok (map (fun xi => map (fun yj => Fp.rnd f64 (Scipy.bispev fp s xi yj)) y) x).

(** libm: the results for finite arguments. *)
Record Libm : Type := mkLibm {
  libm_sqrt : Qc -> Qc;
  libm_cos : Qc -> Qc;
  libm_sin : Qc -> Qc;
  libm_pow2 : Qc -> Qc
}.

Record Numerics : Type := mkNumerics {
  scalar_format : Fp.format;
  image_format : Fp.format;
  add_reduce : list float -> float
}.

Definition math_sqrt (lm : Libm) (x : float) : result float :=
  match x with
  | Fin q => if Qcltb q 0 then Raise ValueError
             else Ok (Fp.round f64 (libm_sqrt lm q))
  | PInf => Ok PInf
  | NInf => Raise ValueError
  | NaN => Ok NaN
  end.

Definition math_cos (lm : Libm) (x : float) : result float :=
  match x with
  | Fin q => Ok (Fp.round f64 (libm_cos lm q))
  | NaN => Ok NaN
  | PInf | NInf => Raise ValueError
  end.

Definition math_sin (lm : Libm) (x : float) : result float :=
  match x with
  | Fin q => Ok (Fp.round f64 (libm_sin lm q))
  | NaN => Ok NaN
  | PInf | NInf => Raise ValueError
  end.

(** [x ** 2] on a numpy scalar of a given format. *)
Definition square (lm : Libm) (fmt : Fp.format) (x : float) : float :=
  match x with
  | Fin q => Fp.round fmt (libm_pow2 lm q)
  | PInf | NInf => PInf
  | NaN => NaN
  end.

(** [y] is twice [x] within tolerance: exactly, as [2 * x] computes it,
    for an [x] that is not finite or lies above [2^-1022], and to within
    [2^-1074], the spacing of the smallest binary64 numbers, for an [x] at
    or below [2^-1022]. *)
Definition doubles (x y : float) : Prop :=
  match x with
  | Fin q =>
      if Qle_bool (Qabs q) (Fp.pow2 (-1022))
      then exists r : Qc, y = Fin r /\ (Qabs (r - 2 * q) <= Fp.pow2 (-1074))%Q
      else y = Fp.mul f64 c_two x
  | _ => y = Fp.mul f64 c_two x
  end.

(** The literal [1e-6] of line 180. *)
Definition min_prf_weight : float := Fp.round f64 (Q2Qc (1 # 1000000)).

Section WithExternals.

Context (lm : Libm) (nm : Numerics) (fp : Scipy.Fitpack) (host : Prf.Host).

Open Scope py_scope.

(** Lines 193-198: the four values of an extension are assigned to
    elements of float32 arrays. *)
Definition store (s : Prf.Sample) : Prf.Sample :=
  Prf.mkSample (Prf.prfn s) (Fp.rnd f32 (Prf.crval1p s))
    (Fp.rnd f32 (Prf.crval2p s)) (Fp.rnd f32 (Prf.cdelt1p s))
    (Fp.rnd f32 (Prf.cdelt2p s)).

Fixpoint read_prf_images (prffile : string) (range : list nat)
  : result (list Prf.Sample) :=
  match range with
  | [] => Ok []
  | i :: range' =>
      s <- Prf._read_prf_calibration_file host prffile (i + 1) ;;
      ss <- read_prf_images prffile range' ;;
      Ok (store s :: ss)
  end.

(** Lines 200-203, one axis. *)
Definition prf_axis (n : nat) (cdelt : float) : result Np.array1 :=
  n' <- float_of_int (Z.of_nat n) ;;
  a <- arange c_half (Fp.add f64 n' c_half) ;;
  let centre := Fp.round f64 (of_nat (Np.size a) / two)%Qc in
  Ok (mul_scalar f64 (sub_scalar f64 a centre) cdelt).

(** Lines 209-210. *)
Definition ref_coordinate (origin : float) (dim : Z) : result float :=
  dim' <- float_of_int dim ;;
  Ok (Fp.add f64 origin (Fp.div f64 (Fp.sub f64 dim' c_one) c_two)).

(** Lines 212-215: the weight of one sample, as stored in [prfWeight]. *)
Definition prf_weight (ref_column ref_row : float) (s : Prf.Sample)
  : result float :=
  let fmt := scalar_format nm in
  let dc := Fp.sub fmt (Fp.rnd fmt ref_column) (Fp.rnd fmt (Prf.crval1p s)) in
  let dr := Fp.sub fmt (Fp.rnd fmt ref_row) (Fp.rnd fmt (Prf.crval2p s)) in
  d <- math_sqrt lm (Fp.add fmt (square lm fmt dc) (square lm fmt dr)) ;;
  let w := Fp.rnd f32 d in
  Ok (if fltb (Fp.rnd fmt w) (Fp.rnd fmt min_prf_weight)
      then Fp.rnd f32 min_prf_weight else w).

(** Line 216 on one element: what a pixel of the sample adds to the
    element [acc] of the float32 array [prf]. *)
Definition fuse_step (acc pixel w : float) : float :=
  Fp.rnd f32 (Fp.add (image_format nm) acc (Fp.div (image_format nm) pixel w)).

(** Lines 211-216. *)
Fixpoint fuse (ref_column ref_row : float) (samples : list Prf.Sample)
  (prf : Np.array2) : result (Np.array1 * Np.array2) :=
  match samples with
  | [] => Ok ([], prf)
  | s :: samples' =>
      w <- prf_weight ref_column ref_row s ;;
      let prf := iadd2 (image_format nm) prf
                   (div_scalar2 (image_format nm) (Prf.prfn s) w) in
      r <- fuse ref_column ref_row samples' prf ;;
      Ok (w :: fst r, snd r)
  end.

(** [np.nansum] of a float32 array. *)
Definition nansum (a : Np.array2) : float :=
  Fp.rnd f32 (add_reduce nm (map Np.nan_to_zero (concat a))).

(** Line 217. *)
Definition normalize (prf : Np.array2) (cdelt1p0 cdelt2p0 : float) : Np.array2 :=
  div_scalar2 f32 prf (Fp.mul f32 (Fp.mul f32 (nansum prf) cdelt1p0) cdelt2p0).

(** Lines 206-216. *)
Definition accumulate (shape : Z * Z) (column row : float)
  (samples : list Prf.Sample) : result Np.array2 :=
  first <- getitem samples 0 ;;
  let rowdim := fst shape in
  let coldim := snd shape in
  let prf := Np.zeros (Np.shape (Prf.prfn first)) in
  ref_column <- ref_coordinate column coldim ;;
  ref_row <- ref_coordinate row rowdim ;;
  r <- fuse ref_column ref_row samples prf ;;
  Ok (snd r).

(** Lines 206-217. *)
Definition fused_grid (shape : Z * Z) (column row : float)
  (samples : list Prf.Sample) : result Np.array2 :=
  first <- getitem samples 0 ;;
  prf <- accumulate shape column row samples ;;
  Ok (normalize prf (Prf.cdelt1p first) (Prf.cdelt2p first)).

(** Lines 220-221, one axis. *)
Definition footprint_axis (origin : float) (dim : Z) : result Np.array1 :=
  dim' <- float_of_int dim ;;
  arange (Fp.add f64 origin c_half)
         (Fp.add f64 (Fp.add f64 origin dim') c_half).

(** Lines 178-224. *)
Definition _prepare_prf (prf_files_dir : string) (channel : Z)
  (shape : Z * Z) (column row : float)
  : result (Np.array1 * Np.array1 * Scipy.RectBivariateSpline) :=
  mo <- Prf.channel_to_module_output host channel ;;
  let prf_file_path := Prf.prf_file_path prf_files_dir (fst mo) (snd mo) in
  prffile <- getitem (Prf.glob host prf_file_path) 0 ;;
  samples <- read_prf_images prffile (seq 0 Prf.n_hdu) ;;
  samples <- Prf.np_array samples ;;
  first <- getitem samples 0 ;;
  PRFcol <- prf_axis (snd (Np.shape (Prf.prfn first))) (Prf.cdelt1p first) ;;
  PRFrow <- prf_axis (fst (Np.shape (Prf.prfn first))) (Prf.cdelt2p first) ;;
  prf <- fused_grid shape column row samples ;;
  col_coord <- footprint_axis column (snd shape) ;;
  row_coord <- footprint_axis row (fst shape) ;;
  interpolate <- make fp PRFcol PRFrow prf ;;
  Ok (col_coord, row_coord, interpolate).

(** Lines 126-132. *)
Definition __init__ (channel : Z) (shape : Z * Z) (column row : float)
  (prf_files_dir : string) : result Prf.KeplerPRF :=
  r <- _prepare_prf prf_files_dir channel shape column row ;;
  Ok (Prf.mkKeplerPRF prf_files_dir channel shape column row
        (fst (fst r)) (snd (fst r)) (snd r) None).

(** Lines 134-162. *)
Definition prf_to_detector
  (flux centroid_col centroid_row stretch_col stretch_row rotation_radians : float)
  : M Prf.KeplerPRF Np.array2 :=
  cos_rot <~ lift (math_cos lm rotation_radians) ;;
  sin_rot <~ lift (math_sin lm rotation_radians) ;;
  self <~ get ;;
  let delta_col := sub_scalar f64 (Prf.col_coord self) centroid_col in
  let delta_row := sub_scalar f64 (Prf.row_coord self) centroid_row in
  delta_row0 <~ lift (getitem delta_row 0) ;;
  let rot_col := sub_scalar f64 (mul_scalar f64 delta_col cos_rot)
                                (Fp.mul f64 delta_row0 sin_rot) in
  delta_col0 <~ lift (getitem delta_col 0) ;;
  let rot_row := map (Fp.add f64 (Fp.mul f64 delta_col0 sin_rot))
                     (mul_scalar f64 delta_row cos_rot) in
  z <~ lift (call fp (Prf.interpolate self)
               (mul_scalar f64 delta_row stretch_row)
               (mul_scalar f64 delta_col stretch_col)) ;;
  let model := rmul_scalar2 f64 flux z in
  modify (fun self => Prf.set_prf_model self model) ;;;
  ret model.

(** Lines 164-165. *)
Definition evaluate
  (flux centroid_col centroid_row stretch_col stretch_row rotation_radians : float)
  : M Prf.KeplerPRF Np.array2 :=
  prf_to_detector flux centroid_col centroid_row stretch_col stretch_row
    rotation_radians.

End WithExternals.

End Machine.

(* ------------------------------------------------------------------ *)
(** ** A concrete setting

    Stand-ins for the external code and one calibration file, used to run
    the model on concrete inputs. *)

Module Demo.

Definition q (n : Z) (d : positive) : float := Fin (Q2Qc (n # d)).

(** A square root that is exact on squares of rationals. *)
Definition sqrt_ratio (x : Qc) : Qc :=
  Q2Qc (Z.sqrt (Qnum x) # Pos.sqrt (Qden x)).

(** [cos] and [sin] are exact at the angle 0, the only one used below. *)
Definition libm : Prf.Libm :=
  Prf.mkLibm sqrt_ratio (fun _ => Q2Qc 1) (fun _ => Q2Qc 0).

(** Every fit succeeds, and the fitted surface is flat. *)
Definition fitpack : Scipy.Fitpack :=
  Scipy.mkFitpack (fun _ _ _ => 0%Z) (fun _ _ _ => q 1 1).

Definition ones : Np.array2 := repeat (repeat (q 1 1) 4) 4.

Definition cards (crval1p crval2p : float) : list (string * float) :=
  [("CRVAL1P"%string, crval1p); ("CRVAL2P"%string, crval2p);
   ("CDELT1P"%string, q 1 50); ("CDELT2P"%string, q 1 50)].

Definition primary : Fits.HDU := Fits.mkHDU [] [].

Definition sample (crval1p crval2p : float) : Prf.Sample :=
  Prf.mkSample ones crval1p crval2p (q 1 50) (q 1 50).

(** Five 4x4 images; the fourth sample sits at the reference point of the
    footprint used below, (101, 200.5). *)
Definition colocated : Prf.Sample := sample (q 101 1) (q 401 2).

Definition first : Prf.Sample := sample (q 104 1) (q 409 2).

Definition samples : list Prf.Sample :=
  [first; sample (q 98 1) (q 393 2); sample (q 107 1) (q 417 2);
   colocated; sample (q 106 1) (q 425 2)].

Definition hdu_of (s : Prf.Sample) : Fits.HDU :=
  Fits.mkHDU (Prf.prfn s) (cards (Prf.crval1p s) (Prf.crval2p s)).

Definition extensions : Fits.HDUList := map hdu_of samples.

Definition prf_file : Fits.HDUList := primary :: extensions.

Definition file_name : string := "prf/kplr13.2_2011265_prf.fits".

(** One directory [prf] holding one calibration file, for channel 42. *)
Definition host_with (file : Fits.HDUList) : Prf.Host :=
  Prf.mkHost
    (fun channel => if (channel =? 42)%Z then Ok (13%Z, 2%Z)
                    else Raise (OtherError "KeyError"))
    (fun pattern => if String.eqb pattern "prf/kplr13.2*_prf.fits"
                    then [file_name] else [])
    (fun path => if String.eqb path file_name then Ok file
                 else Raise (OtherError "FileNotFoundError")).

Definition host : Prf.Host := host_with prf_file.

(** The same directory, empty. *)
Definition empty_host : Prf.Host :=
  Prf.mkHost (Prf.channel_to_module_output host) (fun _ => [])
    (Prf.pyfits_open host).

(** The same file with a NaN in the first pixel of the first image. *)
Definition nan_image : Np.array2 :=
  (NaN :: repeat (q 1 1) 3) :: repeat (repeat (q 1 1) 4) 3.

Definition nan_first : Prf.Sample :=
  Prf.mkSample nan_image (Prf.crval1p first) (Prf.crval2p first)
    (Prf.cdelt1p first) (Prf.cdelt2p first).

Definition nan_samples : list Prf.Sample := nan_first :: tl samples.




(** The footprint: 2 rows and 3 columns at column 100, row 200. *)
Definition shape : Z * Z := (2%Z, 3%Z).

Definition model_on (h : Prf.Host) : result Prf.KeplerPRF :=
  Prf.__init__ libm fitpack h 42 shape (q 100 1) (q 200 1) "prf".

(** Collaborators that always succeed, the optimiser returning its
    starting point, and a target pixel file of two frames. *)
Definition collaborators : Phot.Collaborators unit unit :=
  Phot.mkCollab unit unit (fun _ x0 => Ok x0) (fun _ => Ok [])
    (fun flux _ _ => Ok flux) (fun _ => Ok ([], [])).

Definition photometry : Phot.KeplerPRFPhotometry unit unit :=
  Phot.__init__ unit unit tt (fun _ _ => Ok tt).

Definition tpf : Phot.TargetPixelFile :=
  Phot.mkTpf [q 0 1; q 1 1] [ones; ones] [2; 4; 4]%nat.

Definition guesses : Phot.params := [q 7 1; q 101 1; q 401 2].

End Demo.

(** The same setting for [Machine]. *)

Module Demo64.

(** The double nearest to [n / d], as a literal denotes it. *)
Definition d (n : Z) (den : positive) : float :=
  Fp.round Fp.binary64 (Q2Qc (n # den)).

(** [pow(x, 2.0)] as the exact square. *)
Definition libm : Machine.Libm :=
  Machine.mkLibm Demo.sqrt_ratio (fun _ => Q2Qc 1) (fun _ => Q2Qc 0)
    (fun x => (x * x)%Qc).

(** The casting of NumPy 1.x, float32 images, and [np.sum] adding from
    left to right. *)
Definition numerics : Machine.Numerics :=
  Machine.mkNumerics Fp.binary64 Fp.binary32
    (fun l => fold_left (Fp.add Fp.binary32) l zero).

(** The same with the casting of NumPy 2. *)
Definition numerics2 : Machine.Numerics :=
  Machine.mkNumerics Fp.binary32 Fp.binary32
    (fun l => fold_left (Fp.add Fp.binary32) l zero).

(** A fit that succeeds, with a flat surface of height [z]. *)
Definition flat (z : float) : Scipy.Fitpack :=
  Scipy.mkFitpack (fun _ _ _ => 0%Z) (fun _ _ _ => z).

(** The calibration file of [Demo] as the FITS reader hands it over: the
    value of a card is a Python float. *)
Definition parsed (h : Fits.HDU) : Fits.HDU :=
  Fits.mkHDU (Fits.data h)
    (map (fun kv => (fst kv, Fp.rnd Fp.binary64 (snd kv))) (Fits.header h)).

Definition prf_file : Fits.HDUList := map parsed Demo.prf_file.

(** The fourth sample as lines 197-198 store it. *)
Definition colocated : Prf.Sample := Machine.store Demo.colocated.

Definition host : Prf.Host := Demo.host_with prf_file.

Definition model_at (column row : float) (shape : Z * Z)
  : result Prf.KeplerPRF :=
  Machine.__init__ libm numerics Demo.fitpack host 42 shape column row "prf".

(** A file whose images have 3 rows and 3 columns. *)
Definition small_image : Np.array2 := repeat (repeat (Demo.q 1 1) 3) 3.

Definition small_file : Fits.HDUList :=
  map (fun h => Fits.mkHDU (match Fits.data h with
                            | [] => []
                            | _ => small_image
                            end) (Fits.header h)) prf_file.

End Demo64.

(* ------------------------------------------------------------------ *)
(** ** Vocabulary of the statements on machine numbers *)

(** [q * 2^t] is the integer [k]: [q] is a multiple of [2^-t]. *)
Definition scaled (t : Z) (q : Qc) (k : Z) : Prop :=
  (q * Fp.pow2 t == inject_Z k)%Q.

(** A finite number of magnitude at most [2^k]. *)
Definition within (k : Z) (x : float) : Prop :=
  exists q : Qc, x = Fin q /\ (Qabs q <= Fp.pow2 k)%Q.

(** A list in which no element is below its predecessor. *)
Inductive ascending : list float -> Prop :=
| asc_nil : ascending []
| asc_one (x : float) : ascending [x]
| asc_cons (x y : float) (l : list float) :
    fleb x y = true -> ascending (y :: l) -> ascending (x :: y :: l).

(** A value that is neither NaN nor below zero. *)
Definition nonneg (x : float) : Prop := x = NaN \/ fleb zero x = true.


(* ------------------------------------------------------------------ *)
(** ** The model at work *)

Example prf_file_path_module_13 :
  Prf.prf_file_path "prf" 13 2 = "prf/kplr13.2*_prf.fits"%string.
Proof. reflexivity. Qed.

Example prf_file_path_module_7 :
  Prf.prf_file_path "/data/prf/" 7 3 = "/data/prf/kplr07.3*_prf.fits"%string.
Proof. reflexivity. Qed.

Example arange_three_pixels :
  Np.arange (Demo.q 1 2) (Demo.q 7 2)
  = Ok [Demo.q 1 2; Demo.q 3 2; Demo.q 5 2].
Proof.
  unfold Np.arange, Demo.q. simpl. do 2 f_equal;
    repeat (f_equal; try (apply Qc_is_canon; reflexivity)).
Qed.

Example arange_refuses_infinity :
  Np.arange (Demo.q 1 2) PInf = Raise ValueError.
Proof. reflexivity. Qed.

Example division_by_zero :
  fdiv (Demo.q 1 1) zero = PInf /\ fdiv zero zero = NaN /\
  fdiv (Demo.q (-1) 1) zero = NInf.
Proof. repeat split. Qed.

Example nansum_skips_nan :
  Np.sum [[NaN; Demo.q 1 1]] = NaN /\
  Np.nansum [[NaN; Demo.q 1 1]] = Fin (Q2Qc 1 + (Q2Qc 0 + Q2Qc 0))%Qc.
Proof. split; reflexivity. Qed.

Example spline_call_needs_sorted_arguments :
  Scipy.call Demo.fitpack (Scipy.mkSpline [] [] [])
    [Demo.q 2 1; Demo.q 1 1] [Demo.q 0 1] = Raise ValueError /\
  Scipy.call Demo.fitpack (Scipy.mkSpline [] [] [])
    [Demo.q 1 1; Demo.q 2 1] [Demo.q 0 1] = Ok [[Demo.q 1 1]; [Demo.q 1 1]].
Proof. split; reflexivity. Qed.

Example model_is_built : is_ok (Demo.model_on Demo.host) = true.
Proof. vm_compute. reflexivity. Qed.

(* ================================================================== *)

Example binary64_of_2_9 :
  Demo64.d 29 10 = Fin (Q2Qc (6530219459687219 # 2251799813685248)).
Proof. vm_compute. f_equal; apply Qc_is_canon; reflexivity. Qed.

Example binary32_of_1e_6 :
  Fp.round Fp.binary32 (Q2Qc (1 # 1000000))
  = Fin (Q2Qc (8796093 # 8796093022208)).
Proof. vm_compute. f_equal; apply Qc_is_canon; reflexivity. Qed.

Example binary32_of_0_02 :
  Fp.rnd Fp.binary32 (Demo64.d 1 50) = Fin (Q2Qc (5368709 # 268435456)).
Proof. vm_compute. f_equal; apply Qc_is_canon; reflexivity. Qed.

Example binary64_overflow :
  Fp.mul Fp.binary64 (Fin two) (Demo64.d (10 ^ 308) 1) = PInf /\
  is_finite (Demo64.d (10 ^ 308) 1) = true.
Proof. split; vm_compute; reflexivity. Qed.

Example binary64_ties_to_even :
  Fp.add Fp.binary64 (Demo64.d (2 ^ 53) 1) (Demo.q 1 1) = Demo64.d (2 ^ 53) 1 /\
  Fp.add Fp.binary64 (Demo64.d (2 ^ 53 + 2) 1) (Demo.q 1 1)
  = Demo64.d (2 ^ 53 + 4) 1.
Proof. split; vm_compute; f_equal; apply Qc_is_canon; reflexivity. Qed.

Example binary64_smallest_number :
  Fp.round Fp.binary64 (Q2Qc (Fp.pow2 (-1074))) = Fin (Q2Qc (Fp.pow2 (-1074))) /\
  Fp.round Fp.binary64 (Q2Qc (Fp.pow2 (-1075))) = zero /\
  Fp.round Fp.binary64 (Q2Qc (3 * Fp.pow2 (-1075))) = Fin (Q2Qc (Fp.pow2 (-1073))).
Proof. repeat split; vm_compute; f_equal; apply Qc_is_canon; reflexivity. Qed.

Example machine_arange_three_pixels :
  Machine.arange (Demo.q 1 2) (Demo.q 7 2)
  = Ok [Demo.q 1 2; Demo.q 3 2; Demo.q 5 2].
Proof.
  vm_compute. do 2 f_equal; repeat (f_equal; try (apply Qc_is_canon; reflexivity)).
Qed.

Example machine_arange_at_2_9 :
  option_map (@length float)
    (match Machine.arange (Fp.add Fp.binary64 (Demo64.d 29 10) (Demo.q 1 2))
             (Fp.add Fp.binary64
                (Fp.add Fp.binary64 (Demo64.d 29 10) (Demo.q 3 1)) (Demo.q 1 2))
     with Ok a => Some a | Raise _ => None end)
  = Some 4%nat.
Proof. vm_compute. reflexivity. Qed.

Example machine_model_is_built :
  is_ok (Demo64.model_at (Demo.q 100 1) (Demo.q 200 1) Demo.shape) = true.
Proof. vm_compute. reflexivity. Qed.

(** * Properties *)

(** Turns a goal or hypothesis on [Qc] into one on [Q], where [ring],
    [field] and [lra] apply. *)
Ltac qc2q :=
  try apply Qc_is_canon;
  unfold half, two in *; unfold of_nat in *; unfold of_Z in *;
  unfold Qcle, Qclt, Qcminus, Qcdiv in *;
  unfold Qcplus, Qcmult, Qcopp, Qcinv in *;
  unfold Q2Qc in *;
  cbn [this] in *;
  repeat rewrite !Qred_correct in *.

Section NumberFacts.

Open Scope Qc_scope.

Lemma Qcltb_lt (a b : Qc) : Qcltb a b = true <-> a < b.
Proof.
  unfold Qcltb. rewrite Qclt_alt. destruct (a ?= b); split; congruence.
Qed.

Lemma Qcltb_ge (a b : Qc) : Qcltb a b = false <-> b <= a.
Proof.
  rewrite <- not_true_iff_false, Qcltb_lt. split.
  - apply Qcnot_lt_le.
  - intros H H'. exact (Qcle_not_lt _ _ H H').
Qed.

Lemma Qcleb_le (a b : Qc) : Qcleb a b = true <-> a <= b.
Proof.
  unfold Qcleb. rewrite Qcle_alt. destruct (a ?= b); split; congruence.
Qed.

Lemma Qceqb_eq (a b : Qc) : Qceqb a b = true <-> a = b.
Proof.
  unfold Qceqb. rewrite Qceq_alt. destruct (a ?= b); split; congruence.
Qed.


Lemma fadd_zero_l (x : float) : fadd zero x = x.
Proof.
  destruct x; simpl; trivial. f_equal. ring.
Qed.




Lemma double_sgn (a : Qc) : (two * a ?= 0) = (a ?= 0).
Proof.
  destruct (a ?= 0) eqn:E.
  - apply (proj2 (Qceq_alt _ _)) in E. subst a.
    apply (proj1 (Qceq_alt _ _)). ring.
  - apply (proj2 (Qclt_alt _ _)) in E.
    apply (proj1 (Qclt_alt _ _)). qc2q. lra.
  - apply (proj2 (Qcgt_alt _ _)) in E.
    apply (proj1 (Qcgt_alt _ _)). qc2q. lra.
Qed.

(** Doubling commutes with a product, also at the non-finite values. *)
Lemma fmul_two_assoc (x y : float) :
  fmul (fmul (Fin two) x) y = fmul (Fin two) (fmul x y).
Proof.
  assert (T : (two ?= 0) = Gt) by reflexivity.
  destruct x as [a| | |], y as [b| | |]; simpl; rewrite ?T; trivial.
  - f_equal. ring.
  - rewrite double_sgn. destruct (a ?= 0); simpl; rewrite ?T; trivial.
  - rewrite double_sgn. destruct (a ?= 0); simpl; rewrite ?T; trivial.
  - destruct (b ?= 0); simpl; rewrite ?T; trivial.
  - destruct (b ?= 0); simpl; rewrite ?T; trivial.
Qed.

End NumberFacts.

(* ------------------------------------------------------------------ *)
(** ** Results and the steps of [_prepare_prf] *)

Section Inversion.

Lemma bind_ok_inv {A B : Type} (r : result A) (k : A -> result B) (b : B) :
  Py.bind r k = Ok b -> exists a, r = Ok a /\ k a = Ok b.
Proof.
  destruct r as [a|e]; simpl; [eauto | discriminate].
Qed.

Lemma bind_raise {A B : Type} (r : result A) (k : A -> result B) (e : exn) :
  r = Raise e -> Py.bind r k = Raise e.
Proof. intros ->. reflexivity. Qed.

Lemma bind_ok {A B : Type} (r : result A) (k : A -> result B) (a : A) :
  r = Ok a -> Py.bind r k = k a.
Proof. intros ->. reflexivity. Qed.

Context (lm : Prf.Libm) (fp : Scipy.Fitpack) (host : Prf.Host).

(** A successful [_prepare_prf] went through every step of the method. *)
Lemma _prepare_prf_inv dir channel shape column row cc rc itp :
  Prf._prepare_prf lm fp host dir channel shape column row = Ok (cc, rc, itp) ->
  exists mo prffile read samples first PRFcol PRFrow prf,
    Prf.channel_to_module_output host channel = Ok mo /\
    getitem (Prf.glob host (Prf.prf_file_path dir (fst mo) (snd mo))) 0
      = Ok prffile /\
    Prf.read_prf_images host prffile (seq 0 Prf.n_hdu) = Ok read /\
    Prf.np_array read = Ok samples /\
    getitem samples 0 = Ok first /\
    Prf.prf_axis (snd (Np.shape (Prf.prfn first))) (Prf.cdelt1p first)
      = Ok PRFcol /\
    Prf.prf_axis (fst (Np.shape (Prf.prfn first))) (Prf.cdelt2p first)
      = Ok PRFrow /\
    Prf.fused_grid lm shape column row samples = Ok prf /\
    Prf.footprint_axis column (snd shape) = Ok cc /\
    Prf.footprint_axis row (fst shape) = Ok rc /\
    Scipy.make fp PRFcol PRFrow prf = Ok itp.
Proof.
  unfold Prf._prepare_prf. intros H.
  repeat match type of H with
         | Py.bind _ _ = Ok _ =>
             let x := fresh "x" in
             let E := fresh "E" in
             apply bind_ok_inv in H; destruct H as (x & E & H)
         end.
  injection H as <- <- <-.
  do 8 eexists. repeat (split; [eassumption|]). eassumption.
Qed.

Lemma __init___inv channel shape column row dir self :
  Prf.__init__ lm fp host channel shape column row dir = Ok self ->
  exists cc rc itp,
    Prf._prepare_prf lm fp host dir channel shape column row
      = Ok (cc, rc, itp) /\
    self = Prf.mkKeplerPRF dir channel shape column row cc rc itp None.
Proof.
  unfold Prf.__init__. intros H.
  apply bind_ok_inv in H. destruct H as ([[cc rc] itp] & E & H).
  injection H as <-. eauto.
Qed.

End Inversion.

(* ------------------------------------------------------------------ *)
(** ** Rounding: exactness, order and bounds *)

Import Fp.

Section Pow2.

Open Scope Q_scope.

Lemma pow2_pos (e : Z) : 0 < pow2 e.
Proof. apply Qpower_0_lt. reflexivity. Qed.

Lemma pow2_add (a b : Z) : pow2 (a + b) == pow2 a * pow2 b.
Proof. apply Qpower_plus. discriminate. Qed.

Lemma pow2_le (a b : Z) : (a <= b)%Z -> pow2 a <= pow2 b.
Proof. intros H. apply Qpower_le_compat_l; [exact H | discriminate]. Qed.

Lemma pow2_lt (a b : Z) : (a < b)%Z -> pow2 a < pow2 b.
Proof. intros H. apply Qpower_lt_compat_l; [exact H | reflexivity]. Qed.

Lemma pow2_lt_inv (a b : Z) : pow2 a < pow2 b -> (a < b)%Z.
Proof. intros H. apply (Qpower_lt_compat_l_inv 2); [exact H | reflexivity]. Qed.

Lemma pow2_Z (k : Z) : (0 <= k)%Z -> pow2 k == inject_Z (2 ^ k).
Proof. intros H. unfold pow2. now rewrite Zpower_Qpower. Qed.

Lemma pow2_succ (a : Z) : pow2 (a + 1) == 2 * pow2 a.
Proof. rewrite pow2_add. change (pow2 1) with 2. ring. Qed.

Lemma pow2_pred (a : Z) : 2 * pow2 (a - 1) == pow2 a.
Proof. rewrite <- pow2_succ. now replace (a - 1 + 1)%Z with a by ring. Qed.

End Pow2.

Section Ilog2.

Open Scope Q_scope.

Lemma ilog2_bracket (x : Q) :
  0 < x ->
  let k := (Z.log2 (Qnum x) - Z.log2 (Zpos (Qden x)))%Z in
  pow2 (k - 1) < x /\ x < pow2 (k + 1).
Proof.
  intros Hx. destruct x as [n d]. cbn [Qnum Qden].
  assert (Hn : (0 < n)%Z).
  { unfold Qlt in Hx. simpl in Hx. lia. }
  set (a := Z.log2 n). set (b := Z.log2 (Z.pos d)).
  destruct (Z.log2_spec n Hn) as [Ha Ha'].
  destruct (Z.log2_spec (Z.pos d) (Pos2Z.is_pos d)) as [Hb Hb'].
  fold a in Ha, Ha'. fold b in Hb, Hb'.
  assert (a0 : (0 <= a)%Z) by apply Z.log2_nonneg.
  assert (b0 : (0 <= b)%Z) by apply Z.log2_nonneg.
  assert (E : n # d == inject_Z n / inject_Z (Z.pos d)) by apply Qmake_Qdiv.
  assert (Dpos : 0 < inject_Z (Z.pos d)) by reflexivity.
  assert (Ea : pow2 (a - b - 1) * pow2 (b + 1) == pow2 a).
  { rewrite <- pow2_add. now replace (a - b - 1 + (b + 1))%Z with a by ring. }
  assert (Eb : pow2 (a - b + 1) * pow2 b == pow2 (a + 1)).
  { rewrite <- pow2_add. now replace (a - b + 1 + b)%Z with (a + 1)%Z by ring. }
  assert (Qa : pow2 a <= inject_Z n) by (rewrite pow2_Z by lia; rewrite <- Zle_Qle; lia).
  assert (Qa' : inject_Z n < pow2 (a + 1)) by (rewrite pow2_Z by lia; rewrite <- Zlt_Qlt; lia).
  assert (Qb : pow2 b <= inject_Z (Z.pos d)) by (rewrite pow2_Z by lia; rewrite <- Zle_Qle; lia).
  assert (Qb' : inject_Z (Z.pos d) < pow2 (b + 1)) by (rewrite pow2_Z by lia; rewrite <- Zlt_Qlt; lia).
  pose proof (pow2_pos (a - b - 1)) as P1. pose proof (pow2_pos (a - b + 1)) as P2.
  pose proof (pow2_pos b) as P3. pose proof (pow2_pos (b + 1)) as P4.
  rewrite E. split.
  - apply Qlt_shift_div_l; [exact Dpos|].
    apply Qlt_le_trans with (pow2 (a - b - 1) * pow2 (b + 1)).
    + apply Qmult_lt_l; assumption.
    + rewrite Ea. exact Qa.
  - apply Qlt_shift_div_r; [exact Dpos|].
    apply Qlt_le_trans with (pow2 (a - b + 1) * pow2 b).
    + rewrite Eb. exact Qa'.
    + apply Qmult_le_l; assumption.
Qed.

Lemma ilog2_spec (x : Q) :
  0 < x -> pow2 (ilog2 x) <= x /\ x < pow2 (ilog2 x + 1).
Proof.
  intros Hx. destruct (ilog2_bracket x Hx) as [L U]. unfold ilog2.
  set (k := (Z.log2 (Qnum x) - Z.log2 (Z.pos (Qden x)))%Z) in *.
  destruct (Qle_bool (pow2 k) x) eqn:E.
  - apply Qle_bool_iff in E. now split.
  - split; [now apply Qlt_le_weak|].
    replace (k - 1 + 1)%Z with k by ring.
    apply Qnot_le_lt. intros H. apply Qle_bool_iff in H. congruence.
Qed.

Lemma ilog2_unique (x : Q) (k : Z) :
  pow2 k <= x -> x < pow2 (k + 1) -> ilog2 x = k.
Proof.
  intros L U.
  assert (Hx : 0 < x) by (apply Qlt_le_trans with (pow2 k); [apply pow2_pos | exact L]).
  destruct (ilog2_spec x Hx) as [L' U'].
  assert (ilog2 x < k + 1)%Z
    by (apply pow2_lt_inv; apply Qle_lt_trans with x; assumption).
  assert (k < ilog2 x + 1)%Z
    by (apply pow2_lt_inv; apply Qle_lt_trans with x; assumption).
  lia.
Qed.

Lemma ilog2_comp (x y : Q) : 0 < x -> x == y -> ilog2 x = ilog2 y.
Proof.
  intros Hx E. destruct (ilog2_spec x Hx) as [L U].
  symmetry. apply ilog2_unique; rewrite <- E; assumption.
Qed.

Lemma ilog2_mono (x y : Q) : 0 < x -> x <= y -> (ilog2 x <= ilog2 y)%Z.
Proof.
  intros Hx Hxy.
  assert (Hy : 0 < y) by (apply Qlt_le_trans with x; assumption).
  destruct (ilog2_spec x Hx) as [L _]. destruct (ilog2_spec y Hy) as [_ U].
  assert (ilog2 x < ilog2 y + 1)%Z; [|lia].
  apply pow2_lt_inv. apply Qle_lt_trans with x; [exact L|].
  apply Qle_lt_trans with y; assumption.
Qed.

Lemma ilog2_double (x : Q) : 0 < x -> ilog2 (2 * x) = (ilog2 x + 1)%Z.
Proof.
  intros Hx. destruct (ilog2_spec x Hx) as [L U].
  apply ilog2_unique; rewrite pow2_succ.
  - apply Qmult_le_l; [reflexivity | exact L].
  - apply Qmult_lt_l; [reflexivity | exact U].
Qed.

End Ilog2.

Section Rne.

Open Scope Q_scope.

Lemma rne_comp (t u : Q) : t == u -> rne t = rne u.
Proof.
  intros E. unfold rne. rewrite (Qfloor_comp t u E).
  assert (C : Qcompare (t - inject_Z (Qfloor u)) (1 # 2)
              = Qcompare (u - inject_Z (Qfloor u)) (1 # 2))
    by (now rewrite E).
  now rewrite C.
Qed.

Lemma rne_Z (n : Z) : rne (inject_Z n) = n.
Proof.
  unfold rne. rewrite Qfloor_Z.
  assert (E : Qcompare (inject_Z n - inject_Z n) (1 # 2) = Lt).
  { apply Qlt_alt. ring_simplify (inject_Z n - inject_Z n). reflexivity. }
  now rewrite E.
Qed.

(** The rounded integer is within one half of its argument. *)
Lemma rne_error (t : Q) :
  t - (1 # 2) <= inject_Z (rne t) /\ inject_Z (rne t) <= t + (1 # 2).
Proof.
  unfold rne. pose proof (Qfloor_le t) as L. pose proof (Qlt_floor t) as U.
  rewrite inject_Z_plus in U. change (inject_Z 1) with 1 in U.
  destruct (Qcompare (t - inject_Z (Qfloor t)) (1 # 2)) eqn:E.
  - apply Qeq_alt in E.
    destruct (Z.even (Qfloor t)); rewrite ?inject_Z_plus;
      change (inject_Z 1) with 1; split; lra.
  - apply Qlt_alt in E. split; lra.
  - apply Qgt_alt in E. rewrite inject_Z_plus. change (inject_Z 1) with 1.
    split; lra.
Qed.

Lemma rne_mono (t u : Q) : t <= u -> (rne t <= rne u)%Z.
Proof.
  intros H. destruct (Qle_lt_or_eq _ _ H) as [Hlt | Heq];
    [|rewrite (rne_comp _ _ Heq); lia].
  destruct (rne_error t) as [_ Ut]. destruct (rne_error u) as [Lu _].
  assert (inject_Z (rne t) < inject_Z (rne u) + 1) by lra.
  rewrite <- (inject_Z_plus _ 1) in H0. rewrite <- Zlt_Qlt in H0. lia.
Qed.

Lemma rne_nonneg (t : Q) : 0 <= t -> (0 <= rne t)%Z.
Proof. intros H. rewrite <- (rne_Z 0). now apply rne_mono. Qed.

End Rne.

Section RoundPos.

Open Scope Q_scope.

Variable fmt : format.
Hypothesis prec_pos : (0 < prec fmt)%Z.

Lemma ulp_exp_comp (x y : Q) : 0 < x -> x == y -> ulp_exp fmt x = ulp_exp fmt y.
Proof. intros Hx E. unfold ulp_exp. now rewrite (ilog2_comp x y Hx E). Qed.

Lemma ulp_exp_mono (x y : Q) :
  0 < x -> x <= y -> (ulp_exp fmt x <= ulp_exp fmt y)%Z.
Proof.
  intros Hx H. unfold ulp_exp. pose proof (ilog2_mono x y Hx H). lia.
Qed.

Lemma round_pos_comp (x y : Q) :
  0 < x -> x == y -> round_pos fmt x == round_pos fmt y.
Proof.
  intros Hx E. unfold round_pos. rewrite (ulp_exp_comp x y Hx E).
  rewrite (rne_comp (x / pow2 (ulp_exp fmt y)) (y / pow2 (ulp_exp fmt y)))
    by (now rewrite E).
  reflexivity.
Qed.

(** The scaled argument lies below [2^prec] ... *)
Lemma scaled_upper (x : Q) :
  0 < x -> x / pow2 (ulp_exp fmt x) < pow2 (prec fmt).
Proof.
  intros Hx. destruct (ilog2_spec x Hx) as [_ U].
  apply Qlt_shift_div_r; [apply pow2_pos|].
  rewrite <- pow2_add.
  apply Qlt_le_trans with (pow2 (ilog2 x + 1)); [exact U|].
  apply pow2_le. unfold ulp_exp. lia.
Qed.

(** ... and, in the normal range, at or above [2^(prec-1)]. *)
Lemma scaled_lower (x : Q) :
  0 < x -> (emin fmt < ulp_exp fmt x)%Z ->
  pow2 (prec fmt - 1) <= x / pow2 (ulp_exp fmt x).
Proof.
  intros Hx Hn. destruct (ilog2_spec x Hx) as [L _].
  apply Qle_shift_div_l; [apply pow2_pos|].
  rewrite <- pow2_add.
  apply Qle_trans with (pow2 (ilog2 x)); [|exact L].
  apply pow2_le. unfold ulp_exp in *. lia.
Qed.

Lemma round_pos_upper (x : Q) :
  0 < x -> round_pos fmt x <= pow2 (prec fmt + ulp_exp fmt x).
Proof.
  intros Hx. unfold round_pos. rewrite pow2_add.
  apply Qmult_le_compat_r; [|apply Qlt_le_weak, pow2_pos].
  rewrite (pow2_Z (prec fmt)) by lia. rewrite <- Zle_Qle.
  rewrite <- (rne_Z (2 ^ prec fmt)). apply rne_mono.
  rewrite <- (pow2_Z (prec fmt)) by lia. apply Qlt_le_weak. now apply scaled_upper.
Qed.

Lemma round_pos_lower (x : Q) :
  0 < x -> (emin fmt < ulp_exp fmt x)%Z ->
  pow2 (prec fmt - 1 + ulp_exp fmt x) <= round_pos fmt x.
Proof.
  intros Hx Hn. unfold round_pos. rewrite pow2_add.
  apply Qmult_le_compat_r; [|apply Qlt_le_weak, pow2_pos].
  rewrite (pow2_Z (prec fmt - 1)) by lia. rewrite <- Zle_Qle.
  rewrite <- (rne_Z (2 ^ (prec fmt - 1))). apply rne_mono.
  rewrite <- (pow2_Z (prec fmt - 1)) by lia. now apply scaled_lower.
Qed.

Lemma round_pos_nonneg (x : Q) : 0 < x -> 0 <= round_pos fmt x.
Proof.
  intros Hx. unfold round_pos.
  apply Qmult_le_0_compat; [|apply Qlt_le_weak, pow2_pos].
  change 0 with (inject_Z 0). rewrite <- Zle_Qle. apply rne_nonneg.
  apply Qle_shift_div_l; [apply pow2_pos|]. ring_simplify. now apply Qlt_le_weak.
Qed.

Lemma round_pos_mono (x y : Q) :
  0 < x -> x <= y -> round_pos fmt x <= round_pos fmt y.
Proof.
  intros Hx H.
  assert (Hy : 0 < y) by (apply Qlt_le_trans with x; assumption).
  pose proof (ulp_exp_mono x y Hx H) as Hu.
  destruct (Z.eq_dec (ulp_exp fmt x) (ulp_exp fmt y)) as [E | N].
  - unfold round_pos. rewrite E.
    apply Qmult_le_compat_r; [|apply Qlt_le_weak, pow2_pos].
    rewrite <- Zle_Qle. apply rne_mono.
    apply Qmult_le_compat_r; [exact H|].
    apply Qlt_le_weak, Qinv_lt_0_compat, pow2_pos.
  - apply Qle_trans with (pow2 (prec fmt + ulp_exp fmt x));
      [now apply round_pos_upper|].
    apply Qle_trans with (pow2 (prec fmt - 1 + ulp_exp fmt y)).
    + apply pow2_le. lia.
    + apply round_pos_lower; [exact Hy|].
      assert (emin fmt <= ulp_exp fmt x)%Z by (unfold ulp_exp; lia). lia.
Qed.

(** A number [m * 2^e] with [m < 2^prec] and [e >= emin] is its own
    rounding. *)
Lemma round_pos_exact (x : Q) (m e : Z) :
  0 < x -> x == inject_Z m * pow2 e ->
  (m < 2 ^ prec fmt)%Z -> (emin fmt <= e)%Z ->
  round_pos fmt x == x.
Proof.
  intros Hx E Hm He.
  assert (Hu : (ulp_exp fmt x <= e)%Z).
  { destruct (ilog2_spec x Hx) as [L _].
    assert (ilog2 x < prec fmt + e)%Z; [|unfold ulp_exp; lia].
    apply pow2_lt_inv. apply Qle_lt_trans with x; [exact L|].
    rewrite E, pow2_add. apply Qmult_lt_compat_r; [apply pow2_pos|].
    rewrite pow2_Z by lia. now rewrite <- Zlt_Qlt. }
  set (u := ulp_exp fmt x) in *.
  assert (S : x / pow2 u == inject_Z (m * 2 ^ (e - u))).
  { rewrite E, inject_Z_mult, <- pow2_Z by lia.
    replace e with (e - u + u)%Z at 1 by ring. rewrite pow2_add.
    field. pose proof (pow2_pos u). lra. }
  unfold round_pos. fold u. rewrite (rne_comp _ _ S), rne_Z.
  rewrite inject_Z_mult, <- pow2_Z by lia. rewrite E.
  replace e with (e - u + u)%Z at 2 by ring. rewrite pow2_add. ring.
Qed.

(** In the normal range, rounding commutes with doubling. *)
Lemma round_pos_double (x : Q) :
  0 < x -> pow2 (emin fmt + prec fmt - 1) <= x ->
  round_pos fmt (2 * x) == 2 * round_pos fmt x.
Proof.
  intros Hx Hn.
  assert (Hl : (emin fmt + prec fmt - 1 <= ilog2 x)%Z).
  { destruct (ilog2_spec x Hx) as [_ U].
    assert (emin fmt + prec fmt - 1 < ilog2 x + 1)%Z; [|lia].
    apply pow2_lt_inv. apply Qle_lt_trans with x; assumption. }
  assert (Eu : ulp_exp fmt (2 * x) = (ulp_exp fmt x + 1)%Z).
  { unfold ulp_exp. rewrite (ilog2_double x Hx). lia. }
  unfold round_pos. rewrite Eu.
  rewrite (rne_comp (2 * x / pow2 (ulp_exp fmt x + 1)) (x / pow2 (ulp_exp fmt x))).
  - rewrite pow2_succ. ring.
  - rewrite pow2_succ. field. pose proof (pow2_pos (ulp_exp fmt x)). lra.
Qed.

End RoundPos.

Section RoundQ.

Open Scope Q_scope.

Variable fmt : format.
Hypothesis prec_pos : (0 < prec fmt)%Z.

Lemma round_q_zero (x : Q) : x == 0 -> round_q fmt x = 0.
Proof. intros E. unfold round_q. now rewrite (proj1 (Qeq_alt x 0) E). Qed.

Lemma round_q_pos (x : Q) : 0 < x -> round_q fmt x = round_pos fmt x.
Proof. intros H. unfold round_q. now rewrite (proj1 (Qgt_alt x 0) H). Qed.

Lemma round_q_neg (x : Q) : x < 0 -> round_q fmt x = - round_pos fmt (- x).
Proof. intros H. unfold round_q. now rewrite (proj1 (Qlt_alt x 0) H). Qed.

(** The three cases of a rational number. *)
Lemma Q_sign_cases (x : Q) : x < 0 \/ x == 0 \/ 0 < x.
Proof.
  destruct (Qlt_le_dec x 0) as [H | H]; [now left | right].
  destruct (Qle_lt_or_eq _ _ H) as [H' | H']; [now right | left].
  now symmetry.
Qed.

Lemma round_q_comp (x y : Q) : x == y -> round_q fmt x == round_q fmt y.
Proof.
  intros E. destruct (Q_sign_cases x) as [H | [H | H]].
  - rewrite (round_q_neg x H), (round_q_neg y) by (now rewrite <- E).
    apply Qopp_comp. apply round_pos_comp; [lra | now rewrite E].
  - rewrite (round_q_zero x H), (round_q_zero y) by (now rewrite <- E).
    reflexivity.
  - rewrite (round_q_pos x H), (round_q_pos y) by (now rewrite <- E).
    now apply round_pos_comp.
Qed.

Lemma round_q_opp (x : Q) : round_q fmt (- x) == - round_q fmt x.
Proof.
  destruct (Q_sign_cases x) as [H | [H | H]].
  - rewrite (round_q_neg x H), (round_q_pos (- x)) by lra. ring.
  - rewrite (round_q_zero x H), (round_q_zero (- x)) by lra. reflexivity.
  - rewrite (round_q_pos x H), (round_q_neg (- x)) by lra.
    apply Qopp_comp. apply round_pos_comp; [lra | ring].
Qed.

Lemma round_q_nonneg (x : Q) : 0 <= x -> 0 <= round_q fmt x.
Proof.
  intros H. destruct (Qle_lt_or_eq _ _ H) as [H' | H'].
  - rewrite (round_q_pos x H'). now apply round_pos_nonneg.
  - rewrite (round_q_zero x) by (now symmetry). lra.
Qed.

Lemma round_q_nonpos (x : Q) : x <= 0 -> round_q fmt x <= 0.
Proof.
  intros H. pose proof (round_q_nonneg (- x)) as P.
  rewrite round_q_opp in P. lra.
Qed.

Lemma round_q_mono (x y : Q) : x <= y -> round_q fmt x <= round_q fmt y.
Proof.
  intros H. destruct (Qlt_le_dec 0 x) as [Hx | Hx].
  - rewrite (round_q_pos x Hx), (round_q_pos y) by lra.
    now apply round_pos_mono.
  - destruct (Qlt_le_dec y 0) as [Hy | Hy].
    + rewrite (round_q_neg x), (round_q_neg y) by lra.
      apply Qopp_le_compat. apply round_pos_mono; (assumption || lra).
    + apply Qle_trans with 0; [now apply round_q_nonpos | now apply round_q_nonneg].
Qed.

(** Exactness on the numbers [m * 2^e] with [|m| < 2^prec], [e >= emin]. *)
Lemma round_q_exact (x : Q) (m e : Z) :
  x == inject_Z m * pow2 e ->
  (Z.abs m < 2 ^ prec fmt)%Z -> (emin fmt <= e)%Z ->
  round_q fmt x == x.
Proof.
  intros E Hm He. pose proof (pow2_pos e) as Pe.
  destruct (Q_sign_cases x) as [H | [H | H]].
  - rewrite (round_q_neg x H).
    rewrite (round_pos_exact fmt prec_pos (- x) (- m) e); [ring | lra | | lia | lia].
    rewrite E, inject_Z_opp. ring.
  - rewrite (round_q_zero x H). now symmetry.
  - rewrite (round_q_pos x H).
    apply (round_pos_exact fmt prec_pos x m e); [exact H | exact E | lia | lia].
Qed.

(** Every rounded value is one of those numbers. *)
Lemma round_pos_dyadic (x : Q) :
  0 < x ->
  exists m e, round_pos fmt x == inject_Z m * pow2 e /\
    (0 <= m < 2 ^ prec fmt)%Z /\ (emin fmt <= e)%Z.
Proof.
  intros Hx. set (u := ulp_exp fmt x). set (r := rne (x / pow2 u)).
  assert (Hu : (emin fmt <= u)%Z) by (unfold u, ulp_exp; lia).
  assert (Hr0 : (0 <= r)%Z).
  { apply rne_nonneg. apply Qle_shift_div_l; [apply pow2_pos|]. lra. }
  assert (Hr : (r <= 2 ^ prec fmt)%Z).
  { rewrite <- (rne_Z (2 ^ prec fmt)). apply rne_mono.
    rewrite <- (pow2_Z (prec fmt)) by lia. apply Qlt_le_weak.
    now apply scaled_upper. }
  destruct (Z.eq_dec r (2 ^ prec fmt)) as [E | N].
  - exists (2 ^ (prec fmt - 1))%Z, (u + 1)%Z. split; [|split].
    + unfold round_pos. fold u. fold r. rewrite E.
      rewrite <- !pow2_Z by lia. rewrite <- !pow2_add.
      now replace (prec fmt - 1 + (u + 1))%Z with (prec fmt + u)%Z by ring.
    + split; [apply Z.pow_nonneg; lia|].
      apply Z.pow_lt_mono_r; lia.
    + lia.
  - exists r, u. split; [reflexivity|]. split; lia.
Qed.

Lemma round_q_dyadic (x : Q) :
  exists m e, round_q fmt x == inject_Z m * pow2 e /\
    (Z.abs m < 2 ^ prec fmt)%Z /\ (emin fmt <= e)%Z.
Proof.
  destruct (Q_sign_cases x) as [H | [H | H]].
  - destruct (round_pos_dyadic (- x)) as (m & e & E & Hm & He); [lra|].
    exists (- m)%Z, e. rewrite (round_q_neg x H), E, inject_Z_opp.
    split; [ring|]. split; lia.
  - exists 0%Z, (emin fmt). rewrite (round_q_zero x H).
    split; [ring|]. split; [|lia]. simpl. apply Z.pow_pos_nonneg; lia.
  - destruct (round_pos_dyadic x H) as (m & e & E & Hm & He).
    exists m, e. rewrite (round_q_pos x H). split; [exact E|]. split; lia.
Qed.

Lemma round_q_idem (x : Q) : round_q fmt (round_q fmt x) == round_q fmt x.
Proof.
  destruct (round_q_dyadic x) as (m & e & E & Hm & He).
  now apply (round_q_exact _ m e).
Qed.

(** Powers of two from [2^emin] on are values of the format. *)
Lemma round_q_pow2 (k : Z) : (emin fmt <= k)%Z -> round_q fmt (pow2 k) == pow2 k.
Proof.
  intros H. apply (round_q_exact _ 1 k); [ring | | exact H].
  simpl. apply Z.pow_gt_1; lia.
Qed.

(** In the normal range, rounding commutes with doubling. *)
Lemma round_q_double (x : Q) :
  x == 0 \/ pow2 (emin fmt + prec fmt - 1) <= Qabs x ->
  round_q fmt (2 * x) == 2 * round_q fmt x.
Proof.
  intros [H | H].
  - rewrite (round_q_zero x H), (round_q_zero (2 * x)) by lra. reflexivity.
  - pose proof (pow2_pos (emin fmt + prec fmt - 1)) as P.
    destruct (Q_sign_cases x) as [Hx | [Hx | Hx]].
    + rewrite Qabs_neg in H by lra.
      rewrite (round_q_neg x Hx), (round_q_neg (2 * x)) by lra.
      rewrite (round_pos_comp fmt (- (2 * x)) (2 * - x)) by lra.
      rewrite round_pos_double by (assumption || lra). ring.
    + rewrite Hx in H. change (Qabs 0) with 0 in H. lra.
    + rewrite Qabs_pos in H by lra.
      rewrite (round_q_pos x Hx), (round_q_pos (2 * x)) by lra.
      now apply round_pos_double.
Qed.

End RoundQ.

Section RoundFloat.

Open Scope Q_scope.

Variable fmt : format.
Hypothesis prec_pos : (0 < prec fmt)%Z.

Lemma overflows_comp (r s : Q) : r == s -> overflows fmt r = overflows fmt s.
Proof.
  intros E. unfold overflows.
  destruct (Qle_bool (pow2 (emax fmt)) (Qabs s)) eqn:B.
  - apply Qle_bool_iff. apply Qle_bool_iff in B. now rewrite E.
  - apply not_true_iff_false. intros A. apply Qle_bool_iff in A.
    rewrite E in A. apply Qle_bool_iff in A. congruence.
Qed.

Lemma Qle_bool_comp (a b c d : Q) : a == c -> b == d -> Qle_bool a b = Qle_bool c d.
Proof.
  intros E F. destruct (Qle_bool c d) eqn:B.
  - apply Qle_bool_iff. apply Qle_bool_iff in B. now rewrite E, F.
  - apply not_true_iff_false. intros A. apply Qle_bool_iff in A.
    rewrite E, F in A. apply Qle_bool_iff in A. congruence.
Qed.

(** [round] as a case distinction on the rounded rational. *)
Lemma round_cases (x : Qc) :
  let r := round_q fmt x in
  (pow2 (emax fmt) <= r /\ round fmt x = PInf) \/
  (r <= - pow2 (emax fmt) /\ round fmt x = NInf) \/
  (- pow2 (emax fmt) < r /\ r < pow2 (emax fmt) /\ round fmt x = Fin (Q2Qc r)).
Proof.
  cbv zeta. unfold round, overflows. pose proof (pow2_pos (emax fmt)) as P.
  set (r := round_q fmt x).
  destruct (Qle_bool (pow2 (emax fmt)) (Qabs r)) eqn:B.
  - apply Qle_bool_iff in B.
    destruct (Qle_bool 0 r) eqn:S.
    + apply Qle_bool_iff in S. rewrite Qabs_pos in B by exact S. now left.
    + right; left. split; [|reflexivity].
      assert (r < 0).
      { apply Qnot_le_lt. intros H. apply Qle_bool_iff in H. congruence. }
      rewrite Qabs_neg in B by lra. lra.
  - right; right.
    assert (A : Qabs r < pow2 (emax fmt)).
    { apply Qnot_le_lt. intros H. apply Qle_bool_iff in H. congruence. }
    apply Qabs_Qlt_condition in A. destruct A. repeat split; assumption.
Qed.

Lemma round_mono (a b : Qc) : (a <= b)%Qc -> fleb (round fmt a) (round fmt b) = true.
Proof.
  intros H. pose proof (round_q_mono fmt prec_pos a b H) as M.
  pose proof (pow2_pos (emax fmt)) as P.
  destruct (round_cases a) as [[A ->] | [[A ->] | (A & A' & ->)]];
  destruct (round_cases b) as [[B ->] | [[B ->] | (B & B' & ->)]];
    try reflexivity; try lra.
  simpl. apply Qcleb_le. unfold Qcle. cbn [this Q2Qc].
  now rewrite !Qred_correct.
Qed.

Lemma round_exact (q : Qc) (m e : Z) :
  q == inject_Z m * pow2 e ->
  (Z.abs m < 2 ^ prec fmt)%Z -> (emin fmt <= e)%Z ->
  Qabs q < pow2 (emax fmt) ->
  round fmt q = Fin q.
Proof.
  intros E Hm He Hq.
  pose proof (round_q_exact fmt prec_pos q m e E Hm He) as R.
  apply Qabs_Qlt_condition in Hq.
  destruct (round_cases q) as [[A _] | [[A _] | (_ & _ & ->)]]; try lra.
  f_equal. apply Qc_is_canon. cbn [this Q2Qc]. now rewrite Qred_correct.
Qed.

Lemma in_format_round (q : Qc) : in_format fmt (Fin q) = true -> round fmt q = Fin q.
Proof.
  unfold in_format. destruct (round fmt q) as [r| | |]; try discriminate.
  intros H. apply Qceqb_eq in H. now subst.
Qed.

Lemma round_in_format (q : Qc) : in_format fmt (round fmt q) = true.
Proof.
  destruct (round_cases q) as [[_ ->] | [[_ ->] | (A & A' & ->)]];
    try reflexivity.
  unfold in_format.
  destruct (round_q_dyadic fmt prec_pos q) as (m & e & E & Hm & He).
  rewrite (round_exact (Q2Qc (round_q fmt q)) m e); [apply Qceqb_eq; reflexivity | | exact Hm | exact He |].
  - cbn [this Q2Qc]. now rewrite Qred_correct.
  - cbn [this Q2Qc]. rewrite Qred_correct. now apply Qabs_Qlt_condition.
Qed.

(** A value of the format is a number [m * 2^e] with [|m| < 2^prec]. *)
Lemma in_format_dyadic (q : Qc) :
  in_format fmt (Fin q) = true ->
  exists m e, q == inject_Z m * pow2 e /\
    (Z.abs m < 2 ^ prec fmt)%Z /\ (emin fmt <= e)%Z /\
    Qabs q < pow2 (emax fmt).
Proof.
  intros H. apply in_format_round in H.
  destruct (round_q_dyadic fmt prec_pos q) as (m & e & E & Hm & He).
  destruct (round_cases q) as [[_ R] | [[_ R] | (A & A' & R)]];
    rewrite R in H; try discriminate.
  injection H as H.
  assert (Q : round_q fmt q == q).
  { rewrite <- H at 2. cbn [this Q2Qc]. now rewrite Qred_correct. }
  exists m, e. rewrite <- Q at 1. split; [exact E|]. split; [exact Hm|].
  split; [exact He|]. rewrite <- Q. now apply Qabs_Qlt_condition.
Qed.

End RoundFloat.


(* ------------------------------------------------------------------ *)
(** ** Lists built over [seq], and counts as rationals *)

Section Counts.

Open Scope Qc_scope.

Lemma nth_error_map_seq {A : Type} (f : nat -> A) (n i : nat) :
  nth_error (map f (seq 0 n)) i = if (i <? n)%nat then Some (f i) else None.
Proof.
  rewrite nth_error_map, nth_error_seq. now destruct (i <? n)%nat.
Qed.

Lemma of_nat_S (i : nat) : of_nat (S i) = of_nat i + 1.
Proof.
  qc2q. rewrite Nat2Z.inj_succ. unfold Z.succ. rewrite inject_Z_plus.
  change (inject_Z 1) with 1%Q. ring.
Qed.

End Counts.


(* ------------------------------------------------------------------ *)
(** ** Numbers that the formats hold exactly *)

Section Scaled.

Open Scope Q_scope.

Lemma Qc_plus_Q (a b : Qc) : (a + b)%Qc == a + b.
Proof. unfold Qcplus. cbn [this Q2Qc]. apply Qred_correct. Qed.

Lemma Qc_opp_Q (a : Qc) : (- a)%Qc == - a.
Proof. unfold Qcopp. cbn [this Q2Qc]. apply Qred_correct. Qed.

Lemma Qc_mult_Q (a b : Qc) : (a * b)%Qc == a * b.
Proof. unfold Qcmult. cbn [this Q2Qc]. apply Qred_correct. Qed.

Lemma Qc_of_Z_Q (n : Z) : of_Z n == inject_Z n.
Proof. unfold of_Z. cbn [this Q2Qc]. apply Qred_correct. Qed.

Lemma pow2_cancel (t : Z) : pow2 t * pow2 (- t) == 1.
Proof. rewrite <- pow2_add. now replace (t + - t)%Z with 0%Z by ring. Qed.

Lemma scaled_add (t : Z) (a b : Qc) (i j : Z) :
  scaled t a i -> scaled t b j -> scaled t (a + b)%Qc (i + j).
Proof.
  unfold scaled. intros Ha Hb. rewrite Qc_plus_Q, inject_Z_plus, <- Ha, <- Hb. ring.
Qed.

Lemma scaled_opp (t : Z) (a : Qc) (i : Z) : scaled t a i -> scaled t (- a)%Qc (- i).
Proof.
  unfold scaled. intros Ha. rewrite Qc_opp_Q, inject_Z_opp, <- Ha. ring.
Qed.

Lemma scaled_of_Z (t n : Z) : (0 <= t)%Z -> scaled t (of_Z n) (n * 2 ^ t).
Proof.
  intros Ht. unfold scaled. rewrite Qc_of_Z_Q, inject_Z_mult, <- pow2_Z by exact Ht.
  reflexivity.
Qed.

Lemma scaled_half (t : Z) : (1 <= t)%Z -> scaled t half (2 ^ (t - 1)).
Proof.
  intros Ht. unfold scaled. rewrite <- pow2_Z by lia.
  replace t with (t - 1 + 1)%Z at 1 by ring. rewrite pow2_succ.
  unfold half. cbn [this Q2Qc]. rewrite Qred_correct. field.
Qed.

Lemma scaled_unique (t : Z) (a b : Qc) (i : Z) :
  scaled t a i -> scaled t b i -> a = b.
Proof.
  unfold scaled. intros Ha Hb. apply Qc_is_canon.
  pose proof (pow2_pos t) as P.
  apply (Qmult_inj_r _ _ (pow2 t)); [lra|]. now rewrite Ha, Hb.
Qed.

Variable fmt : format.
Hypothesis prec_pos : (0 < prec fmt)%Z.
Hypothesis prec_emax : (prec fmt <= emax fmt)%Z.

(** A multiple of [2^-t] with fewer than [prec] bits is a value of the
    format. *)
Lemma scaled_round (t : Z) (q : Qc) (k : Z) :
  scaled t q k -> (Z.abs k < 2 ^ prec fmt)%Z ->
  (0 <= t)%Z -> (emin fmt <= - t)%Z ->
  round fmt q = Fin q.
Proof.
  unfold scaled. intros E Hk Ht Hm.
  assert (Q : q == inject_Z k * pow2 (- t)).
  { rewrite <- E, <- Qmult_assoc, pow2_cancel. ring. }
  apply (round_exact fmt prec_pos q k (- t) Q Hk Hm).
  apply Qlt_le_trans with (pow2 (prec fmt)); [|now apply pow2_le].
  rewrite Q, Qabs_Qmult.
  assert (A : Qabs (inject_Z k) == inject_Z (Z.abs k)) by reflexivity.
  rewrite A, (Qabs_pos (pow2 (- t))) by (apply Qlt_le_weak, pow2_pos).
  assert (K0 : 0 <= inject_Z (Z.abs k)).
  { change 0 with (inject_Z 0). rewrite <- Zle_Qle. lia. }
  assert (K1 : inject_Z (Z.abs k) < pow2 (prec fmt)).
  { rewrite (pow2_Z (prec fmt)) by lia. now rewrite <- Zlt_Qlt. }
  assert (P1 : pow2 (- t) <= 1) by (apply (pow2_le (- t) 0); lia).
  pose proof (pow2_pos (- t)) as P0.
  nra.
Qed.

End Scaled.

(** ** The footprint axes in binary64 (lines 219-221) *)

Section Binary64.

Lemma f64_prec_pos : (0 < prec Machine.f64)%Z.
Proof. reflexivity. Qed.

Lemma f32_prec_pos : (0 < prec Machine.f32)%Z.
Proof. reflexivity. Qed.

(** Multiples of [2^-t] that need fewer than 53 bits. *)
Lemma round64_scaled (t : Z) (q : Qc) (k : Z) :
  scaled t q k -> (Z.abs k < 2 ^ 53)%Z -> (0 <= t <= 1074)%Z ->
  round Machine.f64 q = Fin q.
Proof.
  intros E Hk Ht.
  apply (scaled_round Machine.f64 f64_prec_pos ltac:(discriminate) t q k E Hk);
    simpl; lia.
Qed.

End Binary64.

Section FootprintAxis64.

Variables (t m dim : Z) (o : Qc).

Hypothesis Ht : (1 <= t)%Z.
Hypothesis Ho : scaled t o m.
Hypothesis Hdim : (0 <= dim)%Z.
Hypothesis Hb : (Z.abs m + (dim + 1) * 2 ^ t < 2 ^ 53)%Z.

Lemma grid_exponent : (0 <= t <= 1074)%Z.
Proof.
  assert (P : (0 < 2 ^ t)%Z) by (apply Z.pow_pos_nonneg; lia).
  assert (2 ^ t < 2 ^ 53)%Z by nia.
  apply Z.pow_lt_mono_r_iff in H; lia.
Qed.

(** The numbers [o + a/2 + j] with [a] in {0, 1} and [0 <= j <= dim]. *)
Lemma grid_point (a j : Z) :
  (0 <= a <= 1)%Z -> (0 <= j <= dim)%Z ->
  forall q, scaled t q (m + a * 2 ^ (t - 1) + j * 2 ^ t) ->
  round Machine.f64 q = Fin q.
Proof.
  intros Ha Hj q Hq. pose proof grid_exponent as T.
  apply (round64_scaled t q _ Hq); [|exact T].
  assert (P : (0 < 2 ^ (t - 1))%Z) by (apply Z.pow_pos_nonneg; lia).
  assert (D : (2 ^ t = 2 * 2 ^ (t - 1))%Z).
  { replace t with (Z.succ (t - 1)) at 1 by lia. apply Z.pow_succ_r. lia. }
  nia.
Qed.

Lemma grid_int (j : Z) :
  (0 <= j <= dim)%Z -> round Machine.f64 (of_Z j) = Fin (of_Z j).
Proof.
  intros Hj. pose proof grid_exponent as T.
  apply (round64_scaled t _ (j * 2 ^ t)); [apply scaled_of_Z; lia | | exact T].
  assert (P : (0 < 2 ^ t)%Z) by (apply Z.pow_pos_nonneg; lia).
  nia.
Qed.

Lemma scaled_point (a j : Z) :
  (0 <= a <= 1)%Z ->
  scaled t (o + of_Z a * half + of_Z j)%Qc (m + a * 2 ^ (t - 1) + j * 2 ^ t).
Proof.
  intros Ha. apply scaled_add; [apply scaled_add; [exact Ho|]|apply scaled_of_Z; lia].
  assert (a = 0 \/ a = 1)%Z as [-> | ->] by lia.
  - replace (of_Z 0 * half)%Qc with (of_Z 0) by (apply Qc_is_canon; reflexivity).
    replace (0 * 2 ^ (t - 1))%Z with (0 * 2 ^ t)%Z by ring.
    apply scaled_of_Z. lia.
  - replace (of_Z 1 * half)%Qc with half by (apply Qc_is_canon; reflexivity).
    rewrite Z.mul_1_l. now apply scaled_half.
Qed.

Lemma round_point (a j : Z) (q : Qc) :
  (0 <= a <= 1)%Z -> (0 <= j <= dim)%Z ->
  q = (o + of_Z a * half + of_Z j)%Qc ->
  round Machine.f64 q = Fin q.
Proof.
  intros Ha Hj ->. apply (grid_point a j Ha Hj). now apply scaled_point.
Qed.


Lemma of_Z_0 : of_Z 0 = Q2Qc 0.
Proof. apply Qc_is_canon. reflexivity. Qed.

Lemma of_Z_1 : of_Z 1 = Q2Qc 1.
Proof. apply Qc_is_canon. reflexivity. Qed.

Lemma add64_o_half_j (j : Z) (x y : Qc) :
  (0 <= j <= dim)%Z -> (x + y = o + half + of_Z j)%Qc ->
  Fp.add Machine.f64 (Fin x) (Fin y) = Fin (o + half + of_Z j)%Qc.
Proof.
  intros Hj E. unfold Fp.add. cbn [fadd Fp.rnd]. rewrite E.
  apply (round_point 1 j); [lia | exact Hj |]. rewrite of_Z_1. ring.
Qed.

Lemma add64_o_j (j : Z) (x y : Qc) :
  (0 <= j <= dim)%Z -> (x + y = o + of_Z j)%Qc ->
  Fp.add Machine.f64 (Fin x) (Fin y) = Fin (o + of_Z j)%Qc.
Proof.
  intros Hj E. unfold Fp.add. cbn [fadd Fp.rnd]. rewrite E.
  apply (round_point 0 j); [lia | exact Hj |]. rewrite of_Z_0. ring.
Qed.

Lemma sub64_int (j : Z) (x y : Qc) :
  (0 <= j <= dim)%Z -> (x + - y = of_Z j)%Qc ->
  Fp.sub Machine.f64 (Fin x) (Fin y) = Fin (of_Z j).
Proof.
  intros Hj E. unfold Fp.sub, fsub. cbn [fadd fneg Fp.rnd]. rewrite E.
  now apply grid_int.
Qed.

Lemma div64_one (j : Z) :
  (0 <= j <= dim)%Z ->
  Fp.div Machine.f64 (Fin (of_Z j)) Machine.c_one = Fin (of_Z j).
Proof.
  intros Hj. unfold Fp.div, Machine.c_one. cbn [fdiv].
  change (Qceqb (Q2Qc 1) 0) with false. cbv iota. cbn [Fp.rnd].
  replace (of_Z j / Q2Qc 1)%Qc with (of_Z j) by (field; discriminate).
  now apply grid_int.
Qed.

Lemma mul64_one (j : Z) :
  (0 <= j <= dim)%Z ->
  Fp.mul Machine.f64 (Fin (of_Z j)) Machine.c_one = Fin (of_Z j).
Proof.
  intros Hj. unfold Fp.mul, Machine.c_one. cbn [fmul Fp.rnd].
  replace (of_Z j * Q2Qc 1)%Qc with (of_Z j) by ring.
  now apply grid_int.
Qed.

Lemma footprint_axis_grid :
  Machine.footprint_axis (Fin o) dim =
  Ok (map (fun i => Fin (o + half + of_nat i)%Qc) (seq 0 (Z.to_nat dim))).
Proof.
  unfold Machine.footprint_axis, Machine.float_of_int.
  rewrite (grid_int dim) by lia. cbn [Py.bind]. unfold Machine.c_half.
  rewrite (add64_o_half_j 0 o half) by (lia || (rewrite of_Z_0; ring)).
  rewrite (add64_o_j dim o (of_Z dim)) by (lia || ring).
  rewrite (add64_o_half_j dim (o + of_Z dim) half) by (lia || ring).
  unfold Machine.arange.
  rewrite (sub64_int dim) by (lia || (rewrite of_Z_0; ring)).
  rewrite (div64_one dim) by lia.
  assert (C : Qceiling (of_Z dim) = dim).
  { rewrite (Qceiling_comp _ _ (Qc_of_Z_Q dim)). apply Qceiling_Z. }
  rewrite C.
  assert (B : (dim < 2 ^ 53)%Z).
  { assert (P : (0 < 2 ^ t)%Z) by (apply Z.pow_pos_nonneg; lia). nia. }
  replace ((dim <? - 2 ^ 63)%Z || (2 ^ 63 - 1 <? dim)%Z) with false
    by (symmetry; apply orb_false_iff; split; apply Z.ltb_ge; lia).
  f_equal. apply map_ext_in. intros i Hi. apply in_seq in Hi.
  assert (Hi' : (0 <= Z.of_nat i <= dim)%Z) by lia.
  assert (D1 : (1 <= dim)%Z) by lia.
  assert (N : Fp.add Machine.f64 (Fin (o + half + of_Z 0)%Qc) Machine.c_one
              = Fin (o + half + of_Z 1)%Qc).
  { apply add64_o_half_j; [lia|]. rewrite of_Z_0, of_Z_1. ring. }
  rewrite N.
  assert (D : Fp.sub Machine.f64 (Fin (o + half + of_Z 1)%Qc)
                (Fin (o + half + of_Z 0)%Qc) = Machine.c_one).
  { unfold Machine.c_one. rewrite <- of_Z_1. apply sub64_int; [lia|].
    rewrite of_Z_0, of_Z_1. ring. }
  rewrite D.
  destruct i as [|[|i]].
  - reflexivity.
  - reflexivity.
  - unfold of_nat. rewrite (grid_int _ Hi'), (mul64_one _ Hi').
    apply add64_o_half_j; [exact Hi'|]. rewrite of_Z_0. ring.
Qed.

End FootprintAxis64.

(** ** Bounds and order under rounding *)

Section RoundOrder.

Open Scope Q_scope.

Variable fmt : format.
Hypothesis prec_pos : (0 < prec fmt)%Z.

Lemma round_zero : round fmt (Q2Qc 0) = zero.
Proof.
  destruct (round_cases fmt (Q2Qc 0)) as [[A _] | [[A _] | (_ & _ & ->)]].
  - rewrite (round_q_zero fmt (Q2Qc 0)) in A by reflexivity.
    pose proof (pow2_pos (emax fmt)). lra.
  - rewrite (round_q_zero fmt (Q2Qc 0)) in A by reflexivity.
    pose proof (pow2_pos (emax fmt)). lra.
  - rewrite (round_q_zero fmt (Q2Qc 0)) by reflexivity. reflexivity.
Qed.

Lemma round_nonneg (a : Qc) : 0 <= a -> fleb zero (round fmt a) = true.
Proof.
  intros H. rewrite <- round_zero. apply round_mono; [exact prec_pos|].
  exact H.
Qed.

(** Rounding keeps a number within a power of two of the format. *)
Lemma round_within (k : Z) (a : Qc) :
  (emin fmt <= k < emax fmt)%Z -> Qabs a <= pow2 k -> within k (round fmt a).
Proof.
  intros Hk Ha. apply Qabs_Qle_condition in Ha. destruct Ha as [L U].
  pose proof (round_q_mono fmt prec_pos _ _ L) as L'.
  pose proof (round_q_mono fmt prec_pos _ _ U) as U'.
  rewrite round_q_opp, round_q_pow2 in L' by (assumption || lia).
  rewrite round_q_pow2 in U' by (assumption || lia).
  assert (P : pow2 k < pow2 (emax fmt)) by (apply pow2_lt; lia).
  destruct (round_cases fmt a) as [[A _] | [[A _] | (_ & _ & ->)]]; try lra.
  eexists. split; [reflexivity|].
  cbn [this Q2Qc]. rewrite Qred_correct. apply Qabs_Qle_condition. now split.
Qed.

End RoundOrder.

Section Offsets.

Open Scope Q_scope.

Lemma fleb_fin (a b : Qc) : fleb (Fin a) (Fin b) = true <-> a <= b.
Proof. simpl. rewrite Qcleb_le. reflexivity. Qed.

Lemma within_weaken (k k' : Z) (x : float) :
  (k <= k')%Z -> within k x -> within k' x.
Proof.
  intros H (q & -> & Hq). exists q. split; [reflexivity|].
  apply Qle_trans with (pow2 k); [exact Hq | now apply pow2_le].
Qed.

(** Subtracting a bounded number keeps the order and doubles the bound. *)
Lemma sub64_within (k : Z) (x : float) (c : Qc) :
  (-1074 <= k)%Z -> (k + 1 < 1024)%Z ->
  within k x -> Qabs c <= pow2 k ->
  within (k + 1) (Fp.sub Machine.f64 x (Fin c)).
Proof.
  intros Hk Hk' (q & -> & Hq) Hc. unfold Fp.sub, fsub. cbn [fneg fadd Fp.rnd].
  apply round_within; [reflexivity | simpl; lia |].
  rewrite Qc_plus_Q, Qc_opp_Q, pow2_succ.
  apply Qabs_Qle_condition in Hq, Hc. apply Qabs_Qle_condition. lra.
Qed.

Lemma sub64_mono (x y : float) (c : Qc) (k : Z) :
  within k x -> within k y -> fleb x y = true ->
  fleb (Fp.sub Machine.f64 x (Fin c)) (Fp.sub Machine.f64 y (Fin c)) = true.
Proof.
  intros (a & -> & _) (b & -> & _) H. apply fleb_fin in H.
  unfold Fp.sub, fsub. cbn [fneg fadd Fp.rnd].
  apply round_mono; [reflexivity|].
  unfold Qcle in *. rewrite !Qc_plus_Q. lra.
Qed.

(** Multiplying by a bounded number that is not negative keeps the
    order. *)
Lemma mul64_within (k j : Z) (x : float) (s : Qc) :
  (-1074 <= k + j)%Z -> (k + j < 1024)%Z ->
  within k x -> Qabs s <= pow2 j ->
  within (k + j) (Fp.mul Machine.f64 x (Fin s)).
Proof.
  intros Hk Hk' (q & -> & Hq) Hs. unfold Fp.mul. cbn [fmul Fp.rnd].
  apply round_within; [reflexivity | simpl; lia |].
  rewrite Qc_mult_Q, Qabs_Qmult, pow2_add.
  apply Qmult_le_compat_nonneg; split; (apply Qabs_nonneg || assumption).
Qed.

Lemma mul64_mono (x y : float) (s : Qc) (k : Z) :
  0 <= s ->
  within k x -> within k y -> fleb x y = true ->
  fleb (Fp.mul Machine.f64 x (Fin s)) (Fp.mul Machine.f64 y (Fin s)) = true.
Proof.
  intros Hs (a & -> & _) (b & -> & _) H. apply fleb_fin in H.
  unfold Fp.mul. cbn [fmul Fp.rnd].
  apply round_mono; [reflexivity|].
  unfold Qcle in *. rewrite !Qc_mult_Q. now apply Qmult_le_compat_r.
Qed.

Lemma map_ascending (P : float -> Prop) (f : float -> float) (l : list float) :
  (forall x y, P x -> P y -> fleb x y = true -> fleb (f x) (f y) = true) ->
  Forall P l -> ascending l -> ascending (map f l).
Proof.
  intros Hf HP Hl. induction Hl as [|x|x y l Hxy Hl IH]; simpl; try constructor.
  - inversion HP as [|? ? Px HP']; subst. inversion HP'; subst. now apply Hf.
  - apply IH. now inversion HP.
Qed.

(** [np.all(np.diff(a) >= 0)] holds of an ascending array of finite
    numbers. *)
Lemma ascending_nondecreasing (k : Z) (l : list float) :
  Forall (within k) l -> ascending l -> Machine.nondecreasing l = true.
Proof.
  intros HP Hl. unfold Machine.nondecreasing.
  induction Hl as [|x|x y l Hxy Hl IH]; try reflexivity.
  inversion HP as [|? ? Px HP']; subst.
  change (fleb zero (Fp.sub Machine.f64 y x)
          && forallb (fun d => fleb zero d) (Machine.diff (y :: l)) = true).
  rewrite (IH HP'), andb_true_r.
  inversion HP' as [|? ? Py _]; subst.
  destruct Px as (a & -> & _). destruct Py as (b & -> & _).
  apply fleb_fin in Hxy. unfold Fp.sub, fsub. cbn [fneg fadd Fp.rnd].
  apply round_nonneg; [reflexivity|].
  unfold Qcle in Hxy. rewrite Qc_plus_Q, Qc_opp_Q. lra.
Qed.

End Offsets.

(** ** The steps of the methods in machine arithmetic *)

Section MachineInversion.

Context (lm : Machine.Libm) (nm : Machine.Numerics) (fp : Scipy.Fitpack)
        (host : Prf.Host).

(** A successful [_prepare_prf] went through every step of the method. *)
Lemma machine_prepare_prf_inv dir channel shape column row cc rc itp :
  Machine._prepare_prf lm nm fp host dir channel shape column row
    = Ok (cc, rc, itp) ->
  exists mo prffile read samples first PRFcol PRFrow prf,
    Prf.channel_to_module_output host channel = Ok mo /\
    getitem (Prf.glob host (Prf.prf_file_path dir (fst mo) (snd mo))) 0
      = Ok prffile /\
    Machine.read_prf_images host prffile (seq 0 Prf.n_hdu) = Ok read /\
    Prf.np_array read = Ok samples /\
    getitem samples 0 = Ok first /\
    Machine.prf_axis (snd (Np.shape (Prf.prfn first))) (Prf.cdelt1p first)
      = Ok PRFcol /\
    Machine.prf_axis (fst (Np.shape (Prf.prfn first))) (Prf.cdelt2p first)
      = Ok PRFrow /\
    Machine.fused_grid lm nm shape column row samples = Ok prf /\
    Machine.footprint_axis column (snd shape) = Ok cc /\
    Machine.footprint_axis row (fst shape) = Ok rc /\
    Machine.make fp PRFcol PRFrow prf = Ok itp.
Proof.
  unfold Machine._prepare_prf. intros H.
  repeat match type of H with
         | Py.bind _ _ = Ok _ =>
             let x := fresh "x" in
             let E := fresh "E" in
             apply bind_ok_inv in H; destruct H as (x & E & H)
         end.
  injection H as <- <- <-.
  do 8 eexists. repeat (split; [eassumption|]). eassumption.
Qed.

Lemma machine_init_inv channel shape column row dir self :
  Machine.__init__ lm nm fp host channel shape column row dir = Ok self ->
  exists cc rc itp,
    Machine._prepare_prf lm nm fp host dir channel shape column row
      = Ok (cc, rc, itp) /\
    self = Prf.mkKeplerPRF dir channel shape column row cc rc itp None.
Proof.
  unfold Machine.__init__. intros H.
  apply bind_ok_inv in H. destruct H as ([[cc rc] itp] & E & H).
  injection H as <-. eauto.
Qed.

(** The axes of a model are those of lines 220-221. *)
Lemma machine_init_axes channel shape column row dir self :
  Machine.__init__ lm nm fp host channel shape column row dir = Ok self ->
  Machine.footprint_axis column (snd shape) = Ok (Prf.col_coord self) /\
  Machine.footprint_axis row (fst shape) = Ok (Prf.row_coord self) /\
  Prf.shape self = shape.
Proof.
  intros H. apply machine_init_inv in H. destruct H as (cc & rc & itp & Hp & ->).
  apply machine_prepare_prf_inv in Hp.
  destruct Hp as (? & ? & ? & ? & ? & ? & ? & ? & _ & _ & _ & _ & _ & _ & _ & _
                  & Ec & Er & _).
  simpl. auto.
Qed.

(** The method, step by step. *)
Lemma machine_prf_to_detector_steps flux cc cr sc sr rot self :
  Machine.prf_to_detector lm fp flux cc cr sc sr rot self =
  match Machine.math_cos lm rot with
  | Raise e => (Raise e, self)
  | Ok _ =>
  match Machine.math_sin lm rot with
  | Raise e => (Raise e, self)
  | Ok _ =>
  match getitem (Machine.sub_scalar Machine.f64 (Prf.row_coord self) cr) 0 with
  | Raise e => (Raise e, self)
  | Ok _ =>
  match getitem (Machine.sub_scalar Machine.f64 (Prf.col_coord self) cc) 0 with
  | Raise e => (Raise e, self)
  | Ok _ =>
  match Machine.call fp (Prf.interpolate self)
          (Machine.mul_scalar Machine.f64
             (Machine.sub_scalar Machine.f64 (Prf.row_coord self) cr) sr)
          (Machine.mul_scalar Machine.f64
             (Machine.sub_scalar Machine.f64 (Prf.col_coord self) cc) sc) with
  | Raise e => (Raise e, self)
  | Ok z => (Ok (Machine.rmul_scalar2 Machine.f64 flux z),
             Prf.set_prf_model self (Machine.rmul_scalar2 Machine.f64 flux z))
  end end end end end.
Proof.
  unfold Machine.prf_to_detector, Py.mbind, Py.lift, Py.get, Py.modify, Py.ret.
  destruct (Machine.math_cos lm rot); trivial;
  destruct (Machine.math_sin lm rot); trivial;
  destruct (getitem (Machine.sub_scalar _ (Prf.row_coord self) cr) 0); trivial;
  destruct (getitem (Machine.sub_scalar _ (Prf.col_coord self) cc) 0); trivial;
  destruct (Machine.call fp (Prf.interpolate self) _ _); trivial.
Qed.

End MachineInversion.

Section MachineShape.

Open Scope Q_scope.

Lemma machine_call_shape (fp : Scipy.Fitpack) (s : Scipy.RectBivariateSpline)
  (x y : Np.array1) (n m : nat) :
  length x = S n -> length y = S m ->
  Machine.nondecreasing x = true -> Machine.nondecreasing y = true ->
  exists z, Machine.call fp s x y = Ok z /\
    length z = S n /\ forallb (fun r => (length r =? S m)%nat) z = true.
Proof.
  intros Hx Hy Nx Ny. unfold Machine.call, Np.size.
  rewrite Hx, Hy, Nx, Ny. simpl. rewrite !andb_false_r.
  eexists. split; [reflexivity|]. rewrite length_map. split; [exact Hx|].
  rewrite forallb_forall. intros r Hr. apply in_map_iff in Hr.
  destruct Hr as (xi & <- & _). rewrite length_map, Hy. apply Nat.eqb_refl.
Qed.

(** A multiple of [2^-t] with fewer than 53 bits lies within [2^53]. *)
Lemma scaled_within (t k : Z) (q : Qc) :
  (0 <= t)%Z -> scaled t q k -> (Z.abs k < 2 ^ 53)%Z -> within 53 (Fin q).
Proof.
  intros Ht E Hk. exists q. split; [reflexivity|]. unfold scaled in E.
  assert (Q : q == inject_Z k * pow2 (- t)).
  { rewrite <- E, <- Qmult_assoc, pow2_cancel. ring. }
  rewrite Q, Qabs_Qmult.
  assert (A : Qabs (inject_Z k) == inject_Z (Z.abs k)) by reflexivity.
  rewrite A, (Qabs_pos (pow2 (- t))) by (apply Qlt_le_weak, pow2_pos).
  assert (K0 : 0 <= inject_Z (Z.abs k)).
  { change 0 with (inject_Z 0). rewrite <- Zle_Qle. lia. }
  assert (K1 : inject_Z (Z.abs k) <= pow2 53).
  { rewrite (pow2_Z 53) by lia. rewrite <- Zle_Qle. lia. }
  assert (P1 : pow2 (- t) <= 1) by (apply (pow2_le (- t) 0); lia).
  pose proof (pow2_pos (- t)) as P0.
  nra.
Qed.

Variables (t m dim : Z) (o : Qc).

Hypothesis Ht : (1 <= t)%Z.
Hypothesis Ho : scaled t o m.
Hypothesis Hdim : (0 <= dim)%Z.
Hypothesis Hb : (Z.abs m + (dim + 1) * 2 ^ t < 2 ^ 53)%Z.

Let axis : list float :=
  map (fun i => Fin (o + half + of_nat i)%Qc) (seq 0 (Z.to_nat dim)).

Lemma axis_within : Forall (within 53) axis.
Proof.
  apply Forall_forall. intros x Hx. apply in_map_iff in Hx.
  destruct Hx as (i & <- & Hi). apply in_seq in Hi.
  apply (scaled_within t (m + 1 * 2 ^ (t - 1) + Z.of_nat i * 2 ^ t)); [lia | |].
  - replace (o + half + of_nat i)%Qc
      with (o + of_Z 1 * half + of_Z (Z.of_nat i))%Qc
      by (rewrite of_Z_1; unfold of_nat; ring).
    apply (scaled_point t m o Ht Ho); lia.
  - assert (P : (0 < 2 ^ (t - 1))%Z) by (apply Z.pow_pos_nonneg; lia).
    assert (D : (2 ^ t = 2 * 2 ^ (t - 1))%Z).
    { replace t with (Z.succ (t - 1)) at 1 by lia. apply Z.pow_succ_r. lia. }
    nia.
Qed.

Lemma axis_ascending_from (s n : nat) :
  ascending (map (fun i => Fin (o + half + of_nat i)%Qc) (seq s n)).
Proof.
  revert s. induction n as [|n IH]; intros s; [constructor|].
  destruct n as [|n]; [constructor|].
  change (ascending (Fin (o + half + of_nat s)%Qc
                     :: map (fun i => Fin (o + half + of_nat i)%Qc)
                          (seq (S s) (S n)))).
  specialize (IH (S s)). cbn [seq map] in IH |- *. constructor; [|exact IH].
  apply fleb_fin. rewrite of_nat_S. qc2q. lra.
Qed.

(** The offsets handed to the interpolant along one axis pass its check. *)
Lemma offsets_pass (cen s : Qc) :
  Qabs cen <= pow2 511 -> 0 <= s -> s <= pow2 511 ->
  Machine.nondecreasing
    (Machine.mul_scalar Machine.f64
       (Machine.sub_scalar Machine.f64 axis (Fin cen)) (Fin s)) = true.
Proof.
  intros Hc Hs Hs'.
  assert (A1 : Forall (within 511) axis).
  { eapply Forall_impl; [|exact axis_within]. intros x. apply within_weaken. lia. }
  assert (W1 : Forall (within 512) (Machine.sub_scalar Machine.f64 axis (Fin cen))).
  { unfold Machine.sub_scalar. apply Forall_map.
    eapply Forall_impl; [|exact A1]. intros x Hx.
    apply (sub64_within 511); (lia || assumption). }
  assert (S1 : ascending (Machine.sub_scalar Machine.f64 axis (Fin cen))).
  { unfold Machine.sub_scalar. apply (map_ascending (within 511)); [| exact A1 |].
    - intros x y Hx Hy. now apply (sub64_mono x y cen 511).
    - apply axis_ascending_from. }
  apply (ascending_nondecreasing 1023).
  - unfold Machine.mul_scalar. apply Forall_map.
    eapply Forall_impl; [|exact W1]. intros x Hx.
    apply (mul64_within 512 511); try lia; try assumption.
    rewrite Qabs_pos by exact Hs. exact Hs'.
  - unfold Machine.mul_scalar. apply (map_ascending (within 512)); [| exact W1 | exact S1].
    intros x y Hx Hy. now apply (mul64_mono x y s 512).
Qed.

End MachineShape.

Section AxisSpec.

Variables (t m dim : Z) (o : Qc).

Hypothesis Ht : (1 <= t)%Z.
Hypothesis Ho : scaled t o m.
Hypothesis Hdim : (0 <= dim)%Z.
Hypothesis Hb : (Z.abs m + (dim + 1) * 2 ^ t < 2 ^ 53)%Z.

(** One axis: its length, its elements, and the step between neighbours. *)
Lemma machine_footprint_axis_spec :
  exists xs,
    Machine.footprint_axis (Fin o) dim = Ok xs /\
    Z.of_nat (length xs) = dim /\
    (forall i, (i < length xs)%nat ->
       nth_error xs i = Some (Fin (o + (of_nat i + half))%Qc)) /\
    (forall i x y, nth_error xs i = Some x -> nth_error xs (S i) = Some y ->
       y = fadd x (Fin 1) /\ fltb x y = true).
Proof.
  eexists. split; [apply (footprint_axis_grid t m dim o Ht Ho Hdim Hb)|].
  rewrite length_map, length_seq. split; [lia|]. split.
  - intros i Hi. rewrite nth_error_map_seq.
    apply Nat.ltb_lt in Hi. rewrite Hi. do 2 f_equal. ring.
  - intros i x y. rewrite !nth_error_map_seq.
    destruct (i <? Z.to_nat dim)%nat; [|discriminate].
    destruct (S i <? Z.to_nat dim)%nat; [|discriminate].
    intros [= <-] [= <-]. simpl fadd. rewrite of_nat_S. split.
    + f_equal. ring.
    + simpl. apply Qcltb_lt. qc2q. lra.
Qed.

End AxisSpec.


(** C9, as the code has it.  For a [column] and a [row] that are
    multiples of [2^-t] for some [t >= 1] (integers and half-integers among
    them) and a shape [(rows, cols)] of non-negative counts, with
    [(|column| + cols + 1) * 2^t < 2^53] and the same for the rows, so
    that every sum formed is a double: the two footprint axes are built
    without error; [col_coord] has [cols] elements and [row_coord] has
    [rows]; element [i] is [column + (i + 0.5)], respectively
    [row + (i + 0.5)], with no rounding error; each element is its
    predecessor plus one, hence strictly larger; and these two arrays are
    the [col_coord] and [row_coord] of every model that [__init__] returns
    for these arguments. *)
Theorem footprint_axes_are_pixel_centres :
  forall (t mc mr rows cols : Z) (column row : Qc),
    (1 <= t)%Z -> scaled t column mc -> scaled t row mr ->
    (0 <= rows)%Z -> (0 <= cols)%Z ->
    (Z.abs mc + (cols + 1) * 2 ^ t < 2 ^ 53)%Z ->
    (Z.abs mr + (rows + 1) * 2 ^ t < 2 ^ 53)%Z ->
    exists col_coord row_coord,
      Machine.footprint_axis (Fin column) cols = Ok col_coord /\
      Machine.footprint_axis (Fin row) rows = Ok row_coord /\
      Z.of_nat (length col_coord) = cols /\
      Z.of_nat (length row_coord) = rows /\
      (forall i, (i < length col_coord)%nat ->
         nth_error col_coord i = Some (Fin (column + (of_nat i + half))%Qc)) /\
      (forall i, (i < length row_coord)%nat ->
         nth_error row_coord i = Some (Fin (row + (of_nat i + half))%Qc)) /\
      (forall i x y,
         nth_error col_coord i = Some x -> nth_error col_coord (S i) = Some y ->
         y = fadd x (Fin 1) /\ fltb x y = true) /\
      (forall i x y,
         nth_error row_coord i = Some x -> nth_error row_coord (S i) = Some y ->
         y = fadd x (Fin 1) /\ fltb x y = true) /\
      (forall lm nm fp host channel dir self,
         Machine.__init__ lm nm fp host channel (rows, cols) (Fin column)
           (Fin row) dir = Ok self ->
         Prf.col_coord self = col_coord /\ Prf.row_coord self = row_coord).
Proof.
  intros t mc mr rows cols column row Ht Hc Hr Hrows Hcols Bc Br.
  destruct (machine_footprint_axis_spec t mc cols column Ht Hc Hcols Bc)
    as (cc & Ec & Lc & Nc & Sc).
  destruct (machine_footprint_axis_spec t mr rows row Ht Hr Hrows Br)
    as (rc & Er & Lr & Nr & Sr).
  exists cc, rc. repeat (split; [assumption|]).
  intros lm nm fp host channel dir self Hinit.
  apply machine_init_axes in Hinit. destruct Hinit as (Ec' & Er' & _).
  simpl in Ec', Er'. split; congruence.
Qed.

Lemma footprint_axes_are_pixel_centres_witness :
  exists self,
    Demo64.model_at (Demo.q 100 1) (Demo.q 200 1) Demo.shape = Ok self /\
    Z.of_nat (length (Prf.col_coord self)) = 3%Z /\
    Z.of_nat (length (Prf.row_coord self)) = 2%Z /\
    nth_error (Prf.col_coord self) 2 = Some (Demo.q 205 2) /\
    nth_error (Prf.row_coord self) 1 = Some (Demo.q 403 2).
Proof.
  destruct (footprint_axes_are_pixel_centres 1 200 400 2 3 (Q2Qc 100) (Q2Qc 200))
    as (cc & rc & _ & _ & Lc & Lr & Nc & Nr & _ & _ & Hinit);
    [lia | reflexivity | reflexivity | lia | lia | simpl; lia | simpl; lia |].
  eexists. split; [vm_compute; reflexivity|].
  match goal with
  | |- context [Prf.col_coord ?m] =>
      destruct (Hinit Demo64.libm Demo64.numerics Demo.fitpack Demo64.host
                  42%Z "prf"%string m)
        as [Hc Hr]; [vm_compute; reflexivity|]
  end.
  rewrite Hc, Hr. repeat split; trivial.
  - rewrite (Nc 2%nat) by lia. unfold Demo.q. now do 2 f_equal.
  - rewrite (Nr 1%nat) by lia. unfold Demo.q. now do 2 f_equal.
Defined.

(** C9 as stated fails: for the column 2.9 (the double nearest to it) and
    three columns, [column + .5] is 3.4 and [column + 3 + .5] is 6.4, their
    difference in binary64 is 3.0000000000000004, and
    [np.arange(column + .5, column + 3 + .5)] has four elements. *)
Lemma fractional_column_gives_an_extra_pixel :
  exists col_coord,
    Machine.footprint_axis (Demo64.d 29 10) 3 = Ok col_coord /\
    length col_coord = 4%nat /\
    in_format Machine.f64 (Demo64.d 29 10) = true.
Proof.
  eexists. split; [vm_compute; reflexivity|]. split; reflexivity.
Qed.

(* ------------------------------------------------------------------ *)
(** ** The fusion loop in exact arithmetic (lines 211-216) *)

Section Weights.

Open Scope Qc_scope.

Context (lm : Prf.Libm).





End Weights.


(* ------------------------------------------------------------------ *)
(** ** The sample weights in machine arithmetic (lines 208-216) *)

Section Formats.

Open Scope Q_scope.

Lemma rnd_idem (fmt : format) (x : float) :
  in_format fmt x = true -> Fp.rnd fmt x = x.
Proof.
  destruct x as [q| | |]; try reflexivity. intros H. now apply in_format_round.
Qed.

Lemma rnd_in_format (fmt : format) (x : float) :
  (0 < prec fmt)%Z -> in_format fmt (Fp.rnd fmt x) = true.
Proof.
  intros P. destruct x as [q| | |]; try reflexivity. now apply round_in_format.
Qed.

(** A float32 is a float64. *)
Lemma f32_in_f64 (x : float) :
  in_format Machine.f32 x = true -> in_format Machine.f64 x = true.
Proof.
  destruct x as [q| | |]; try reflexivity. intros H.
  destruct (in_format_dyadic Machine.f32 f32_prec_pos q H)
    as (m & e & E & Hm & He & Hq).
  unfold in_format.
  rewrite (round_exact Machine.f64 f64_prec_pos q m e E).
  - now apply Qceqb_eq.
  - simpl in *. lia.
  - simpl in *. lia.
  - apply Qlt_trans with (pow2 (emax Machine.f32)); [exact Hq|].
    apply pow2_lt. reflexivity.
Qed.

End Formats.

Section MachineWeights.

Open Scope Q_scope.

Context (lm : Machine.Libm) (nm : Machine.Numerics).

Hypothesis Hfmt : Machine.scalar_format nm = Machine.f64 \/
                  Machine.scalar_format nm = Machine.f32.
Hypothesis Hpow : forall q : Qc, (0 <= Machine.libm_pow2 lm q)%Qc.

Lemma scalar_prec_pos : (0 < prec (Machine.scalar_format nm))%Z.
Proof. destruct Hfmt as [-> | ->]; reflexivity. Qed.

(** A float32 is a value of the format in which scalars combine. *)
Lemma scalar_rnd_f32 (x : float) :
  in_format Machine.f32 x = true -> Fp.rnd (Machine.scalar_format nm) x = x.
Proof.
  intros H. apply rnd_idem. destruct Hfmt as [-> | ->]; [now apply f32_in_f64 | exact H].
Qed.

Lemma square_nonneg (fmt : format) (x : float) :
  (0 < prec fmt)%Z -> nonneg (Machine.square lm fmt x).
Proof.
  intros P. destruct x as [q| | |]; simpl; [|now right|now right|now left].
  right. apply round_nonneg; [exact P|]. apply Hpow.
Qed.

Lemma add_nonneg (fmt : format) (x y : float) :
  (0 < prec fmt)%Z -> nonneg x -> nonneg y -> nonneg (Fp.add fmt x y).
Proof.
  intros P [-> | Hx] [-> | Hy]; try (left; now destruct x); try (now left).
  destruct x as [a| | |], y as [b| | |]; try discriminate; try (now right);
    try (now left).
  right. unfold Fp.add. cbn [fadd Fp.rnd]. apply round_nonneg; [exact P|].
  apply fleb_fin in Hx, Hy. unfold Qcle in *. rewrite Qc_plus_Q.
  change (this (Q2Qc 0)) with 0 in *. lra.
Qed.

(** [math.sqrt] never raises on a sum of two squares. *)
Lemma machine_sqrt_total (fmt : format) (x y : float) :
  (0 < prec fmt)%Z ->
  exists d, Machine.math_sqrt lm
              (Fp.add fmt (Machine.square lm fmt x) (Machine.square lm fmt y))
            = Ok d.
Proof.
  intros P.
  destruct (add_nonneg fmt _ _ P (square_nonneg fmt x P) (square_nonneg fmt y P))
    as [-> | H]; [simpl; eauto|].
  destruct (Fp.add fmt _ _) as [q| | |]; simpl; try discriminate; eauto.
  apply fleb_fin in H. apply Qcltb_ge in H. rewrite H. eauto.
Qed.

Lemma machine_prf_weight_total (rc rr : float) (s : Prf.Sample) :
  exists w, Machine.prf_weight lm nm rc rr s = Ok w.
Proof.
  unfold Machine.prf_weight.
  destruct (machine_sqrt_total (Machine.scalar_format nm)
              (Fp.sub (Machine.scalar_format nm)
                 (Fp.rnd (Machine.scalar_format nm) rc)
                 (Fp.rnd (Machine.scalar_format nm) (Prf.crval1p s)))
              (Fp.sub (Machine.scalar_format nm)
                 (Fp.rnd (Machine.scalar_format nm) rr)
                 (Fp.rnd (Machine.scalar_format nm) (Prf.crval2p s)))
              scalar_prec_pos) as [d ->].
  simpl. eauto.
Qed.

(** The float32 nearest to 1e-6, and the double nearest to it. *)
Lemma floor32_value :
  Fp.rnd Machine.f32 Machine.min_prf_weight
  = Fin (Q2Qc (8796093 # 8796093022208)).
Proof.
  vm_compute. f_equal; try (apply Qc_is_canon; reflexivity).
Qed.

Lemma floor32_below : fltb (Fp.rnd Machine.f32 Machine.min_prf_weight)
                        Machine.min_prf_weight = true.
Proof. vm_compute. reflexivity. Qed.

Lemma floor32_in_format :
  in_format Machine.f32 (Fp.rnd Machine.f32 Machine.min_prf_weight) = true.
Proof. vm_compute. reflexivity. Qed.

Lemma min_in_format : in_format Machine.f64 Machine.min_prf_weight = true.
Proof. vm_compute. reflexivity. Qed.

Lemma fltb_false_fleb (x y : float) :
  is_nan x = false -> is_nan y = false -> fltb x y = false -> fleb y x = true.
Proof.
  destruct x as [a| | |], y as [b| | |]; simpl; try discriminate; trivial.
  intros _ _ H. apply Qcltb_ge in H. now apply Qcleb_le.
Qed.

Lemma fleb_trans (x y z : float) :
  fleb x y = true -> fleb y z = true -> fleb x z = true.
Proof.
  destruct x as [a| | |], y as [b| | |], z as [c| | |]; simpl;
    try discriminate; trivial.
  rewrite !Qcleb_le. apply Qcle_trans.
Qed.

Lemma fltb_fleb (x y : float) : fltb x y = true -> fleb x y = true.
Proof.
  destruct x as [a| | |], y as [b| | |]; simpl; try discriminate; trivial.
  rewrite Qcltb_lt, Qcleb_le. apply Qclt_le_weak.
Qed.

(** The floor of lines 214-215, as stored: never below the float32
    nearest to 1e-6. *)
Lemma machine_weight_floor (d : float) :
  let fmt := Machine.scalar_format nm in
  let w := if fltb (Fp.rnd fmt (Fp.rnd Machine.f32 d))
                   (Fp.rnd fmt Machine.min_prf_weight)
           then Fp.rnd Machine.f32 Machine.min_prf_weight
           else Fp.rnd Machine.f32 d in
  is_nan w = false ->
  fleb (Fp.rnd Machine.f32 Machine.min_prf_weight) w = true.
Proof.
  cbv zeta.
  rewrite (scalar_rnd_f32 (Fp.rnd Machine.f32 d))
    by (apply rnd_in_format; reflexivity).
  set (w32 := Fp.rnd Machine.f32 d).
  set (m32 := Fp.rnd Machine.f32 Machine.min_prf_weight).
  assert (Hm : fleb m32 (Fp.rnd (Machine.scalar_format nm) Machine.min_prf_weight)
               = true).
  { destruct Hfmt as [-> | ->].
    - rewrite (rnd_idem _ _ min_in_format). apply fltb_fleb. exact floor32_below.
    - reflexivity. }
  assert (Hn : is_nan (Fp.rnd (Machine.scalar_format nm) Machine.min_prf_weight)
               = false).
  { destruct Hfmt as [-> | ->]; reflexivity. }
  destruct (fltb w32 _) eqn:T; intros N.
  - reflexivity.
  - apply (fleb_trans _ _ _ Hm). now apply fltb_false_fleb.
Qed.

End MachineWeights.

Section MachineReference.

Open Scope Q_scope.

Lemma of_Z_pred (n : Z) : (of_Z n + - Q2Qc 1 = of_Z (n - 1))%Qc.
Proof.
  apply Qc_is_canon. rewrite Qc_plus_Q, Qc_opp_Q, !Qc_of_Z_Q.
  unfold Z.sub. rewrite inject_Z_plus. reflexivity.
Qed.

Lemma round64_int (n : Z) :
  (Z.abs n < 2 ^ 53)%Z -> round Machine.f64 (of_Z n) = Fin (of_Z n).
Proof.
  intros H. apply (round64_scaled 0 _ (n * 2 ^ 0)); [apply scaled_of_Z| |]; lia.
Qed.

Lemma round64_half_int (n : Z) :
  (Z.abs n < 2 ^ 53)%Z ->
  round Machine.f64 (of_Z n / two)%Qc = Fin (of_Z n / two)%Qc.
Proof.
  intros H. apply (round64_scaled 1 _ n); [|exact H|lia].
  unfold scaled. change (pow2 1) with 2.
  unfold Qcdiv. rewrite Qc_mult_Q, Qc_of_Z_Q.
  change (this (/ two)%Qc) with (1 # 2). field.
Qed.

(** Lines 209-210: the double nearest to [origin + (dim - 1) / 2]. *)
Lemma machine_ref_coordinate (c : Qc) (dim : Z) :
  (Z.abs dim < 2 ^ 52)%Z ->
  Machine.ref_coordinate (Fin c) dim
  = Ok (round Machine.f64 (c + (of_Z dim - 1) / two)%Qc).
Proof.
  intros H. unfold Machine.ref_coordinate, Machine.float_of_int.
  rewrite round64_int by lia. cbn [Py.bind].
  unfold Fp.sub, fsub, Machine.c_one. cbn [fneg fadd Fp.rnd].
  rewrite of_Z_pred, round64_int by lia.
  unfold Fp.div, Machine.c_two. cbn [fdiv].
  change (Qceqb two 0) with false. cbv iota. cbn [Fp.rnd].
  rewrite round64_half_int by lia.
  unfold Fp.add. cbn [fadd Fp.rnd]. rewrite <- of_Z_pred. reflexivity.
Qed.

Context (lm : Machine.Libm) (nm : Machine.Numerics).

Hypothesis Hfmt : Machine.scalar_format nm = Machine.f64 \/
                  Machine.scalar_format nm = Machine.f32.

Lemma scalar_zero_below_floor :
  fltb (Fp.rnd (Machine.scalar_format nm) zero)
       (Fp.rnd (Machine.scalar_format nm) Machine.min_prf_weight) = true.
Proof. destruct Hfmt as [-> | ->]; vm_compute; reflexivity. Qed.

Lemma sub_self (fmt : format) (a : Qc) :
  (0 < prec fmt)%Z -> Fp.sub fmt (Fin a) (Fin a) = zero.
Proof.
  intros P. unfold Fp.sub, fsub. cbn [fneg fadd Fp.rnd].
  replace (a + - a)%Qc with (Q2Qc 0) by ring. now apply round_zero.
Qed.

(** A sample whose stored reference coordinate is the target's reference
    point gets the floor as its weight. *)
Lemma machine_weight_colocated (s : Prf.Sample) (a b : Qc) :
  Machine.libm_pow2 lm (Q2Qc 0) = Q2Qc 0 ->
  Machine.libm_sqrt lm (Q2Qc 0) = Q2Qc 0 ->
  Prf.crval1p s = Fin a -> in_format Machine.f32 (Fin a) = true ->
  Prf.crval2p s = Fin b -> in_format Machine.f32 (Fin b) = true ->
  Machine.prf_weight lm nm (Fin a) (Fin b) s
  = Ok (Fp.rnd Machine.f32 Machine.min_prf_weight).
Proof.
  intros Hp Hs Ea Fa Eb Fb. unfold Machine.prf_weight. rewrite Ea, Eb.
  assert (P : (0 < prec (Machine.scalar_format nm))%Z)
    by (destruct Hfmt as [-> | ->]; reflexivity).
  rewrite !(scalar_rnd_f32 nm Hfmt) by assumption.
  rewrite !sub_self by exact P.
  unfold Machine.square, zero. rewrite Hp, (round_zero _).
  unfold Fp.add, zero. cbn [fadd Fp.rnd].
  replace (Q2Qc 0 + Q2Qc 0)%Qc with (Q2Qc 0) by ring.
  rewrite (round_zero _). unfold zero. cbn [Machine.math_sqrt].
  change (Qcltb (Q2Qc 0) 0) with false. cbv iota. rewrite Hs.
  rewrite (round_zero _). cbn [Py.bind]. unfold zero.
  cbn [Fp.rnd]. rewrite (round_zero _).
  now rewrite scalar_zero_below_floor.
Qed.

End MachineReference.

Section MachineFusion.

Context (lm : Machine.Libm) (nm : Machine.Numerics).

Lemma nth_error_iadd1 (fmt : format) (a b : Np.array1) (j : nat) :
  nth_error (Machine.iadd1 fmt a b) j =
  match nth_error a j, nth_error b j with
  | Some x, Some y => Some (Fp.rnd Machine.f32 (Fp.add fmt x y))
  | _, _ => None
  end.
Proof.
  revert b j. induction a as [|x a IH]; intros [|y b] [|j]; simpl; trivial.
  all: try apply IH.
  all: now destruct (nth_error a j).
Qed.

Lemma nth_error_iadd2 (fmt : format) (a b : Np.array2) (i : nat) :
  nth_error (Machine.iadd2 fmt a b) i =
  match nth_error a i, nth_error b i with
  | Some r, Some s => Some (Machine.iadd1 fmt r s)
  | _, _ => None
  end.
Proof.
  revert b i. induction a as [|x a IH]; intros [|y b] [|i]; simpl; trivial.
  all: try apply IH.
  all: now destruct (nth_error a i).
Qed.

Lemma machine_cell_div (fmt : format) (a : Np.array2) (w : float) (i j : nat) :
  cell (Machine.div_scalar2 fmt a w) i j
  = option_map (fun x => Fp.div fmt x w) (cell a i j).
Proof.
  unfold cell, Machine.div_scalar2. rewrite nth_error_map.
  destruct (nth_error a i) as [r|]; simpl; [|reflexivity].
  apply nth_error_map.
Qed.

(** One sample, one element (line 216). *)
Lemma cell_fuse_step (prf : Np.array2) (s : Prf.Sample) (w x y : float)
  (i j : nat) :
  cell prf i j = Some x -> cell (Prf.prfn s) i j = Some y ->
  cell (Machine.iadd2 (Machine.image_format nm) prf
          (Machine.div_scalar2 (Machine.image_format nm) (Prf.prfn s) w)) i j
  = Some (Machine.fuse_step nm x y w).
Proof.
  intros Hx Hy.
  pose proof (machine_cell_div (Machine.image_format nm) (Prf.prfn s) w i j) as D.
  rewrite Hy in D. simpl in D. revert Hx D.
  unfold cell. rewrite nth_error_iadd2.
  destruct (nth_error prf i) as [r|]; [|discriminate].
  destruct (nth_error (Machine.div_scalar2 _ (Prf.prfn s) w) i) as [r'|];
    [|discriminate].
  rewrite nth_error_iadd1. now intros -> ->.
Qed.

(** One element through the loop: every sample is weighted once, in the
    order of the samples, and adds its pixel divided by its weight. *)
Lemma machine_fuse_cell (rc rr : float) (i j : nat) (samples : list Prf.Sample) :
  forall ys, Forall2 (fun s y => cell (Prf.prfn s) i j = Some y) samples ys ->
  forall prf r x,
    Machine.fuse lm nm rc rr samples prf = Ok r ->
    cell prf i j = Some x ->
    Forall2 (fun s w => Machine.prf_weight lm nm rc rr s = Ok w) samples (fst r) /\
    cell (snd r) i j
    = Some (fold_left (fun acc yw => Machine.fuse_step nm acc (fst yw) (snd yw))
              (combine ys (fst r)) x).
Proof.
  induction samples as [|s samples IH]; intros ys Hys prf r x.
  - inversion Hys; subst. simpl. intros [= <-] Hx. split; [constructor | exact Hx].
  - inversion Hys as [|? y ? ys' Hy Hys']; subst. simpl. intros H Hx.
    apply bind_ok_inv in H. destruct H as (w & Hw & H).
    apply bind_ok_inv in H. destruct H as (r' & Hr' & H).
    injection H as <-. cbn [fst snd combine fold_left].
    destruct (IH ys' Hys' _ r' _ Hr' (cell_fuse_step prf s w x y i j Hx Hy))
      as [W C].
    split; [now constructor | exact C].
Qed.

End MachineFusion.

Lemma Qc_square_nonneg (q : Qc) : (0 <= q * q)%Qc.
Proof. qc2q. nra. Qed.

(** C7, as the code has it.  Under the casting of NumPy 1.x or of NumPy 2,
    with a [pow] that returns no negative number and a shape whose counts
    are below [2^52] in magnitude: the reference point used by the fusion
    loop is [column + (cols - 1)/2], [row + (rows - 1)/2], rounded to a
    double.  For every sample the square root is computed without error,
    and the weight [w] kept in the float32 array [prfWeight] is the float32
    nearest to the root, replaced by the float32 nearest to 1e-6 when it
    compares below 1e-6.  That floor is 8796093/8796093022208, which is
    below 1e-6; [w], unless it is NaN, is not below the floor, and it is
    never zero.  A sample whose CRVAL1P and CRVAL2P are float32 numbers
    equal to the reference point has the floor as its weight (given
    [pow(0, 2) = 0] and [sqrt(0) = 0]).  And every element of the grid
    after the loop is the element before the loop to which the pixel of
    each sample, divided by that sample's weight, was added in turn, each
    sum stored as a float32. *)
Theorem prf_weight_is_floored_distance :
  forall (lm : Machine.Libm) (nm : Machine.Numerics) (column row : Qc)
         (shape : Z * Z) (s : Prf.Sample),
    Machine.scalar_format nm = Machine.f64 \/
    Machine.scalar_format nm = Machine.f32 ->
    (forall q : Qc, (0 <= Machine.libm_pow2 lm q)%Qc) ->
    (Z.abs (fst shape) < 2 ^ 52)%Z -> (Z.abs (snd shape) < 2 ^ 52)%Z ->
    let fmt := Machine.scalar_format nm in
    let floor := Fp.rnd Machine.f32 Machine.min_prf_weight in
    exists ref_column ref_row d w,
      Machine.ref_coordinate (Fin column) (snd shape) = Ok ref_column /\
      ref_column
        = Fp.round Machine.f64 (column + (of_Z (snd shape) - 1) / two)%Qc /\
      Machine.ref_coordinate (Fin row) (fst shape) = Ok ref_row /\
      ref_row = Fp.round Machine.f64 (row + (of_Z (fst shape) - 1) / two)%Qc /\
      Machine.math_sqrt lm
        (Fp.add fmt
           (Machine.square lm fmt
              (Fp.sub fmt (Fp.rnd fmt ref_column) (Fp.rnd fmt (Prf.crval1p s))))
           (Machine.square lm fmt
              (Fp.sub fmt (Fp.rnd fmt ref_row) (Fp.rnd fmt (Prf.crval2p s)))))
        = Ok d /\
      Machine.prf_weight lm nm ref_column ref_row s = Ok w /\
      w = (if fltb (Fp.rnd fmt (Fp.rnd Machine.f32 d))
                   (Fp.rnd fmt Machine.min_prf_weight)
           then floor else Fp.rnd Machine.f32 d) /\
      (is_nan w = false -> fleb floor w = true) /\
      w <> zero /\
      floor = Fin (Q2Qc (8796093 # 8796093022208)) /\
      fltb floor Machine.min_prf_weight = true /\
      (Machine.libm_pow2 lm (Q2Qc 0) = Q2Qc 0 ->
       Machine.libm_sqrt lm (Q2Qc 0) = Q2Qc 0 ->
       forall a b,
         ref_column = Fin a -> Prf.crval1p s = Fin a ->
         in_format Machine.f32 (Fin a) = true ->
         ref_row = Fin b -> Prf.crval2p s = Fin b ->
         in_format Machine.f32 (Fin b) = true ->
         w = floor) /\
      (forall samples ys prf r i j x,
         Forall2 (fun s' y => cell (Prf.prfn s') i j = Some y) samples ys ->
         Machine.fuse lm nm ref_column ref_row samples prf = Ok r ->
         cell prf i j = Some x ->
         Forall2 (fun s' w' =>
                    Machine.prf_weight lm nm ref_column ref_row s' = Ok w')
           samples (fst r) /\
         cell (snd r) i j
         = Some (fold_left
                   (fun acc yw => Machine.fuse_step nm acc (fst yw) (snd yw))
                   (combine ys (fst r)) x)).
Proof.
  intros lm nm column row shape s Hfmt Hpow Hr Hc. cbv zeta.
  set (rc := Fp.round Machine.f64 (column + (of_Z (snd shape) - 1) / two)%Qc).
  set (rr := Fp.round Machine.f64 (row + (of_Z (fst shape) - 1) / two)%Qc).
  pose proof (scalar_prec_pos nm Hfmt) as P.
  destruct (machine_sqrt_total lm Hpow (Machine.scalar_format nm)
              (Fp.sub (Machine.scalar_format nm)
                 (Fp.rnd (Machine.scalar_format nm) rc)
                 (Fp.rnd (Machine.scalar_format nm) (Prf.crval1p s)))
              (Fp.sub (Machine.scalar_format nm)
                 (Fp.rnd (Machine.scalar_format nm) rr)
                 (Fp.rnd (Machine.scalar_format nm) (Prf.crval2p s))) P)
    as [d Hd].
  set (w := if fltb (Fp.rnd (Machine.scalar_format nm) (Fp.rnd Machine.f32 d))
                    (Fp.rnd (Machine.scalar_format nm) Machine.min_prf_weight)
            then Fp.rnd Machine.f32 Machine.min_prf_weight
            else Fp.rnd Machine.f32 d).
  assert (Hw : Machine.prf_weight lm nm rc rr s = Ok w).
  { unfold Machine.prf_weight. rewrite Hd. reflexivity. }
  pose proof (machine_weight_floor nm Hfmt d) as F. cbv zeta in F. fold w in F.
  exists rc, rr, d, w.
  split; [now apply machine_ref_coordinate|]. split; [reflexivity|].
  split; [now apply machine_ref_coordinate|]. split; [reflexivity|].
  split; [exact Hd|]. split; [exact Hw|]. split; [reflexivity|].
  split; [exact F|].
  split.
  { intros Z. rewrite Z in F. specialize (F eq_refl).
    rewrite floor32_value in F. discriminate F. }
  split; [exact floor32_value|]. split; [exact floor32_below|].
  split.
  - intros Hp Hs a b Ea Ea' Fa Eb Eb' Fb.
    rewrite Ea, Eb in Hw.
    rewrite (machine_weight_colocated lm nm Hfmt s a b Hp Hs Ea' Fa Eb' Fb) in Hw.
    congruence.
  - intros samples ys prf r i j x Hys Hfuse Hx.
    exact (machine_fuse_cell lm nm rc rr i j samples ys Hys prf r x Hfuse Hx).
Qed.

Lemma prf_weight_is_floored_distance_witness :
  Machine.ref_coordinate (Demo.q 100 1) (snd Demo.shape) = Ok (Demo.q 101 1) /\
  Machine.ref_coordinate (Demo.q 200 1) (fst Demo.shape) = Ok (Demo.q 401 2) /\
  Machine.prf_weight Demo64.libm Demo64.numerics (Demo.q 101 1) (Demo.q 401 2)
    Demo64.colocated
  = Ok (Fp.rnd Machine.f32 Machine.min_prf_weight).
Proof.
  destruct (prf_weight_is_floored_distance Demo64.libm Demo64.numerics
              (Q2Qc 100) (Q2Qc 200) Demo.shape Demo64.colocated
              (or_introl eq_refl) Qc_square_nonneg)
    as (rc & rr & d & w & Hrc & Erc & Hrr & Err & _ & Hw & _ & _ & _ & _ & _
        & Hco & _); [simpl; lia | simpl; lia |].
  assert (Ec : rc = Demo.q 101 1).
  { rewrite Erc. vm_compute. f_equal; try (apply Qc_is_canon; reflexivity). }
  assert (Er : rr = Demo.q 401 2).
  { rewrite Err. vm_compute. f_equal; try (apply Qc_is_canon; reflexivity). }
  rewrite Ec in Hrc, Hw. rewrite Er in Hrr, Hw.
  split; [exact Hrc|]. split; [exact Hrr|]. rewrite Hw. f_equal.
  apply (Hco eq_refl
           (Qc_is_canon (Demo.sqrt_ratio (Q2Qc 0)) (Q2Qc 0) (Qeq_refl 0))
           (Q2Qc 101) (Q2Qc (401 # 2))).
  - exact Ec.
  - vm_compute. f_equal; try (apply Qc_is_canon; reflexivity).
  - vm_compute. reflexivity.
  - exact Er.
  - vm_compute. f_equal; try (apply Qc_is_canon; reflexivity).
  - vm_compute. reflexivity.
Defined.

(** C7 as stated fails: the weight of the co-located sample is stored in
    a float32 array, and the float32 nearest to 1e-6 is
    8796093/8796093022208, about 9.99999997e-07: it is not 1e-6, it is
    below it, under the casting rules of NumPy 1.x and of NumPy 2 alike. *)
Lemma stored_floor_is_below_1e_6 :
  exists w,
    Machine.prf_weight Demo64.libm Demo64.numerics (Demo.q 101 1) (Demo.q 401 2)
      Demo64.colocated = Ok w /\
    Machine.prf_weight Demo64.libm Demo64.numerics2 (Demo.q 101 1)
      (Demo.q 401 2) Demo64.colocated = Ok w /\
    w = Fp.rnd Machine.f32 Machine.min_prf_weight /\
    fltb w Machine.min_prf_weight = true /\
    fltb w (Fin (Q2Qc (1 # 1000000))) = true /\
    w <> Machine.min_prf_weight /\
    w <> Fin (Q2Qc (1 # 1000000)).
Proof.
  exists (Fp.rnd Machine.f32 Machine.min_prf_weight).
  split; [vm_compute; reflexivity|]. split; [vm_compute; reflexivity|].
  split; [reflexivity|].
  split; [vm_compute; reflexivity|]. split; [vm_compute; reflexivity|].
  split; intros H.
  - assert (F : fltb (Fp.rnd Machine.f32 Machine.min_prf_weight)
                  Machine.min_prf_weight = true) by (vm_compute; reflexivity).
    rewrite H in F. vm_compute in F. discriminate F.
  - assert (F : fltb (Fp.rnd Machine.f32 Machine.min_prf_weight)
                  (Fin (Q2Qc (1 # 1000000))) = true) by (vm_compute; reflexivity).
    rewrite H in F. vm_compute in F. discriminate F.
Qed.

(* ------------------------------------------------------------------ *)
(** ** Normalisation of the fused grid (line 217) *)

Section Normalisation.

Open Scope Qc_scope.









End Normalisation.




(* ------------------------------------------------------------------ *)
(** ** [prf_to_detector] and [evaluate] (lines 134-165) *)

Section Evaluate.

Context (lm : Prf.Libm) (fp : Scipy.Fitpack).

(** The method, step by step: each of the five steps that can raise leaves
    [self] as it was; the last one stores the array it returns. *)
Lemma prf_to_detector_steps flux cc cr sc sr rot self :
  Prf.prf_to_detector lm fp flux cc cr sc sr rot self =
  match Prf.math_cos lm rot with
  | Raise e => (Raise e, self)
  | Ok _ =>
  match Prf.math_sin lm rot with
  | Raise e => (Raise e, self)
  | Ok _ =>
  match getitem (Np.sub_scalar (Prf.row_coord self) cr) 0 with
  | Raise e => (Raise e, self)
  | Ok _ =>
  match getitem (Np.sub_scalar (Prf.col_coord self) cc) 0 with
  | Raise e => (Raise e, self)
  | Ok _ =>
  match Scipy.call fp (Prf.interpolate self)
          (Np.mul_scalar (Np.sub_scalar (Prf.row_coord self) cr) sr)
          (Np.mul_scalar (Np.sub_scalar (Prf.col_coord self) cc) sc) with
  | Raise e => (Raise e, self)
  | Ok z => (Ok (Np.rmul_scalar2 flux z),
             Prf.set_prf_model self (Np.rmul_scalar2 flux z))
  end end end end end.
Proof.
  unfold Prf.prf_to_detector, Py.mbind, Py.lift, Py.get, Py.modify, Py.ret.
  destruct (Prf.math_cos lm rot); trivial;
  destruct (Prf.math_sin lm rot); trivial;
  destruct (getitem (Np.sub_scalar (Prf.row_coord self) cr) 0); trivial;
  destruct (getitem (Np.sub_scalar (Prf.col_coord self) cc) 0); trivial;
  destruct (Scipy.call fp (Prf.interpolate self) _ _); trivial.
Qed.

(** What a call reads of [self]: the two axes and the interpolant. *)
Lemma prf_to_detector_reads flux cc cr sc sr rot self self' :
  Prf.col_coord self' = Prf.col_coord self ->
  Prf.row_coord self' = Prf.row_coord self ->
  Prf.interpolate self' = Prf.interpolate self ->
  fst (Prf.prf_to_detector lm fp flux cc cr sc sr rot self') =
  fst (Prf.prf_to_detector lm fp flux cc cr sc sr rot self).
Proof.
  intros Hc Hr Hi. rewrite !prf_to_detector_steps, Hc, Hr, Hi.
  destruct (Prf.math_cos lm rot); trivial.
  destruct (Prf.math_sin lm rot); trivial.
  destruct (getitem (Np.sub_scalar (Prf.row_coord self) cr) 0); trivial.
  destruct (getitem (Np.sub_scalar (Prf.col_coord self) cc) 0); trivial.
  destruct (Scipy.call fp (Prf.interpolate self) _ _); trivial.
Qed.

Lemma prf_to_detector_frame flux cc cr sc sr rot self :
  let r := Prf.prf_to_detector lm fp flux cc cr sc sr rot self in
  Prf.prf_files_dir (snd r) = Prf.prf_files_dir self /\
  Prf.channel (snd r) = Prf.channel self /\
  Prf.shape (snd r) = Prf.shape self /\
  Prf.column (snd r) = Prf.column self /\
  Prf.row (snd r) = Prf.row self /\
  Prf.col_coord (snd r) = Prf.col_coord self /\
  Prf.row_coord (snd r) = Prf.row_coord self /\
  Prf.interpolate (snd r) = Prf.interpolate self /\
  match fst r with
  | Ok a => Prf.prf_model (snd r) = Some a
  | Raise _ => snd r = self
  end.
Proof.
  cbv zeta. rewrite prf_to_detector_steps.
  destruct (Prf.math_cos lm rot); [|now simpl].
  destruct (Prf.math_sin lm rot); [|now simpl].
  destruct (getitem (Np.sub_scalar (Prf.row_coord self) cr) 0); [|now simpl].
  destruct (getitem (Np.sub_scalar (Prf.col_coord self) cc) 0); [|now simpl].
  destruct (Scipy.call fp (Prf.interpolate self) _ _); now simpl.
Qed.

End Evaluate.

(** C8.  A call of [evaluate] leaves [prf_files_dir], [channel], [shape],
    [column], [row], [col_coord], [row_coord] and [interpolate] as they
    were; when it returns an array, [prf_model] holds exactly that array,
    and when it raises, the object is unchanged; and a second call with the
    same arguments, made on the object as the first call left it, gives the
    same result. *)
Theorem evaluate_writes_only_the_cache :
  forall (lm : Prf.Libm) (fp : Scipy.Fitpack)
         (flux centroid_col centroid_row stretch_col stretch_row
            rotation_radians : float) (self : Prf.KeplerPRF),
    let call := Prf.evaluate lm fp flux centroid_col centroid_row stretch_col
                  stretch_row rotation_radians in
    Prf.prf_files_dir (snd (call self)) = Prf.prf_files_dir self /\
    Prf.channel (snd (call self)) = Prf.channel self /\
    Prf.shape (snd (call self)) = Prf.shape self /\
    Prf.column (snd (call self)) = Prf.column self /\
    Prf.row (snd (call self)) = Prf.row self /\
    Prf.col_coord (snd (call self)) = Prf.col_coord self /\
    Prf.row_coord (snd (call self)) = Prf.row_coord self /\
    Prf.interpolate (snd (call self)) = Prf.interpolate self /\
    match fst (call self) with
    | Ok a => Prf.prf_model (snd (call self)) = Some a
    | Raise _ => snd (call self) = self
    end /\
    fst (call (snd (call self))) = fst (call self).
Proof.
  intros lm fp flux cc cr sc sr rot self. cbv zeta. unfold Prf.evaluate.
  pose proof (prf_to_detector_frame lm fp flux cc cr sc sr rot self) as F.
  cbv zeta in F.
  destruct F as (F1 & F2 & F3 & F4 & F5 & F6 & F7 & F8 & F9).
  repeat (split; [assumption|]).
  now apply prf_to_detector_reads.
Qed.


(* ------------------------------------------------------------------ *)
(** ** Doubling under rounding (line 160) *)

Section Doubling.

Open Scope Q_scope.

Variable fmt : format.
Hypothesis prec_pos : (0 < prec fmt)%Z.

(** [round] depends on the rounded rational only. *)
Lemma round_ext (a b : Qc) :
  round_q fmt a == round_q fmt b -> round fmt a = round fmt b.
Proof.
  intros E. unfold round. rewrite (overflows_comp fmt _ _ E).
  rewrite (Qle_bool_comp 0 (round_q fmt a) 0 (round_q fmt b)) by (reflexivity || exact E).
  destruct (overflows fmt (round_q fmt b)); [reflexivity|].
  f_equal. apply Qc_is_canon. cbn [this Q2Qc]. now rewrite !Qred_correct.
Qed.

(** Below the normal range both [x] and [2x] are rounded to a multiple of
    [2^emin], so that doubling and rounding commute up to one such unit. *)
Lemma round_pos_double_subnormal (x : Q) :
  0 < x -> x < pow2 (emin fmt + prec fmt - 1) ->
  Qabs (round_pos fmt (2 * x) - 2 * round_pos fmt x) <= pow2 (emin fmt).
Proof.
  intros Hx Hs.
  assert (U : ulp_exp fmt x = emin fmt).
  { destruct (ilog2_spec x Hx) as [L _].
    assert (ilog2 x < emin fmt + prec fmt - 1)%Z; [|unfold ulp_exp; lia].
    apply pow2_lt_inv. now apply Qle_lt_trans with x. }
  assert (U2 : ulp_exp fmt (2 * x) = emin fmt).
  { unfold ulp_exp. rewrite (ilog2_double x Hx).
    destruct (ilog2_spec x Hx) as [L _].
    assert (ilog2 x < emin fmt + prec fmt - 1)%Z; [|lia].
    apply pow2_lt_inv. now apply Qle_lt_trans with x. }
  unfold round_pos. rewrite U, U2.
  set (u := pow2 (emin fmt)). assert (Pu : 0 < u) by apply pow2_pos.
  set (a := rne (2 * x / u)). set (b := rne (x / u)).
  destruct (rne_error (2 * x / u)) as [La Ua]. fold a in La, Ua.
  destruct (rne_error (x / u)) as [Lb Ub]. fold b in Lb, Ub.
  assert (E : 2 * x / u == 2 * (x / u)) by (field; lra).
  rewrite E in La, Ua.
  assert (D : (-1 <= a - 2 * b <= 1)%Z).
  { assert (inject_Z (a - 2 * b) < inject_Z 2 /\ inject_Z (-2) < inject_Z (a - 2 * b)).
    { unfold Z.sub. rewrite inject_Z_plus, inject_Z_opp, inject_Z_mult.
      change (inject_Z 2) with 2. change (inject_Z (-2)) with (-2). split; lra. }
    destruct H as [H1 H2]. rewrite <- Zlt_Qlt in H1, H2. lia. }
  assert (F : inject_Z a * u - 2 * (inject_Z b * u) == inject_Z (a - 2 * b) * u).
  { unfold Z.sub. rewrite inject_Z_plus, inject_Z_opp, inject_Z_mult.
    change (inject_Z 2) with 2. ring. }
  rewrite F. apply Qabs_Qle_condition.
  assert (D1 : -1 <= inject_Z (a - 2 * b)).
  { change (-1) with (inject_Z (-1)). rewrite <- Zle_Qle. lia. }
  assert (D2 : inject_Z (a - 2 * b) <= 1).
  { change 1 with (inject_Z 1). rewrite <- Zle_Qle. lia. }
  split; nra.
Qed.

Lemma round_q_double_subnormal (x : Q) :
  Qabs x < pow2 (emin fmt + prec fmt - 1) ->
  Qabs (round_q fmt (2 * x) - 2 * round_q fmt x) <= pow2 (emin fmt).
Proof.
  intros Hs. pose proof (pow2_pos (emin fmt)) as Pu.
  destruct (Q_sign_cases x) as [Hx | [Hx | Hx]].
  - rewrite Qabs_neg in Hs by lra.
    rewrite (round_q_neg fmt x Hx), (round_q_neg fmt (2 * x)) by lra.
    rewrite (round_pos_comp fmt (- (2 * x)) (2 * - x)) by lra.
    pose proof (round_pos_double_subnormal (- x) ltac:(lra) Hs) as H.
    apply Qabs_Qle_condition in H. apply Qabs_Qle_condition. lra.
  - rewrite (round_q_zero fmt x Hx), (round_q_zero fmt (2 * x)) by lra.
    apply Qabs_Qle_condition. lra.
  - rewrite Qabs_pos in Hs by lra.
    rewrite (round_q_pos fmt x Hx), (round_q_pos fmt (2 * x)) by lra.
    now apply round_pos_double_subnormal.
Qed.

(** A rounded value beyond [2^k] comes from a number at or beyond it. *)
Lemma round_q_beyond (k : Z) (x : Q) :
  (emin fmt <= k)%Z -> pow2 k < Qabs (round_q fmt x) -> pow2 k <= Qabs x.
Proof.
  intros Hk H. apply Qnot_lt_le. intros A.
  apply Qabs_Qlt_condition in A. destruct A as [L U].
  pose proof (round_q_mono fmt prec_pos _ _ (Qlt_le_weak _ _ L)) as L'.
  pose proof (round_q_mono fmt prec_pos _ _ (Qlt_le_weak _ _ U)) as U'.
  rewrite round_q_opp, round_q_pow2 in L' by (assumption || lia).
  rewrite round_q_pow2 in U' by (assumption || lia).
  assert (Qabs (round_q fmt x) <= pow2 k) by (apply Qabs_Qle_condition; now split).
  lra.
Qed.

End Doubling.

Section Homogeneity.

Open Scope Q_scope.

Lemma two_sgn : (two ?= 0)%Qc = Gt.
Proof. reflexivity. Qed.

Lemma fmul_two_nonfinite (x : float) :
  is_finite x = false -> fmul (Fin two) x = x.
Proof. destruct x; simpl; try discriminate; rewrite ?two_sgn; reflexivity. Qed.

Lemma Qc_two_mult_Q (p : Qc) : (two * p)%Qc == 2 * p.
Proof. rewrite Qc_mult_Q. unfold two. cbn [this Q2Qc]. reflexivity. Qed.

(** Rounding a number and rounding its double. *)
Lemma rnd_doubles (e : float) :
  Machine.doubles (Fp.rnd Machine.f64 e) (Fp.rnd Machine.f64 (fmul (Fin two) e)).
Proof.
  destruct e as [p| | |];
    try (rewrite fmul_two_nonfinite by reflexivity; simpl;
         unfold Fp.mul; rewrite fmul_two_nonfinite by reflexivity; reflexivity).
  cbn [fmul Fp.rnd].
  pose proof (round_q_comp Machine.f64 _ _ (Qc_two_mult_Q p)) as C2.
  assert (M : (emin Machine.f64 + prec Machine.f64 - 1 = -1022)%Z) by reflexivity.
  assert (P0 : pow2 (-1022) < pow2 1024) by (apply pow2_lt; lia).
  assert (P1 : pow2 (-1074) < pow2 (-1022)) by (apply pow2_lt; lia).
  assert (P2 : 0 < pow2 (-1074)) by apply pow2_pos.
  assert (P4 : 0 < pow2 1024) by apply pow2_pos.
  assert (P5 : 0 < pow2 (-1022)) by apply pow2_pos.
  assert (P3 : 4 * pow2 (-1022) < pow2 1024).
  { change 4 with (pow2 2). rewrite <- pow2_add. apply pow2_lt. lia. }
  destruct (Qlt_le_dec (Qabs p) (pow2 (-1022))) as [Sub | Nor].
  - (* below the normal range *)
    pose proof (round_q_double_subnormal Machine.f64 p) as D.
    rewrite M in D. specialize (D Sub). change (emin Machine.f64) with (-1074)%Z in D.
    pose proof (round_within Machine.f64 f64_prec_pos (-1022) p
                  ltac:(simpl; lia) (Qlt_le_weak _ _ Sub)) as (q & Eq & Hq).
    destruct (round_cases Machine.f64 p) as [[_ R] | [[_ R] | (_ & _ & R)]];
      rewrite R in Eq; try discriminate.
    injection Eq as Eq. rewrite R.
    assert (Q : q == round_q Machine.f64 p).
    { rewrite <- Eq. cbn [this Q2Qc]. apply Qred_correct. }
    unfold Machine.doubles. rewrite Eq.
    replace (Qle_bool (Qabs q) (pow2 (-1022))) with true
      by (symmetry; now apply Qle_bool_iff).
    rewrite <- C2, <- Q in D.
    apply Qabs_Qle_condition in D, Hq. destruct D as [D1 D2]. destruct Hq as [H1 H2].
    destruct (round_cases Machine.f64 (two * p)%Qc)
      as [[A _] | [[A _] | (_ & _ & R2)]].
    + change (emax Machine.f64) with 1024%Z in A. lra.
    + change (emax Machine.f64) with 1024%Z in A. lra.
    + rewrite R2. eexists. split; [reflexivity|].
      cbn [this Q2Qc]. rewrite Qred_correct. apply Qabs_Qle_condition. split; lra.
  - (* in the normal range *)
    pose proof (round_q_double Machine.f64 p) as D.
    rewrite M in D. specialize (D (or_intror Nor)). rewrite <- C2 in D.
    destruct (round_cases Machine.f64 p) as [[A R] | [[A R] | (A & A' & R)]];
      rewrite R.
    + change (Machine.doubles PInf (round Machine.f64 (two * p)%Qc)).
      unfold Machine.doubles, Fp.mul. rewrite fmul_two_nonfinite by reflexivity.
      simpl Fp.rnd.
      destruct (round_cases Machine.f64 (two * p)%Qc)
        as [[_ R2] | [[B _] | (_ & B & _)]];
        change (emax Machine.f64) with 1024%Z in *; [exact R2 | lra | lra].
    + change (Machine.doubles NInf (round Machine.f64 (two * p)%Qc)).
      unfold Machine.doubles, Fp.mul. rewrite fmul_two_nonfinite by reflexivity.
      simpl Fp.rnd.
      destruct (round_cases Machine.f64 (two * p)%Qc)
        as [[B _] | [[_ R2] | (B & _ & _)]];
        change (emax Machine.f64) with 1024%Z in *; [lra | exact R2 | lra].
    + set (q := Q2Qc (round_q Machine.f64 p)).
      assert (Q : q == round_q Machine.f64 p) by (cbn [q this Q2Qc]; apply Qred_correct).
      unfold Machine.doubles.
      destruct (Qle_bool (Qabs q) (pow2 (-1022))) eqn:T.
      * apply Qle_bool_iff in T. rewrite Q in T.
        apply Qabs_Qle_condition in T. destruct T as [T1 T2].
        destruct (round_cases Machine.f64 (two * p)%Qc)
          as [[B _] | [[B _] | (_ & _ & R2)]].
        -- change (emax Machine.f64) with 1024%Z in B. lra.
        -- change (emax Machine.f64) with 1024%Z in B. lra.
        -- rewrite R2. eexists. split; [reflexivity|].
           cbn [this Q2Qc]. rewrite Qred_correct, D, Q.
           apply Qabs_Qle_condition. split; lra.
      * unfold Fp.mul. cbn [fmul Fp.rnd]. apply round_ext.
        rewrite D.
        rewrite (round_q_comp Machine.f64 (two * q)%Qc
                   (2 * round_q Machine.f64 p))
          by (rewrite Qc_two_mult_Q, Q; reflexivity).
        rewrite (round_q_double Machine.f64).
        -- now rewrite round_q_idem by exact f64_prec_pos.
        -- right. rewrite M.
           assert (N : pow2 (-1022) < Qabs q).
           { apply Qnot_le_lt. intros H. apply Qle_bool_iff in H. congruence. }
           rewrite Q in N. now apply Qlt_le_weak.
Qed.

(** Doubling a binary64 number is exact as long as it does not overflow. *)
Lemma mul64_two_exact (x : float) :
  in_format Machine.f64 x = true ->
  (is_finite x = true ->
   is_finite (Fp.mul Machine.f64 Machine.c_two x) = true) ->
  Fp.mul Machine.f64 Machine.c_two x = fmul (Fin two) x.
Proof.
  intros Hf Hn. unfold Fp.mul, Machine.c_two in *.
  destruct x as [F| | |];
    try (rewrite fmul_two_nonfinite by reflexivity; reflexivity).
  specialize (Hn eq_refl). cbn [fmul Fp.rnd] in *.
  destruct (in_format_dyadic Machine.f64 f64_prec_pos F Hf)
    as (m & e & E & Hm & He & _).
  assert (R : round_q Machine.f64 (two * F)%Qc == (two * F)%Qc).
  { apply (round_q_exact Machine.f64 f64_prec_pos _ m (e + 1)); [|exact Hm|lia].
    rewrite Qc_two_mult_Q, E, pow2_succ. ring. }
  destruct (round_cases Machine.f64 (two * F)%Qc)
    as [[_ R2] | [[_ R2] | (_ & _ & R2)]]; rewrite R2 in Hn |- *;
    try discriminate.
  f_equal. apply Qc_is_canon. cbn [this Q2Qc]. rewrite Qred_correct. exact R.
Qed.

Lemma mul64_doubles (flux z : float) :
  in_format Machine.f64 flux = true ->
  (is_finite flux = true ->
   is_finite (Fp.mul Machine.f64 Machine.c_two flux) = true) ->
  Machine.doubles (Fp.mul Machine.f64 flux z)
    (Fp.mul Machine.f64 (Fp.mul Machine.f64 Machine.c_two flux) z).
Proof.
  intros Hf Hn. rewrite (mul64_two_exact flux Hf Hn).
  unfold Fp.mul at 1 2. rewrite fmul_two_assoc. apply rnd_doubles.
Qed.

End Homogeneity.

Lemma Forall2_map_same {A B : Type} (R : B -> B -> Prop) (f g : A -> B)
  (l : list A) :
  (forall x, R (f x) (g x)) -> Forall2 R (map f l) (map g l).
Proof. intros H. induction l; simpl; constructor; auto. Qed.

(** C6, as the code has it.  For a flux [F] that is a double and whose
    double [2 * F] is finite when [F] is, [evaluate(2 * F, ...)] and
    [evaluate(F, ...)] raise the same exception, or both return an array,
    and then every element [y] of the first is twice the element [x] at
    the same place in the second, within tolerance: [y] is the double
    [2 * x] when [x] is not finite or exceeds [2^-1022] in magnitude, and
    is within [2^-1074] of [2 * x] otherwise. *)
Theorem evaluate_is_homogeneous_in_flux :
  forall (lm : Machine.Libm) (fp : Scipy.Fitpack)
         (flux centroid_col centroid_row stretch_col stretch_row
            rotation_radians : float) (self : Prf.KeplerPRF),
    in_format Machine.f64 flux = true ->
    (is_finite flux = true ->
     is_finite (Fp.mul Machine.f64 Machine.c_two flux) = true) ->
    match fst (Machine.evaluate lm fp (Fp.mul Machine.f64 Machine.c_two flux)
                 centroid_col centroid_row stretch_col stretch_row
                 rotation_radians self),
          fst (Machine.evaluate lm fp flux centroid_col centroid_row
                 stretch_col stretch_row rotation_radians self) with
    | Ok a2, Ok a => Forall2 (Forall2 Machine.doubles) a a2
    | Raise e2, Raise e => e2 = e
    | _, _ => False
    end.
Proof.
  intros lm fp flux cc cr sc sr rot self Hf Hn. unfold Machine.evaluate.
  rewrite !machine_prf_to_detector_steps.
  destruct (Machine.math_cos lm rot); [|reflexivity].
  destruct (Machine.math_sin lm rot); [|reflexivity].
  destruct (getitem (Machine.sub_scalar _ (Prf.row_coord self) cr) 0);
    [|reflexivity].
  destruct (getitem (Machine.sub_scalar _ (Prf.col_coord self) cc) 0);
    [|reflexivity].
  destruct (Machine.call fp (Prf.interpolate self) _ _) as [z|e]; [|reflexivity].
  cbn [fst]. unfold Machine.rmul_scalar2.
  apply Forall2_map_same. intros r. apply Forall2_map_same. intros x.
  now apply mul64_doubles.
Qed.

Lemma evaluate_is_homogeneous_in_flux_witness :
  exists self a a2,
    Demo64.model_at (Demo.q 100 1) (Demo.q 200 1) Demo.shape = Ok self /\
    fst (Machine.evaluate Demo64.libm Demo.fitpack (Demo.q 7 1) (Demo.q 101 1)
           (Demo.q 401 2) (Demo.q 1 1) (Demo.q 1 1) (Demo.q 0 1) self) = Ok a /\
    fst (Machine.evaluate Demo64.libm Demo.fitpack
           (Fp.mul Machine.f64 Machine.c_two (Demo.q 7 1)) (Demo.q 101 1)
           (Demo.q 401 2) (Demo.q 1 1) (Demo.q 1 1) (Demo.q 0 1) self) = Ok a2 /\
    Forall2 (Forall2 Machine.doubles) a a2.
Proof.
  destruct (Demo64.model_at (Demo.q 100 1) (Demo.q 200 1) Demo.shape)
    as [self|] eqn:M; [|vm_compute in M; discriminate M].
  pose proof (evaluate_is_homogeneous_in_flux Demo64.libm Demo.fitpack
                (Demo.q 7 1) (Demo.q 101 1) (Demo.q 401 2) (Demo.q 1 1)
                (Demo.q 1 1) (Demo.q 0 1) self eq_refl (fun _ => eq_refl)) as H.
  vm_compute in M. injection M as <-.
  destruct (fst (Machine.evaluate Demo64.libm Demo.fitpack
                   (Fp.mul Machine.f64 Machine.c_two (Demo.q 7 1)) _ _ _ _ _ _))
    as [a2|] eqn:E2; [|vm_compute in E2; discriminate E2].
  destruct (fst (Machine.evaluate Demo64.libm Demo.fitpack (Demo.q 7 1) _ _ _ _ _ _))
    as [a|] eqn:E1; [|vm_compute in E1; discriminate E1].
  eexists. exists a, a2. split; [reflexivity|]. repeat split; assumption.
Defined.

(** C6 as stated fails: for the flux 1e308 and an interpolant of height
    0.5, [2 * flux] is [inf], so [evaluate(2 * flux)] holds [inf] where
    [2 * evaluate(flux)] holds 1e308. *)
Lemma doubling_the_flux_can_overflow :
  exists self a a2,
    Demo64.model_at (Demo.q 100 1) (Demo.q 200 1) Demo.shape = Ok self /\
    in_format Machine.f64 (Demo64.d (10 ^ 308) 1) = true /\
    fst (Machine.evaluate Demo64.libm (Demo64.flat (Demo.q 1 2))
           (Demo64.d (10 ^ 308) 1) (Demo.q 101 1)
           (Demo.q 401 2) (Demo.q 1 1) (Demo.q 1 1) (Demo.q 0 1) self) = Ok a /\
    fst (Machine.evaluate Demo64.libm (Demo64.flat (Demo.q 1 2))
           (Fp.mul Machine.f64 Machine.c_two (Demo64.d (10 ^ 308) 1))
           (Demo.q 101 1)
           (Demo.q 401 2) (Demo.q 1 1) (Demo.q 1 1) (Demo.q 0 1) self) = Ok a2 /\
    a2 = [[PInf; PInf; PInf]; [PInf; PInf; PInf]] /\
    forallb (forallb is_finite) (Machine.rmul_scalar2 Machine.f64 Machine.c_two a)
      = true /\
    ~ Forall2 (Forall2 Machine.doubles) a a2.
Proof.
  do 3 eexists. split; [vm_compute; reflexivity|].
  split; [vm_compute; reflexivity|].
  split; [vm_compute; reflexivity|].
  split; [vm_compute; reflexivity|].
  split; [reflexivity|].
  split; [vm_compute; reflexivity|].
  intros H. inversion H as [|r r2 ? ? Hr _]; subst.
  inversion Hr as [|x y ? ? Hx _]; subst.
  vm_compute in Hx. discriminate Hx.
Qed.

(** C2, as the code has it.  For a [rotation_radians] that is not an
    infinity, [prf_to_detector] and [evaluate] give the result of the call
    with [rotation_radians = 0], and leave the object in the same state:
    [rot_col] and [rot_row] are never used. *)
Theorem rotation_does_not_influence_the_model :
  forall (lm : Prf.Libm) (fp : Scipy.Fitpack)
         (flux centroid_col centroid_row stretch_col stretch_row
            rotation_radians : float) (self : Prf.KeplerPRF),
    is_inf rotation_radians = false ->
    Prf.prf_to_detector lm fp flux centroid_col centroid_row stretch_col
      stretch_row rotation_radians self =
    Prf.prf_to_detector lm fp flux centroid_col centroid_row stretch_col
      stretch_row (Fin (Q2Qc 0)) self /\
    Prf.evaluate lm fp flux centroid_col centroid_row stretch_col
      stretch_row rotation_radians self =
    Prf.evaluate lm fp flux centroid_col centroid_row stretch_col
      stretch_row (Fin (Q2Qc 0)) self.
Proof.
  intros lm fp flux cc cr sc sr rot self Hrot. unfold Prf.evaluate.
  assert (E : Prf.prf_to_detector lm fp flux cc cr sc sr rot self =
              Prf.prf_to_detector lm fp flux cc cr sc sr (Fin (Q2Qc 0)) self).
  { rewrite !prf_to_detector_steps.
    destruct rot; try discriminate Hrot; reflexivity. }
  split; exact E.
Qed.

Lemma rotation_does_not_influence_the_model_witness :
  exists self,
    Demo.model_on Demo.host = Ok self /\
    Prf.evaluate Demo.libm Demo.fitpack (Demo.q 7 1) (Demo.q 101 1)
      (Demo.q 401 2) (Demo.q 1 1) (Demo.q 1 1) NaN self =
    Prf.evaluate Demo.libm Demo.fitpack (Demo.q 7 1) (Demo.q 101 1)
      (Demo.q 401 2) (Demo.q 1 1) (Demo.q 1 1) (Fin (Q2Qc 0)) self.
Proof.
  eexists. split; [vm_compute; reflexivity|].
  apply rotation_does_not_influence_the_model. reflexivity.
Defined.

(** C2 as stated fails: at an infinite [rotation_radians] the call raises
    [ValueError] ([math.cos] has no value there), while the call with
    [rotation_radians = 0] returns an array. *)
Lemma infinite_rotation_raises :
  exists self a,
    Demo.model_on Demo.host = Ok self /\
    fst (Prf.prf_to_detector Demo.libm Demo.fitpack (Demo.q 7 1)
           (Demo.q 101 1) (Demo.q 401 2) (Demo.q 1 1) (Demo.q 1 1)
           (Fin (Q2Qc 0)) self) = Ok a /\
    fst (Prf.prf_to_detector Demo.libm Demo.fitpack (Demo.q 7 1)
           (Demo.q 101 1) (Demo.q 401 2) (Demo.q 1 1) (Demo.q 1 1)
           PInf self) = Raise ValueError.
Proof.
  do 2 eexists.
  split; [vm_compute; reflexivity|].
  split; vm_compute; reflexivity.
Qed.


(** C5, as the code has it.  On a model built by [__init__] for a
    footprint with at least one row and one column, at a [column] and a
    [row] that are multiples of [2^-t] for some [t >= 1] with
    [(|column| + cols + 1) * 2^t < 2^53] and the same for the rows; for
    centroids of magnitude at most [2^511], stretches from 0 to [2^511],
    any flux and any finite rotation, [evaluate] returns an array, and its
    shape is the model's [shape]: [rows] rows of [cols] elements each. *)
Theorem evaluate_returns_the_footprint_shape :
  forall (lm : Machine.Libm) (nm : Machine.Numerics) (fp : Scipy.Fitpack)
         (host : Prf.Host) (channel : Z) (shape : Z * Z) (column row : Qc)
         (dir : string) (self : Prf.KeplerPRF) (t mc mr : Z) (flux : float)
         (centroid_col centroid_row stretch_col stretch_row
            rotation_radians : Qc),
    Machine.__init__ lm nm fp host channel shape (Fin column) (Fin row) dir
      = Ok self ->
    (1 <= fst shape)%Z -> (1 <= snd shape)%Z ->
    (1 <= t)%Z -> scaled t column mc -> scaled t row mr ->
    (Z.abs mc + (snd shape + 1) * 2 ^ t < 2 ^ 53)%Z ->
    (Z.abs mr + (fst shape + 1) * 2 ^ t < 2 ^ 53)%Z ->
    (Qabs centroid_col <= pow2 511)%Q -> (Qabs centroid_row <= pow2 511)%Q ->
    (0 <= stretch_col)%Q -> (stretch_col <= pow2 511)%Q ->
    (0 <= stretch_row)%Q -> (stretch_row <= pow2 511)%Q ->
    exists a,
      fst (Machine.evaluate lm fp flux (Fin centroid_col) (Fin centroid_row)
             (Fin stretch_col) (Fin stretch_row) (Fin rotation_radians) self)
        = Ok a /\
      Np.shape a = (Z.to_nat (fst (Prf.shape self)),
                    Z.to_nat (snd (Prf.shape self))) /\
      Np.has_shape (Np.shape a) a = true.
Proof.
  intros lm nm fp host channel [rows cols] column row dir self t mc mr flux
         cc cr sc sr rot Hinit Hrows Hcols Ht Hc Hr Bc Br Hcc Hcr Hsc Hsc' Hsr Hsr'.
  simpl in Hrows, Hcols, Bc, Br.
  apply machine_init_axes in Hinit. destruct Hinit as (Ec & Er & Hsh).
  simpl in Ec, Er.
  rewrite (footprint_axis_grid t mc cols column Ht Hc) in Ec by (lia || assumption).
  rewrite (footprint_axis_grid t mr rows row Ht Hr) in Er by (lia || assumption).
  injection Ec as Ec. injection Er as Er.
  pose proof (offsets_pass t mc cols column Ht Hc ltac:(lia) Bc cc sc Hcc Hsc Hsc') as Pc.
  pose proof (offsets_pass t mr rows row Ht Hr ltac:(lia) Br cr sr Hcr Hsr Hsr') as Pr.
  rewrite Ec in Pc. rewrite Er in Pr.
  assert (Lc : length (Prf.col_coord self) = Z.to_nat cols)
    by (rewrite <- Ec; now rewrite length_map, length_seq).
  assert (Lr : length (Prf.row_coord self) = Z.to_nat rows)
    by (rewrite <- Er; now rewrite length_map, length_seq).
  rewrite Hsh. simpl fst. simpl snd.
  destruct (Z.to_nat rows) as [|n] eqn:En; [lia|].
  destruct (Z.to_nat cols) as [|m] eqn:Em; [lia|].
  unfold Machine.evaluate. rewrite machine_prf_to_detector_steps.
  cbn [Machine.math_cos Machine.math_sin].
  destruct (machine_call_shape fp (Prf.interpolate self)
              (Machine.mul_scalar Machine.f64
                 (Machine.sub_scalar Machine.f64 (Prf.row_coord self) (Fin cr))
                 (Fin sr))
              (Machine.mul_scalar Machine.f64
                 (Machine.sub_scalar Machine.f64 (Prf.col_coord self) (Fin cc))
                 (Fin sc)) n m) as (z & Hz & Lz & Rz).
  - unfold Machine.mul_scalar, Machine.sub_scalar. now rewrite !length_map.
  - unfold Machine.mul_scalar, Machine.sub_scalar. now rewrite !length_map.
  - exact Pr.
  - exact Pc.
  - rewrite Hz.
    destruct (Prf.row_coord self) as [|r0 rs]; [discriminate Lr|].
    destruct (Prf.col_coord self) as [|c0 cs]; [discriminate Lc|].
    cbn [getitem nth_error Machine.sub_scalar map fst].
    exists (Machine.rmul_scalar2 Machine.f64 flux z). split; [reflexivity|].
    assert (L : length (Machine.rmul_scalar2 Machine.f64 flux z) = S n)
      by (unfold Machine.rmul_scalar2; now rewrite length_map).
    assert (R : forallb (fun r => (length r =? S m)%nat)
                  (Machine.rmul_scalar2 Machine.f64 flux z) = true).
    { unfold Machine.rmul_scalar2. rewrite forallb_forall. intros r' Hr'.
      apply in_map_iff in Hr'. destruct Hr' as (r1 & <- & Hr1).
      rewrite length_map. rewrite forallb_forall in Rz. now apply Rz. }
    assert (Sh : Np.shape (Machine.rmul_scalar2 Machine.f64 flux z) = (S n, S m)).
    { unfold Np.shape. rewrite L. f_equal.
      destruct (Machine.rmul_scalar2 Machine.f64 flux z) as [|r1 a'];
        [discriminate L|].
      simpl in R. apply andb_prop in R. destruct R as [R _].
      now apply Nat.eqb_eq in R. }
    split; [exact Sh|].
    rewrite Sh. unfold Np.has_shape. cbn [fst snd].
    now rewrite L, Nat.eqb_refl, R.
Qed.

Lemma evaluate_returns_the_footprint_shape_witness :
  exists self a,
    Demo64.model_at (Demo.q 100 1) (Demo.q 200 1) Demo.shape = Ok self /\
    fst (Machine.evaluate Demo64.libm Demo.fitpack (Demo.q 7 1) (Demo.q 101 1)
           (Demo.q 401 2) (Demo.q 1 1) (Demo.q 1 1) (Demo.q 0 1) self)
      = Ok a /\
    Np.shape a = (2%nat, 3%nat).
Proof.
  edestruct evaluate_returns_the_footprint_shape
    with (lm := Demo64.libm) (nm := Demo64.numerics) (fp := Demo.fitpack)
         (host := Demo64.host) (channel := 42%Z) (shape := Demo.shape)
         (column := Q2Qc 100) (row := Q2Qc 200) (dir := "prf"%string)
         (t := 1%Z) (mc := 200%Z) (mr := 400%Z) (flux := Demo.q 7 1)
         (centroid_col := Q2Qc 101) (centroid_row := Q2Qc (401 # 2))
         (stretch_col := Q2Qc 1) (stretch_row := Q2Qc 1)
         (rotation_radians := Q2Qc 0)
    as (a & Ha & Hs & _).
  - vm_compute. reflexivity.
  - simpl. lia.
  - simpl. lia.
  - lia.
  - reflexivity.
  - reflexivity.
  - simpl. lia.
  - simpl. lia.
  - apply Qle_bool_iff. vm_compute. reflexivity.
  - apply Qle_bool_iff. vm_compute. reflexivity.
  - apply Qle_bool_iff. reflexivity.
  - apply Qle_bool_iff. vm_compute. reflexivity.
  - apply Qle_bool_iff. reflexivity.
  - apply Qle_bool_iff. vm_compute. reflexivity.
  - eexists. exists a. split; [vm_compute; reflexivity|].
    split; [exact Ha | exact Hs].
Defined.

(** C5 as stated fails.  At the column 2.9 a footprint of 2 rows and 3
    columns gets an axis of 4 pixels, and [evaluate] returns an array of
    shape (2, 4); with a negative stretch the offsets handed to the
    interpolant are decreasing, and with the finite stretch 1e308 they
    overflow to infinities: [RectBivariateSpline.__call__] rejects both
    with [ValueError]; and on a footprint without rows the method raises
    [IndexError] at [delta_row[0]]. *)
Lemma evaluate_can_miss_the_footprint_shape :
  (exists self a,
     Demo64.model_at (Demo64.d 29 10) (Demo.q 200 1) Demo.shape = Ok self /\
     Prf.shape self = (2%Z, 3%Z) /\
     fst (Machine.evaluate Demo64.libm Demo.fitpack (Demo.q 7 1) (Demo.q 4 1)
            (Demo.q 401 2) (Demo.q 1 1) (Demo.q 1 1) (Demo.q 0 1) self)
       = Ok a /\
     Np.shape a = (2%nat, 4%nat)) /\
  (exists self,
     Demo64.model_at (Demo.q 100 1) (Demo.q 200 1) Demo.shape = Ok self /\
     fst (Machine.evaluate Demo64.libm Demo.fitpack (Demo.q 7 1) (Demo.q 101 1)
            (Demo.q 401 2) (Demo.q 1 1) (Demo.q (-1) 1) (Demo.q 0 1) self)
       = Raise ValueError) /\
  (exists self,
     Demo64.model_at (Demo.q 100 1) (Demo.q 200 1) Demo.shape = Ok self /\
     is_finite (Demo64.d (10 ^ 308) 1) = true /\
     fst (Machine.evaluate Demo64.libm Demo.fitpack (Demo.q 7 1) (Demo.q 0 1)
            (Demo.q 0 1) (Demo64.d (10 ^ 308) 1) (Demo.q 1 1) (Demo.q 0 1) self)
       = Raise ValueError) /\
  (exists self,
     Demo64.model_at (Demo.q 100 1) (Demo.q 200 1) (0%Z, 3%Z) = Ok self /\
     fst (Machine.evaluate Demo64.libm Demo.fitpack (Demo.q 7 1) (Demo.q 101 1)
            (Demo.q 401 2) (Demo.q 1 1) (Demo.q 1 1) (Demo.q 0 1) self)
       = Raise IndexError).
Proof.
  split; [|split; [|split]].
  - do 2 eexists. split; [vm_compute; reflexivity|].
    split; [reflexivity|]. split; vm_compute; reflexivity.
  - eexists. split; [vm_compute; reflexivity|]. vm_compute. reflexivity.
  - eexists. split; [vm_compute; reflexivity|].
    split; vm_compute; reflexivity.
  - eexists. split; [vm_compute; reflexivity|]. vm_compute. reflexivity.
Qed.

(* ------------------------------------------------------------------ *)
(** ** Loading the calibration file (lines 167-198) *)

Section Loader.

Context (host : Prf.Host) (path : string) (file : Fits.HDUList).

Hypothesis Hopen : Prf.pyfits_open host path = Ok file.

Lemma header_get_raise (h : list (string * float)) (key : string) (e : exn) :
  Fits.header_get h key = Raise e -> e = KeyError.
Proof.
  induction h as [|[k v] h IH]; simpl.
  - now intros [= <-].
  - destruct (String.eqb k key); [discriminate | exact IH].
Qed.

Lemma read_missing (ext : nat) :
  nth_error file ext = None ->
  Prf._read_prf_calibration_file host path ext = Raise IndexError.
Proof.
  intros H. unfold Prf._read_prf_calibration_file, getitem.
  rewrite Hopen. cbn [Py.bind]. now rewrite H.
Qed.

Lemma read_lacking (ext : nat) (h : Fits.HDU) :
  nth_error file ext = Some h -> Prf.has_cards h = false ->
  Prf._read_prf_calibration_file host path ext = Raise KeyError.
Proof.
  intros H Hc. unfold Prf._read_prf_calibration_file, getitem.
  rewrite Hopen. cbn [Py.bind]. rewrite H. cbn [Py.bind].
  unfold Prf.has_cards in Hc. simpl in Hc.
  destruct (Fits.header_get (Fits.header h) "CRVAL1P") eqn:E1;
    [|now rewrite (header_get_raise _ _ _ E1)].
  destruct (Fits.header_get (Fits.header h) "CRVAL2P") eqn:E2;
    [|now rewrite (header_get_raise _ _ _ E2)].
  destruct (Fits.header_get (Fits.header h) "CDELT1P") eqn:E3;
    [|now rewrite (header_get_raise _ _ _ E3)].
  destruct (Fits.header_get (Fits.header h) "CDELT2P") eqn:E4;
    [|now rewrite (header_get_raise _ _ _ E4)].
  discriminate Hc.
Qed.

Lemma read_complete (ext : nat) (h : Fits.HDU) :
  nth_error file ext = Some h -> Prf.has_cards h = true ->
  exists s, Prf._read_prf_calibration_file host path ext = Ok s /\
            Prf.prfn s = Fits.data h.
Proof.
  intros H Hc. unfold Prf._read_prf_calibration_file, getitem.
  rewrite Hopen. cbn [Py.bind]. rewrite H. cbn [Py.bind].
  unfold Prf.has_cards in Hc. simpl in Hc.
  destruct (Fits.header_get (Fits.header h) "CRVAL1P"); [|discriminate Hc].
  destruct (Fits.header_get (Fits.header h) "CRVAL2P"); [|discriminate Hc].
  destruct (Fits.header_get (Fits.header h) "CDELT1P"); [|discriminate Hc].
  destruct (Fits.header_get (Fits.header h) "CDELT2P"); [|discriminate Hc].
  simpl. eauto.
Qed.


(** An extension is missing, and those before it are complete. *)
Lemma read_images_index (range : list nat) :
  (forall i h, In i range -> nth_error file (i + 1) = Some h ->
               Prf.has_cards h = true) ->
  (exists i, In i range /\ nth_error file (i + 1) = None) ->
  Prf.read_prf_images host path range = Raise IndexError.
Proof.
  induction range as [|i range IH]; intros Hall (j & Hj & Hnone).
  - destruct Hj.
  - simpl. destruct (nth_error file (i + 1)) as [h|] eqn:E.
    + destruct (read_complete _ h E) as (s & -> & _).
      { apply (Hall i); [now left | exact E]. }
      simpl. rewrite IH; trivial.
      * intros i' h' Hi'. apply Hall. now right.
      * destruct Hj as [<-|Hj]; [congruence|eauto].
    + now rewrite (read_missing _ E).
Qed.

(** Every extension is there, and one lacks a card. *)
Lemma read_images_key (range : list nat) :
  (forall i, In i range -> nth_error file (i + 1) <> None) ->
  (exists i h, In i range /\ nth_error file (i + 1) = Some h /\
               Prf.has_cards h = false) ->
  Prf.read_prf_images host path range = Raise KeyError.
Proof.
  induction range as [|i range IH]; intros Hall (j & hj & Hj & Hsome & Hc).
  - destruct Hj.
  - simpl. destruct (nth_error file (i + 1)) as [h|] eqn:E.
    + destruct (Prf.has_cards h) eqn:Hh.
      * destruct (read_complete _ h E Hh) as (s & -> & _).
        simpl. rewrite IH; trivial.
        -- intros i' Hi'. apply Hall. now right.
        -- destruct Hj as [<-|Hj]; [congruence|eauto 6].
      * now rewrite (read_lacking _ h E Hh).
    + exfalso. apply (Hall i); [now left | exact E].
Qed.

(** One extension is missing or lacks a card. *)
Lemma read_images_fail (range : list nat) :
  (exists i, In i range /\
     (nth_error file (i + 1) = None \/
      exists h, nth_error file (i + 1) = Some h /\ Prf.has_cards h = false)) ->
  exists e, Prf.read_prf_images host path range = Raise e.
Proof.
  induction range as [|i range IH]; intros (j & Hj & Hbad).
  - destruct Hj.
  - simpl. destruct (nth_error file (i + 1)) as [h|] eqn:E.
    + destruct (Prf.has_cards h) eqn:Hh.
      * destruct (read_complete _ h E Hh) as (s & -> & _). simpl.
        destruct IH as [e ->]; [|simpl; eauto].
        destruct Hj as [<-|Hj]; [|eauto].
        destruct Hbad as [Hbad|(h' & Hbad & Hc')]; congruence.
      * rewrite (read_lacking _ h E Hh). simpl. eauto.
    + rewrite (read_missing _ E). simpl. eauto.
Qed.

End Loader.

Section Construction.

Context (lm : Prf.Libm) (fp : Scipy.Fitpack) (host : Prf.Host).

Lemma __init___no_match channel shape column row dir mo :
  Prf.channel_to_module_output host channel = Ok mo ->
  Prf.glob host (Prf.prf_file_path dir (fst mo) (snd mo)) = [] ->
  Prf.__init__ lm fp host channel shape column row dir = Raise IndexError.
Proof.
  intros Hmo Hglob. unfold Prf.__init__, Prf._prepare_prf.
  rewrite Hmo. cbn [Py.bind]. now rewrite Hglob.
Qed.

Lemma __init___read_raise channel shape column row dir mo prffile rest e :
  Prf.channel_to_module_output host channel = Ok mo ->
  Prf.glob host (Prf.prf_file_path dir (fst mo) (snd mo)) = prffile :: rest ->
  Prf.read_prf_images host prffile (seq 0 Prf.n_hdu) = Raise e ->
  Prf.__init__ lm fp host channel shape column row dir = Raise e.
Proof.
  intros Hmo Hglob Hread. unfold Prf.__init__, Prf._prepare_prf.
  rewrite Hmo. cbn [Py.bind]. rewrite Hglob. cbn [getitem nth_error Py.bind].
  now rewrite Hread.
Qed.

End Construction.

(** C4, as the code has it.  Once the channel is resolved to a module and
    an output, construction fails and returns no model
    - with [IndexError] when no file matches the pattern;
    - with [IndexError] when the first matching file has fewer than five
      extensions after the primary unit and every extension it has holds
      the four cards;
    - with [KeyError] when the file has the five extensions and one of them
      lacks a card;
    - with some exception whenever an extension is missing or lacks a
      card. *)
Theorem construction_fails_on_bad_calibration :
  forall (lm : Prf.Libm) (fp : Scipy.Fitpack) (host : Prf.Host)
         (channel : Z) (shape : Z * Z) (column row : float) (dir : string)
         (mo : Z * Z),
    Prf.channel_to_module_output host channel = Ok mo ->
    (Prf.glob host (Prf.prf_file_path dir (fst mo) (snd mo)) = [] ->
     Prf.__init__ lm fp host channel shape column row dir
       = Raise IndexError) /\
    (forall prffile rest file,
       Prf.glob host (Prf.prf_file_path dir (fst mo) (snd mo))
         = prffile :: rest ->
       Prf.pyfits_open host prffile = Ok file ->
       ((length file < 6)%nat ->
        (forall i h, (1 <= i <= 5)%nat -> nth_error file i = Some h ->
                     Prf.has_cards h = true) ->
        Prf.__init__ lm fp host channel shape column row dir
          = Raise IndexError) /\
       ((6 <= length file)%nat ->
        (exists i h, (1 <= i <= 5)%nat /\ nth_error file i = Some h /\
                     Prf.has_cards h = false) ->
        Prf.__init__ lm fp host channel shape column row dir
          = Raise KeyError) /\
       ((length file < 6)%nat \/
        (exists i h, (1 <= i <= 5)%nat /\ nth_error file i = Some h /\
                     Prf.has_cards h = false) ->
        exists e,
          Prf.__init__ lm fp host channel shape column row dir = Raise e)).
Proof.
  intros lm fp host channel shape column row dir mo Hmo.
  split; [now apply __init___no_match|].
  intros prffile rest file Hglob Hopen.
  assert (R : forall i, In i (seq 0 Prf.n_hdu) <-> (1 <= i + 1 <= 5)%nat).
  { intros i. rewrite in_seq. unfold Prf.n_hdu. lia. }
  split; [|split].
  - intros Hlen Hcards.
    apply (__init___read_raise lm fp host _ _ _ _ _ mo prffile rest); trivial.
    apply (read_images_index host prffile file Hopen).
    + intros i h Hi. apply Hcards. now apply R.
    + exists 4%nat. split; [apply R; lia|]. apply nth_error_None. lia.
  - intros Hlen (i & h & Hi & Hh & Hc).
    apply (__init___read_raise lm fp host _ _ _ _ _ mo prffile rest); trivial.
    apply (read_images_key host prffile file Hopen).
    + intros j Hj. apply R in Hj. apply nth_error_Some. lia.
    + exists (i - 1)%nat, h. replace (i - 1 + 1)%nat with i by lia.
      split; [apply R; lia | now split].
  - intros Hbad.
    destruct (read_images_fail host prffile file Hopen (seq 0 Prf.n_hdu))
      as [e He].
    + destruct Hbad as [Hlen|(i & h & Hi & Hh & Hc)].
      * exists 4%nat. split; [apply R; lia|]. left. apply nth_error_None. lia.
      * exists (i - 1)%nat. replace (i - 1 + 1)%nat with i by lia.
        split; [apply R; lia|]. right. eauto.
    + exists e.
      now apply (__init___read_raise lm fp host _ _ _ _ _ mo prffile rest).
Qed.

Lemma construction_fails_on_bad_calibration_witness :
  Demo.model_on Demo.empty_host = Raise IndexError /\
  Demo.model_on (Demo.host_with [Demo.primary; Demo.hdu_of Demo.first])
    = Raise IndexError /\
  Demo.model_on
    (Demo.host_with (Demo.primary :: Fits.mkHDU Demo.ones [] :: tl Demo.extensions))
    = Raise KeyError.
Proof.
  pose proof (fun h => construction_fails_on_bad_calibration Demo.libm
                Demo.fitpack h 42%Z Demo.shape (Demo.q 100 1) (Demo.q 200 1)
                "prf"%string (13%Z, 2%Z)) as T.
  split; [|split].
  - apply (T Demo.empty_host); reflexivity.
  - eapply (T (Demo.host_with _));
      [reflexivity | reflexivity | reflexivity | simpl; lia |].
    intros i h Hi Hn.
    assert (Hlt : (i < length [Demo.primary; Demo.hdu_of Demo.first])%nat)
      by (apply nth_error_Some; rewrite Hn; discriminate).
    simpl in Hlt.
    assert (i = 1%nat) as -> by lia.
    injection Hn as <-. reflexivity.
  - eapply (T (Demo.host_with _));
      [reflexivity | reflexivity | reflexivity | simpl; lia |].
    exists 1%nat. eexists. split; [lia|]. split; reflexivity.
Defined.

(** C4 as stated fails: the exceptions raised are [IndexError] and
    [KeyError]; the module defines no [CalibrationNotFound] and no
    [CalibrationFormatError]. *)
Lemma calibration_errors_are_builtin_exceptions :
  Prf.glob Demo.empty_host (Prf.prf_file_path "prf" 13 2) = [] /\
  Demo.model_on Demo.empty_host = Raise IndexError /\
  exn_name IndexError <> "CalibrationNotFound"%string /\
  Demo.model_on (Demo.host_with [Demo.primary; Demo.hdu_of Demo.first])
    = Raise IndexError /\
  exn_name IndexError <> "CalibrationFormatError"%string /\
  Demo.model_on
    (Demo.host_with (Demo.primary :: Fits.mkHDU Demo.ones [] :: tl Demo.extensions))
    = Raise KeyError /\
  exn_name KeyError <> "CalibrationFormatError"%string.
Proof.
  repeat split; try (vm_compute; reflexivity); discriminate.
Qed.

(* ------------------------------------------------------------------ *)
(** ** The interpolant's axes (lines 200-207 and 222) *)

Section SplineAxes.

Open Scope Qc_scope.

Lemma ceiling_count (n : nat) : Qceiling (of_nat n + half - half)%Qc = Z.of_nat n.
Proof.
  transitivity (Qceiling (inject_Z (Z.of_nat n))); [|apply Qceiling_Z].
  apply Qceiling_comp. qc2q. ring.
Qed.

(** Lines 200-203 for one axis of [n] points: the points
    [(i + 0.5 - n/2) * cdelt]. *)
Lemma prf_axis_eq (n : nat) (cdelt : float) :
  Prf.prf_axis n cdelt =
  Ok (Np.mul_scalar
        (Np.sub_scalar (map (fun i => Fin (half + of_nat i)) (seq 0 n))
           (Fin (of_nat n / two))) cdelt).
Proof.
  unfold Prf.prf_axis, Np.arange. cbn [Py.bind].
  rewrite ceiling_count, Nat2Z.id. unfold Np.size.
  now rewrite length_map, length_seq.
Qed.


Lemma add1_length (a b : Np.array1) :
  length (Np.add1 a b) = Nat.min (length a) (length b).
Proof.
  revert b. induction a as [|x a IH]; intros [|y b]; simpl; auto.
Qed.



Context (lm : Prf.Libm).


Lemma np_array_inv (read samples : list Prf.Sample) (first : Prf.Sample) :
  Prf.np_array read = Ok samples -> getitem samples 0 = Ok first ->
  samples = read /\
  forall s, In s samples -> length (Prf.prfn s) = length (Prf.prfn first).
Proof.
  unfold Prf.np_array. intros H Hfirst.
  apply bind_ok_inv in H. destruct H as (f & Hf & H).
  destruct (forallb _ read) eqn:E; [|discriminate H].
  injection H as <-. split; [reflexivity|].
  assert (f = first) as -> by congruence.
  intros s Hs. rewrite forallb_forall in E. specialize (E s Hs).
  unfold Np.has_shape in E. apply andb_prop in E. destruct E as [E _].
  now apply Nat.eqb_eq in E.
Qed.


End SplineAxes.

Section SplineConstructor.

Context (fp : Scipy.Fitpack).



End SplineConstructor.

Section FirstSample.

Context (host : Prf.Host).

Lemma first_sample_read (path : string) (read : list Prf.Sample) :
  Prf.read_prf_images host path (seq 0 Prf.n_hdu) = Ok read ->
  exists s ss, read = s :: ss /\
               Prf._read_prf_calibration_file host path 1 = Ok s.
Proof.
  simpl. intros H.
  apply bind_ok_inv in H. destruct H as (s & Hs & H).
  apply bind_ok_inv in H. destruct H as (ss & _ & H).
  injection H as <-. eauto.
Qed.

End FirstSample.



(* ------------------------------------------------------------------ *)
(** ** [KeplerPRFPhotometry.do_photometry] (lines 81-97) *)

Section Photometry.

Context {Model Loss : Type} (c : Phot.Collaborators Model Loss).

Lemma do_photometry_without_guesses tpf self :
  Phot.do_photometry Model Loss c tpf None self = (Raise NameError, self).
Proof. reflexivity. Qed.

Lemma do_photometry_with_guesses tpf g self :
  Phot.do_photometry Model Loss c tpf (Some g) self =
  match Phot.frames Model Loss c tpf (seq 0 (length (Phot.time tpf))) g self
  with
  | (Ok _, self') => (Raise AttributeError, self')
  | (Raise e, self') => (Raise e, self')
  end.
Proof.
  unfold Phot.do_photometry, Py.mbind, Py.ret, Py.lift.
  destruct (Phot.frames Model Loss c tpf _ g self) as [[g'|e] self'];
    reflexivity.
Qed.

End Photometry.

(** C3.  [do_photometry] never returns normally.  Without
    [initial_guesses] it raises [NameError] before anything else happens
    (the name [get_inital_guesses] is not bound), and the object is
    unchanged.  With [initial_guesses], either the loop over the frames
    raises and that exception propagates, or the loop completes and
    [self.opt_params.reshape] raises [AttributeError], [self.opt_params]
    being a list. *)
Theorem do_photometry_always_raises :
  forall (Model Loss : Type) (c : Phot.Collaborators Model Loss)
         (tpf : Phot.TargetPixelFile) (initial_guesses : option Phot.params)
         (self : Phot.KeplerPRFPhotometry Model Loss),
    (exists e,
       fst (Phot.do_photometry Model Loss c tpf initial_guesses self)
         = Raise e) /\
    (initial_guesses = None ->
     Phot.do_photometry Model Loss c tpf initial_guesses self
       = (Raise NameError, self)) /\
    (forall g,
       initial_guesses = Some g ->
       match Phot.frames Model Loss c tpf
               (seq 0 (length (Phot.time tpf))) g self with
       | (Ok _, self') =>
           Phot.do_photometry Model Loss c tpf initial_guesses self
             = (Raise AttributeError, self')
       | (Raise e, self') =>
           Phot.do_photometry Model Loss c tpf initial_guesses self
             = (Raise e, self')
       end).
Proof.
  intros Model Loss c tpf [g|] self.
  - pose proof (do_photometry_with_guesses c tpf g self) as H.
    split; [|split].
    + rewrite H.
      destruct (Phot.frames Model Loss c tpf _ g self) as [[g'|e] self'];
        simpl; eauto.
    + discriminate.
    + intros g0 [= <-].
      destruct (Phot.frames Model Loss c tpf _ g self) as [[g'|e] self'];
        exact H.
  - split; [|split].
    + exists NameError. reflexivity.
    + reflexivity.
    + discriminate.
Qed.

Lemma do_photometry_always_raises_witness :
  Phot.do_photometry unit unit Demo.collaborators Demo.tpf None
    Demo.photometry = (Raise NameError, Demo.photometry) /\
  exists self',
    Phot.do_photometry unit unit Demo.collaborators Demo.tpf
      (Some Demo.guesses) Demo.photometry = (Raise AttributeError, self') /\
    Phot.opt_params unit unit self' = [Demo.guesses; Demo.guesses].
Proof.
  split.
  - apply (do_photometry_always_raises unit unit Demo.collaborators Demo.tpf
             None Demo.photometry). reflexivity.
  - destruct (do_photometry_always_raises unit unit Demo.collaborators
                Demo.tpf (Some Demo.guesses) Demo.photometry)
      as (_ & _ & H).
    specialize (H Demo.guesses eq_refl). cbv in H.
    eexists. split; [exact H | reflexivity].
Defined.

(* ================================================================== *)
(** * Further properties of the module *)

(* ------------------------------------------------------------------ *)
(** ** What [evaluate] can raise, and the zero flux *)

Section EvaluateErrors.

Context (lm : Prf.Libm) (fp : Scipy.Fitpack).

Lemma call_raises_value_error s x y e :
  Scipy.call fp s x y = Raise e -> e = ValueError.
Proof.
  unfold Scipy.call.
  destruct ((Np.size x =? 0)%nat || (Np.size y =? 0)%nat); [discriminate|].
  destruct ((2 <=? Np.size x)%nat && negb (Scipy.nondecreasing x));
    [now intros [= <-]|].
  destruct ((2 <=? Np.size y)%nat && negb (Scipy.nondecreasing y));
    [now intros [= <-] | discriminate].
Qed.

Lemma trig_raises_value_error x e :
  (Prf.math_cos lm x = Raise e -> e = ValueError) /\
  (Prf.math_sin lm x = Raise e -> e = ValueError).
Proof.
  destruct x; simpl; split; intros H; try discriminate H;
    now injection H as <-.
Qed.

Lemma getitem_0_raise {A : Type} (f : A -> float) (xs : list A) e :
  getitem (map f xs) 0 = Raise e -> e = IndexError /\ xs = [].
Proof.
  destruct xs; unfold getitem; simpl; [|discriminate].
  intros [= <-]. auto.
Qed.

(** The values of the interpolant on a grid, when the call succeeds. *)
Lemma call_ok_values s x y z :
  Scipy.call fp s x y = Ok z ->
  forall r v, In r z -> In v r ->
    v = zero \/ exists xi yj, v = Scipy.bispev fp s xi yj.
Proof.
  unfold Scipy.call.
  destruct ((Np.size x =? 0)%nat || (Np.size y =? 0)%nat).
  - intros [= <-] r v Hr Hv. left.
    unfold Np.zeros in Hr. apply repeat_spec in Hr. subst r.
    unfold Np.zeros1 in Hv. now apply repeat_spec in Hv.
  - destruct ((2 <=? Np.size x)%nat && negb (Scipy.nondecreasing x));
      [discriminate|].
    destruct ((2 <=? Np.size y)%nat && negb (Scipy.nondecreasing y));
      [discriminate|].
    intros [= <-] r v Hr Hv. right.
    apply in_map_iff in Hr. destruct Hr as (xi & <- & _).
    apply in_map_iff in Hv. destruct Hv as (yj & <- & _). eauto.
Qed.

End EvaluateErrors.

(** X1.  When [evaluate] raises, the exception is [ValueError] or
    [IndexError]; it is [IndexError] only on a model whose [row_coord] or
    [col_coord] is empty. *)
Theorem evaluate_raises_value_or_index_error :
  forall (lm : Prf.Libm) (fp : Scipy.Fitpack)
         (flux centroid_col centroid_row stretch_col stretch_row
            rotation_radians : float) (self : Prf.KeplerPRF) (e : exn),
    fst (Prf.evaluate lm fp flux centroid_col centroid_row stretch_col
           stretch_row rotation_radians self) = Raise e ->
    (e = ValueError \/ e = IndexError) /\
    (e = IndexError -> Prf.row_coord self = [] \/ Prf.col_coord self = []).
Proof.
  intros lm fp flux cc cr sc sr rot self e. unfold Prf.evaluate.
  rewrite prf_to_detector_steps.
  destruct (Prf.math_cos lm rot) eqn:Ec.
  2:{ simpl. intros [= <-].
      rewrite (proj1 (trig_raises_value_error lm rot _) Ec).
      split; [now left | discriminate]. }
  destruct (Prf.math_sin lm rot) eqn:Es.
  2:{ simpl. intros [= <-].
      rewrite (proj2 (trig_raises_value_error lm rot _) Es).
      split; [now left | discriminate]. }
  destruct (getitem (Np.sub_scalar (Prf.row_coord self) cr) 0) eqn:Er.
  2:{ simpl. intros [= <-]. apply getitem_0_raise in Er.
      destruct Er as [-> Er]. split; [now right | now left]. }
  destruct (getitem (Np.sub_scalar (Prf.col_coord self) cc) 0) eqn:El.
  2:{ simpl. intros [= <-]. apply getitem_0_raise in El.
      destruct El as [-> El]. split; [now right | now right]. }
  destruct (Scipy.call fp (Prf.interpolate self) _ _) eqn:Ez;
    [discriminate|].
  simpl. intros [= <-]. rewrite (call_raises_value_error fp _ _ _ _ Ez).
  split; [now left | discriminate].
Qed.

Lemma evaluate_raises_value_or_index_error_witness :
  exists self,
    Demo.model_on Demo.host = Ok self /\
    fst (Prf.evaluate Demo.libm Demo.fitpack (Demo.q 7 1) (Demo.q 101 1)
           (Demo.q 401 2) (Demo.q 1 1) (Demo.q (-1) 1) (Demo.q 0 1) self)
      = Raise ValueError /\
    (ValueError = ValueError \/ ValueError = IndexError).
Proof.
  eexists. split; [vm_compute; reflexivity|].
  match goal with
  | |- ?A = _ /\ _ =>
      assert (E : A = Raise ValueError) by (vm_compute; reflexivity)
  end.
  split; [exact E|].
  exact (proj1 (evaluate_raises_value_or_index_error _ _ _ _ _ _ _ _ _ _ E)).
Defined.

Section MachineZeroFlux.

Context (fp : Scipy.Fitpack).



End MachineZeroFlux.



(* ------------------------------------------------------------------ *)
(** ** The axes of the interpolant (lines 200-203) *)

Section PrfAxis.

Open Scope Qc_scope.

Lemma of_nat_add (i j : nat) : of_nat (i + j) = of_nat i + of_nat j.
Proof.
  qc2q. rewrite Nat2Z.inj_add, inject_Z_plus. ring.
Qed.

(** One axis with a finite pixel scale, element by element. *)
Lemma prf_axis_fin (n : nat) (c : Qc) :
  Prf.prf_axis n (Fin c) =
  Ok (map (fun i => Fin ((half + of_nat i + - (of_nat n / two)) * c))
          (seq 0 n)).
Proof.
  rewrite prf_axis_eq. unfold Np.mul_scalar, Np.sub_scalar.
  now rewrite !map_map.
Qed.

End PrfAxis.

(** X3.  For a finite pixel scale [cdelt] and [n] grid points, the axis
    built by lines 200-203 has [n] points, point [i] is
    [(i + 0.5 - n/2) * cdelt], neighbours are [cdelt] apart, and the axis is
    symmetric about zero: points [i] and [n - 1 - i] add up to zero. *)
Theorem prf_axis_is_centred_on_zero :
  forall (n : nat) (cdelt : Qc),
    exists a,
      Prf.prf_axis n (Fin cdelt) = Ok a /\
      length a = n /\
      (forall i, (i < n)%nat ->
         nth_error a i
         = Some (Fin ((of_nat i + half - of_nat n / two) * cdelt)%Qc)) /\
      (forall i x y,
         nth_error a i = Some x -> nth_error a (S i) = Some y ->
         fsub y x = Fin cdelt) /\
      (forall i j x y,
         (i + j + 1 = n)%nat ->
         nth_error a i = Some x -> nth_error a j = Some y ->
         fadd x y = zero).
Proof.
  intros n c. eexists. split; [apply prf_axis_fin|].
  rewrite length_map, length_seq. split; [reflexivity|]. split; [|split].
  - intros i Hi. rewrite nth_error_map_seq.
    apply Nat.ltb_lt in Hi. rewrite Hi. do 2 f_equal. ring.
  - intros i x y. rewrite !nth_error_map_seq.
    destruct (i <? n)%nat; [|discriminate].
    destruct (S i <? n)%nat; [|discriminate].
    intros [= <-] [= <-]. simpl. rewrite of_nat_S. f_equal. ring.
  - intros i j x y Hn. rewrite !nth_error_map_seq.
    destruct (i <? n)%nat; [|discriminate].
    destruct (j <? n)%nat; [|discriminate].
    intros [= <-] [= <-]. simpl. unfold zero. f_equal.
    rewrite <- Hn, !of_nat_add.
    replace (of_nat 1) with (half + half)%Qc
      by (apply Qc_is_canon; reflexivity).
    qc2q. field.
Qed.

(* ------------------------------------------------------------------ *)
(** ** What the loader reads (lines 167-176 and 197-198) *)

Section LoaderReads.

Context (host : Prf.Host).

Lemma read_ok_inv (path : string) (ext : nat) (s : Prf.Sample) :
  Prf._read_prf_calibration_file host path ext = Ok s ->
  exists file h,
    Prf.pyfits_open host path = Ok file /\ nth_error file ext = Some h.
Proof.
  unfold Prf._read_prf_calibration_file. intros H.
  apply bind_ok_inv in H. destruct H as (file & Hopen & H).
  apply bind_ok_inv in H. destruct H as (h & Hh & _).
  exists file, h. split; [exact Hopen|].
  unfold getitem in Hh. destruct (nth_error file ext); congruence.
Qed.

(** The sample read from an extension holds that extension's image and the
    values of its four cards. *)
Lemma read_ok_fields (path : string) (file : Fits.HDUList) (ext : nat)
  (h : Fits.HDU) (s : Prf.Sample) :
  Prf.pyfits_open host path = Ok file ->
  nth_error file ext = Some h ->
  Prf._read_prf_calibration_file host path ext = Ok s ->
  Prf.prfn s = Fits.data h /\
  Fits.header_get (Fits.header h) "CRVAL1P" = Ok (Prf.crval1p s) /\
  Fits.header_get (Fits.header h) "CRVAL2P" = Ok (Prf.crval2p s) /\
  Fits.header_get (Fits.header h) "CDELT1P" = Ok (Prf.cdelt1p s) /\
  Fits.header_get (Fits.header h) "CDELT2P" = Ok (Prf.cdelt2p s).
Proof.
  intros Hopen Hh. unfold Prf._read_prf_calibration_file, getitem.
  rewrite Hopen. cbn [Py.bind]. rewrite Hh. cbn [Py.bind].
  destruct (Fits.header_get (Fits.header h) "CRVAL1P"); [|discriminate].
  destruct (Fits.header_get (Fits.header h) "CRVAL2P"); [|discriminate].
  destruct (Fits.header_get (Fits.header h) "CDELT1P"); [|discriminate].
  destruct (Fits.header_get (Fits.header h) "CDELT2P"); [|discriminate].
  cbn [Py.bind]. intros H.
  assert (E : s = Prf.mkSample (Fits.data h) a a0 a1 a2) by congruence.
  rewrite E. simpl. auto.
Qed.

(** The loop returns one sample per index, in the order of the indices. *)
Lemma read_images_spec (path : string) (range : list nat) :
  forall samples,
    Prf.read_prf_images host path range = Ok samples ->
    length samples = length range /\
    forall k i, nth_error range k = Some i ->
      exists s, nth_error samples k = Some s /\
                Prf._read_prf_calibration_file host path (i + 1) = Ok s.
Proof.
  induction range as [|i0 range IH]; intros samples H.
  - simpl in H. injection H as <-. split; [reflexivity|].
    intros [|k] i; discriminate.
  - simpl in H.
    apply bind_ok_inv in H. destruct H as (s & Hs & H).
    apply bind_ok_inv in H. destruct H as (ss & Hss & H).
    injection H as <-. destruct (IH ss Hss) as [L N].
    split; [simpl; now rewrite L|].
    intros [|k] i; simpl.
    + intros [= <-]. eauto.
    + apply N.
Qed.

End LoaderReads.

Section MachineLoader.

Context (host : Prf.Host).

(** The loop returns one sample per index, in the order of the indices:
    what the loader read, with the four numbers stored as float32. *)
Lemma machine_read_images_spec (path : string) (range : list nat) :
  forall samples,
    Machine.read_prf_images host path range = Ok samples ->
    length samples = length range /\
    forall k i, nth_error range k = Some i ->
      exists s, nth_error samples k = Some (Machine.store s) /\
                Prf._read_prf_calibration_file host path (i + 1) = Ok s.
Proof.
  induction range as [|i0 range IH]; intros samples H.
  - simpl in H. injection H as <-. split; [reflexivity|].
    intros [|k] i; discriminate.
  - simpl in H.
    apply bind_ok_inv in H. destruct H as (s & Hs & H).
    apply bind_ok_inv in H. destruct H as (ss & Hss & H).
    injection H as <-. destruct (IH ss Hss) as [L N].
    split; [simpl; now rewrite L|].
    intros [|k] i; simpl.
    + intros [= <-]. eauto.
    + apply N.
Qed.

End MachineLoader.

(** X4.  When the loop of lines 197-198 succeeds on a file, it returns
    exactly five samples, and sample [i] (from 0) carries the image of
    extension [i + 1] and, for each of that extension's cards CRVAL1P,
    CRVAL2P, CDELT1P and CDELT2P, the float32 nearest to the card's
    value: the four numbers are assigned to elements of float32 arrays. *)
Theorem loader_returns_the_five_extensions :
  forall (host : Prf.Host) (path : string) (samples : list Prf.Sample),
    Machine.read_prf_images host path (seq 0 Prf.n_hdu) = Ok samples ->
    exists file,
      Prf.pyfits_open host path = Ok file /\
      length samples = 5%nat /\
      forall i, (i < 5)%nat ->
        exists h s crval1p crval2p cdelt1p cdelt2p,
          nth_error file (i + 1) = Some h /\
          nth_error samples i = Some s /\
          Prf.prfn s = Fits.data h /\
          Fits.header_get (Fits.header h) "CRVAL1P" = Ok crval1p /\
          Prf.crval1p s = Fp.rnd Machine.f32 crval1p /\
          Fits.header_get (Fits.header h) "CRVAL2P" = Ok crval2p /\
          Prf.crval2p s = Fp.rnd Machine.f32 crval2p /\
          Fits.header_get (Fits.header h) "CDELT1P" = Ok cdelt1p /\
          Prf.cdelt1p s = Fp.rnd Machine.f32 cdelt1p /\
          Fits.header_get (Fits.header h) "CDELT2P" = Ok cdelt2p /\
          Prf.cdelt2p s = Fp.rnd Machine.f32 cdelt2p.
Proof.
  intros host path samples H.
  destruct (machine_read_images_spec host path _ samples H) as [L N].
  rewrite length_seq in L.
  destruct (N 0%nat 0%nat eq_refl) as (s0 & _ & Hs0).
  destruct (read_ok_inv host path _ s0 Hs0) as (file & h0 & Hopen & _).
  exists file. split; [exact Hopen|]. split; [exact L|].
  intros i Hi.
  destruct (N i i) as (s & Hs & Hread).
  { rewrite nth_error_seq. apply Nat.ltb_lt in Hi.
    unfold Prf.n_hdu. now rewrite Hi. }
  destruct (read_ok_inv host path _ s Hread) as (file' & h & Hopen' & Hh).
  assert (file' = file) as -> by congruence.
  destruct (read_ok_fields host path file _ h s Hopen Hh Hread)
    as (Hd & H1 & H2 & H3 & H4).
  exists h, (Machine.store s), (Prf.crval1p s), (Prf.crval2p s),
    (Prf.cdelt1p s), (Prf.cdelt2p s).
  split; [exact Hh|]. split; [exact Hs|]. split; [exact Hd|].
  repeat (split; [assumption || reflexivity|]). reflexivity.
Qed.

Lemma loader_returns_the_five_extensions_witness :
  exists samples file s,
    Machine.read_prf_images Demo64.host Demo.file_name (seq 0 Prf.n_hdu)
      = Ok samples /\
    Prf.pyfits_open Demo64.host Demo.file_name = Ok file /\
    length samples = 5%nat /\
    nth_error samples 0 = Some s /\
    Fits.header_get (Fits.header (nth 1 file Demo.primary)) "CDELT1P"
      = Ok (Demo64.d 1 50) /\
    Prf.cdelt1p s = Fin (Q2Qc (5368709 # 268435456)).
Proof.
  destruct (Machine.read_prf_images Demo64.host Demo.file_name
              (seq 0 Prf.n_hdu)) as [samples|] eqn:H;
    [|vm_compute in H; discriminate H].
  destruct (loader_returns_the_five_extensions _ _ _ H) as (file & Ho & L & N).
  destruct (N 0%nat ltac:(lia))
    as (h & s & v1 & v2 & d1 & d2 & Hh & Hs & _ & _ & _ & _ & _ & Hd1 & E1 & _).
  exists samples, file, s.
  split; [reflexivity|]. split; [exact Ho|]. split; [exact L|].
  split; [exact Hs|].
  assert (F : file = Demo64.prf_file).
  { assert (Ho' : Prf.pyfits_open Demo64.host Demo.file_name
                  = Ok Demo64.prf_file) by reflexivity.
    congruence. }
  subst file.
  assert (Hh' : nth_error Demo64.prf_file (0 + 1)
                = Some (nth 1 Demo64.prf_file Demo.primary)) by reflexivity.
  assert (h = nth 1 Demo64.prf_file Demo.primary) as -> by congruence.
  assert (Hd1' : Fits.header_get
                   (Fits.header (nth 1 Demo64.prf_file Demo.primary)) "CDELT1P"
                 = Ok (Demo64.d 1 50)) by reflexivity.
  assert (D : d1 = Demo64.d 1 50) by congruence.
  split; [exact Hd1'|].
  rewrite E1, D. vm_compute. f_equal; apply Qc_is_canon; reflexivity.
Defined.

(** X5.  The primary unit of the calibration file is never read: two
    files that differ in their first unit only give the same samples, or
    the same exception. *)
Theorem loader_ignores_the_primary_unit :
  forall (host host' : Prf.Host) (path : string) (primary primary' : Fits.HDU)
         (extensions : Fits.HDUList) (range : list nat),
    Prf.pyfits_open host path = Ok (primary :: extensions) ->
    Prf.pyfits_open host' path = Ok (primary' :: extensions) ->
    Prf.read_prf_images host path range = Prf.read_prf_images host' path range.
Proof.
  intros host host' path p p' exts range Ho Ho'.
  induction range as [|i range IH]; [reflexivity|].
  simpl. rewrite IH. f_equal.
  unfold Prf._read_prf_calibration_file. rewrite Ho, Ho'. cbn [Py.bind].
  unfold getitem. rewrite Nat.add_1_r. reflexivity.
Qed.

Lemma loader_ignores_the_primary_unit_witness :
  Prf.read_prf_images
    (Demo.host_with (Fits.mkHDU Demo.ones [] :: Demo.extensions))
    Demo.file_name (seq 0 Prf.n_hdu)
  = Ok Demo.samples.
Proof.
  rewrite (loader_ignores_the_primary_unit
             (Demo.host_with (Fits.mkHDU Demo.ones [] :: Demo.extensions))
             Demo.host Demo.file_name (Fits.mkHDU Demo.ones []) Demo.primary
             Demo.extensions (seq 0 Prf.n_hdu) eq_refl eq_refl).
  vm_compute. reflexivity.
Defined.

(* ------------------------------------------------------------------ *)
(** ** The pixel scales must be positive (lines 202-203 and 222) *)

Section PixelScale.

Open Scope Qc_scope.

Context (lm : Prf.Libm) (fp : Scipy.Fitpack) (host : Prf.Host).

Lemma make_ok_increasing x y z s :
  Scipy.make fp x y z = Ok s ->
  Scipy.strictly_increasing x = true /\ Scipy.strictly_increasing y = true.
Proof.
  unfold Scipy.make. intros H.
  destruct (Scipy.strictly_increasing x); [|discriminate H].
  destruct (Scipy.strictly_increasing y); [|discriminate H]. auto.
Qed.

(** An axis of two or more points with a scale that is not positive is not
    strictly increasing. *)
Lemma prf_axis_not_increasing (n : nat) (c : Qc) (a : Np.array1) :
  (2 <= n)%nat -> c <= 0 ->
  Prf.prf_axis n (Fin c) = Ok a ->
  Scipy.strictly_increasing a = false.
Proof.
  intros Hn Hc. rewrite prf_axis_fin. intros H.
  assert (E : a = map (fun i => Fin ((half + of_nat i + - (of_nat n / two)) * c))
                      (seq 0 n)) by congruence.
  rewrite E. clear H E.
  destruct n as [|[|n]]; try lia.
  unfold Scipy.strictly_increasing.
  change (fltb zero
            (fsub (Fin ((half + of_nat 1 + - (of_nat (S (S n)) / two)) * c))
                  (Fin ((half + of_nat 0 + - (of_nat (S (S n)) / two)) * c)))
          && forallb (fun d => fltb zero d)
               (Np.diff
                  (map (fun i =>
                          Fin ((half + of_nat i + - (of_nat (S (S n)) / two)) * c))
                       (seq 1 (S n))))
          = false).
  apply andb_false_iff. left. simpl. apply Qcltb_ge.
  replace (of_nat 1) with (of_nat 0 + 1) by (apply Qc_is_canon; reflexivity).
  generalize (of_nat 0) (of_nat (S (S n)) / two). intros u v.
  qc2q. lra.
Qed.

(** What a successful construction went through, for the first image. *)
Lemma __init___first_sample channel shape column row dir self :
  Prf.__init__ lm fp host channel shape column row dir = Ok self ->
  exists mo prffile first PRFcol PRFrow prf,
    Prf.channel_to_module_output host channel = Ok mo /\
    getitem (Prf.glob host (Prf.prf_file_path dir (fst mo) (snd mo))) 0
      = Ok prffile /\
    Prf._read_prf_calibration_file host prffile 1 = Ok first /\
    Prf.prf_axis (snd (Np.shape (Prf.prfn first))) (Prf.cdelt1p first)
      = Ok PRFcol /\
    Prf.prf_axis (fst (Np.shape (Prf.prfn first))) (Prf.cdelt2p first)
      = Ok PRFrow /\
    Scipy.make fp PRFcol PRFrow prf = Ok (Prf.interpolate self).
Proof.
  intros Hinit.
  apply __init___inv in Hinit. destruct Hinit as (cc & rc & itp & Hp & ->).
  apply _prepare_prf_inv in Hp.
  destruct Hp as (mo & prffile & read & samples & first & PRFcol & PRFrow
                  & prf & Hmo & Hglob & Hread & Harr & Hfirst & Hcol & Hrow
                  & _ & _ & _ & Hmake).
  destruct (np_array_inv read samples first Harr Hfirst) as [-> _].
  destruct (first_sample_read host prffile read Hread) as (s & ss & -> & Hs).
  assert (s = first) as ->
    by (pose proof Hfirst as H'; unfold getitem in H'; simpl in H';
        congruence).
  exists mo, prffile, first, PRFcol, PRFrow, prf. simpl. auto 10.
Qed.

End PixelScale.

(** X6.  Construction fails when the first extension's image has two or
    more columns and its CDELT1P is a finite number that is not positive,
    or has two or more rows and its CDELT2P is such a number: the axis of
    the interpolant is then not strictly increasing. *)
Theorem nonpositive_pixel_scale_is_rejected :
  forall (lm : Prf.Libm) (fp : Scipy.Fitpack) (host : Prf.Host)
         (channel : Z) (shape : Z * Z) (column row : float) (dir : string)
         (mo : Z * Z) (prffile : string) (file : Fits.HDUList)
         (hdu1 : Fits.HDU),
    Prf.channel_to_module_output host channel = Ok mo ->
    getitem (Prf.glob host (Prf.prf_file_path dir (fst mo) (snd mo))) 0
      = Ok prffile ->
    Prf.pyfits_open host prffile = Ok file ->
    nth_error file 1 = Some hdu1 ->
    (exists c : Qc,
       Fits.header_get (Fits.header hdu1) "CDELT1P" = Ok (Fin c) /\
       (c <= Q2Qc 0)%Qc /\ (2 <= snd (Np.shape (Fits.data hdu1)))%nat) \/
    (exists c : Qc,
       Fits.header_get (Fits.header hdu1) "CDELT2P" = Ok (Fin c) /\
       (c <= Q2Qc 0)%Qc /\ (2 <= fst (Np.shape (Fits.data hdu1)))%nat) ->
    exists e, Prf.__init__ lm fp host channel shape column row dir = Raise e.
Proof.
  intros lm fp host channel shape column row dir mo prffile file hdu1
         Hmo Hglob Hopen Hhdu Hbad.
  destruct (Prf.__init__ lm fp host channel shape column row dir)
    as [self|e] eqn:Hinit; [exfalso | eauto].
  destruct (__init___first_sample lm fp host _ _ _ _ _ self Hinit)
    as (mo' & prffile' & first & PRFcol & PRFrow & prf & Hmo' & Hglob' & Hs
        & Hcol & Hrow & Hmake).
  assert (mo' = mo) as -> by congruence.
  assert (prffile' = prffile) as -> by congruence.
  destruct (read_ok_fields host prffile file 1 hdu1 first Hopen Hhdu Hs)
    as (Hd & _ & _ & H1 & H2).
  apply make_ok_increasing in Hmake. destruct Hmake as [Ix Iy].
  rewrite Hd in Hcol, Hrow.
  destruct Hbad as [(c & Hc & Hle & Hn)|(c & Hc & Hle & Hn)].
  - assert (E : Prf.cdelt1p first = Fin c) by congruence.
    rewrite E in Hcol.
    rewrite (prf_axis_not_increasing _ c PRFcol Hn Hle Hcol) in Ix.
    discriminate Ix.
  - assert (E : Prf.cdelt2p first = Fin c) by congruence.
    rewrite E in Hrow.
    rewrite (prf_axis_not_increasing _ c PRFrow Hn Hle Hrow) in Iy.
    discriminate Iy.
Qed.

Module Fixtures.

(** The demo file with a negative CDELT1P in its first extension. *)
Definition flipped_file : Fits.HDUList :=
  Demo.primary ::
  Fits.mkHDU Demo.ones
    [("CRVAL1P"%string, Demo.q 104 1); ("CRVAL2P"%string, Demo.q 409 2);
     ("CDELT1P"%string, Demo.q (-1) 50); ("CDELT2P"%string, Demo.q 1 50)]
  :: tl Demo.extensions.

End Fixtures.

Lemma nonpositive_pixel_scale_is_rejected_witness :
  Demo.model_on (Demo.host_with Fixtures.flipped_file) = Raise ValueError.
Proof.
  destruct (nonpositive_pixel_scale_is_rejected Demo.libm Demo.fitpack
              (Demo.host_with Fixtures.flipped_file) 42%Z Demo.shape
              (Demo.q 100 1) (Demo.q 200 1) "prf"%string (13%Z, 2%Z)
              Demo.file_name Fixtures.flipped_file
              (Fits.mkHDU Demo.ones
                 [("CRVAL1P"%string, Demo.q 104 1);
                  ("CRVAL2P"%string, Demo.q 409 2);
                  ("CDELT1P"%string, Demo.q (-1) 50);
                  ("CDELT2P"%string, Demo.q 1 50)]))
    as [e He].
  - reflexivity.
  - reflexivity.
  - reflexivity.
  - reflexivity.
  - left. exists (Q2Qc (-1 # 50)). split; [reflexivity|].
    split; [apply Qcleb_le; reflexivity | simpl; lia].
  - unfold Demo.model_on. rewrite He. vm_compute in He. congruence.
Defined.

(* ------------------------------------------------------------------ *)
(** ** What construction can raise (lines 126-132 and 167-224) *)

Section ConstructionErrors.

Context (lm : Machine.Libm) (nm : Machine.Numerics) (fp : Scipy.Fitpack)
        (host : Prf.Host).

Lemma bind_raise_inv {A B : Type} (r : result A) (k : A -> result B) e :
  Py.bind r k = Raise e ->
  r = Raise e \/ exists a, r = Ok a /\ k a = Raise e.
Proof.
  destruct r as [a|e']; simpl; [eauto|]. intros [= <-]. now left.
Qed.

Lemma getitem_raise {A : Type} (xs : list A) (i : nat) e :
  getitem xs i = Raise e -> e = IndexError.
Proof.
  unfold getitem. destruct (nth_error xs i); [discriminate|].
  now intros [= <-].
Qed.

Lemma read_raise (path : string) (ext : nat) e :
  Prf._read_prf_calibration_file host path ext = Raise e ->
  e = IndexError \/ e = KeyError \/ Prf.pyfits_open host path = Raise e.
Proof.
  unfold Prf._read_prf_calibration_file.
  destruct (Prf.pyfits_open host path) as [file|e0] eqn:Hopen.
  - cbn [Py.bind]. intros H.
    destruct (nth_error file ext) as [h|] eqn:Hh.
    + destruct (Prf.has_cards h) eqn:Hc.
      * destruct (read_complete host path file Hopen ext h Hh Hc)
          as (s & Hs & _).
        unfold Prf._read_prf_calibration_file in Hs.
        rewrite Hopen in Hs. cbn [Py.bind] in Hs. congruence.
      * pose proof (read_lacking host path file Hopen ext h Hh Hc) as Hs.
        unfold Prf._read_prf_calibration_file in Hs.
        rewrite Hopen in Hs. cbn [Py.bind] in Hs.
        right. left. congruence.
    + pose proof (read_missing host path file Hopen ext Hh) as Hs.
      unfold Prf._read_prf_calibration_file in Hs.
      rewrite Hopen in Hs. cbn [Py.bind] in Hs.
      left. congruence.
  - simpl. intros [= <-]. now right; right.
Qed.

Lemma machine_read_images_raise (path : string) (range : list nat) e :
  Machine.read_prf_images host path range = Raise e ->
  e = IndexError \/ e = KeyError \/ Prf.pyfits_open host path = Raise e.
Proof.
  induction range as [|i range IH]; simpl; [discriminate|].
  intros H. apply bind_raise_inv in H.
  destruct H as [H|(s & _ & H)]; [now apply read_raise in H|].
  apply bind_raise_inv in H.
  destruct H as [H|(ss & _ & H)]; [now apply IH | discriminate H].
Qed.

Lemma np_array_raise samples e :
  Prf.np_array samples = Raise e -> e = IndexError \/ e = ValueError.
Proof.
  unfold Prf.np_array. intros H. apply bind_raise_inv in H.
  destruct H as [H|(first & _ & H)].
  - left. now apply getitem_raise in H.
  - destruct (forallb _ samples); [discriminate H|].
    right. now injection H as <-.
Qed.

Lemma float_of_int_raise (n : Z) e :
  Machine.float_of_int n = Raise e -> e = OverflowError.
Proof.
  unfold Machine.float_of_int.
  destruct (Fp.round Machine.f64 (of_Z n)); try discriminate;
    now intros [= <-].
Qed.

Lemma machine_arange_raise (start stop : float) e :
  Machine.arange start stop = Raise e -> e = ValueError.
Proof.
  unfold Machine.arange.
  destruct (Fp.div Machine.f64 (Fp.sub Machine.f64 stop start) Machine.c_one);
    try (now intros [= <-]).
  destruct ((_ <? _)%Z || (_ <? _)%Z); [now intros [= <-] | discriminate].
Qed.

Lemma machine_prf_axis_raise (n : nat) (cdelt : float) e :
  Machine.prf_axis n cdelt = Raise e -> e = OverflowError \/ e = ValueError.
Proof.
  unfold Machine.prf_axis. intros H. apply bind_raise_inv in H.
  destruct H as [H|(n' & _ & H)]; [left; now apply float_of_int_raise in H|].
  apply bind_raise_inv in H.
  destruct H as [H|(a & _ & H)]; [|discriminate H].
  right. now apply machine_arange_raise in H.
Qed.

Lemma machine_sqrt_raise (x : float) e :
  Machine.math_sqrt lm x = Raise e -> e = ValueError.
Proof.
  destruct x as [q| | |]; simpl; try discriminate; try (now intros [= <-]).
  destruct (Qcltb q 0); [now intros [= <-] | discriminate].
Qed.

Lemma machine_fuse_raise (rc rr : float) (samples : list Prf.Sample) :
  forall prf e,
    Machine.fuse lm nm rc rr samples prf = Raise e -> e = ValueError.
Proof.
  induction samples as [|s samples IH]; intros prf e; simpl; [discriminate|].
  intros H. apply bind_raise_inv in H. destruct H as [H|(w & _ & H)].
  - unfold Machine.prf_weight in H. apply bind_raise_inv in H.
    destruct H as [H|(d & _ & H)]; [|discriminate H].
    now apply machine_sqrt_raise in H.
  - apply bind_raise_inv in H.
    destruct H as [H|(r & _ & H)]; [|discriminate H].
    now apply IH in H.
Qed.

Lemma machine_fused_grid_raise shape column row samples e :
  Machine.fused_grid lm nm shape column row samples = Raise e ->
  e = IndexError \/ e = OverflowError \/ e = ValueError.
Proof.
  unfold Machine.fused_grid, Machine.accumulate, Machine.ref_coordinate.
  intros H.
  apply bind_raise_inv in H. destruct H as [H|(first & _ & H)].
  { left. now apply getitem_raise in H. }
  apply bind_raise_inv in H. destruct H as [H|(prf & _ & H)];
    [|discriminate H].
  apply bind_raise_inv in H. destruct H as [H|(first' & _ & H)].
  { left. now apply getitem_raise in H. }
  apply bind_raise_inv in H. destruct H as [H|(rc & _ & H)].
  { apply bind_raise_inv in H. destruct H as [H|(d & _ & H)];
      [|discriminate H].
    right; left. now apply float_of_int_raise in H. }
  apply bind_raise_inv in H. destruct H as [H|(rr & _ & H)].
  { apply bind_raise_inv in H. destruct H as [H|(d & _ & H)];
      [|discriminate H].
    right; left. now apply float_of_int_raise in H. }
  apply bind_raise_inv in H. destruct H as [H|(r & _ & H)];
    [|discriminate H].
  right; right. now apply machine_fuse_raise in H.
Qed.

Lemma machine_footprint_axis_raise origin dim e :
  Machine.footprint_axis origin dim = Raise e ->
  e = OverflowError \/ e = ValueError.
Proof.
  unfold Machine.footprint_axis. intros H. apply bind_raise_inv in H.
  destruct H as [H|(d & _ & H)]; [left; now apply float_of_int_raise in H|].
  right. now apply machine_arange_raise in H.
Qed.

Lemma machine_make_raise x y z e :
  Machine.make fp x y z = Raise e ->
  e = ValueError \/ e = Scipy.dfitpack_error.
Proof.
  unfold Machine.make.
  repeat match goal with
         | |- (if ?b then _ else _) = _ -> _ => destruct b
         end; try discriminate; intros [= <-]; auto.
Qed.

End ConstructionErrors.

(** X7.  When [__init__] raises, the exception is [IndexError], [KeyError],
    [ValueError], [OverflowError] (an int too large for a float) or the
    [error] of [dfitpack] (a calibration image with three or fewer rows or
    columns), or it is the exception that [channel_to_module_output]
    raised for the channel, or one that [pyfits.open] raised for a
    file. *)
Theorem construction_raises_only_listed_exceptions :
  forall (lm : Machine.Libm) (nm : Machine.Numerics) (fp : Scipy.Fitpack)
         (host : Prf.Host) (channel : Z) (shape : Z * Z) (column row : float)
         (dir : string) (e : exn),
    Machine.__init__ lm nm fp host channel shape column row dir = Raise e ->
    e = IndexError \/ e = KeyError \/ e = ValueError \/ e = OverflowError \/
    e = Scipy.dfitpack_error \/
    Prf.channel_to_module_output host channel = Raise e \/
    exists path, Prf.pyfits_open host path = Raise e.
Proof.
  intros lm nm fp host channel shape column row dir e.
  unfold Machine.__init__.
  intros H. apply bind_raise_inv in H.
  destruct H as [H|(r & _ & H)]; [|discriminate H].
  unfold Machine._prepare_prf in H.
  apply bind_raise_inv in H. destruct H as [H|(mo & _ & H)]; [tauto|].
  apply bind_raise_inv in H. destruct H as [H|(prffile & _ & H)].
  { apply getitem_raise in H. tauto. }
  apply bind_raise_inv in H. destruct H as [H|(read & _ & H)].
  { apply machine_read_images_raise in H.
    destruct H as [H|[H|H]]; [tauto | tauto | eauto 8]. }
  apply bind_raise_inv in H. destruct H as [H|(samples & _ & H)].
  { apply np_array_raise in H. tauto. }
  apply bind_raise_inv in H. destruct H as [H|(first & _ & H)].
  { apply getitem_raise in H. tauto. }
  apply bind_raise_inv in H. destruct H as [H|(PRFcol & _ & H)].
  { apply machine_prf_axis_raise in H. tauto. }
  apply bind_raise_inv in H. destruct H as [H|(PRFrow & _ & H)].
  { apply machine_prf_axis_raise in H. tauto. }
  apply bind_raise_inv in H. destruct H as [H|(prf & _ & H)].
  { apply machine_fused_grid_raise in H. tauto. }
  apply bind_raise_inv in H. destruct H as [H|(cc & _ & H)].
  { apply machine_footprint_axis_raise in H. tauto. }
  apply bind_raise_inv in H. destruct H as [H|(rc & _ & H)].
  { apply machine_footprint_axis_raise in H. tauto. }
  apply bind_raise_inv in H. destruct H as [H|(itp & _ & H)].
  { apply machine_make_raise in H. tauto. }
  discriminate H.
Qed.

Lemma construction_raises_only_listed_exceptions_witness :
  Machine.__init__ Demo64.libm Demo64.numerics Demo.fitpack
    (Demo.host_with Demo64.small_file) 42 Demo.shape (Demo.q 100 1)
    (Demo.q 200 1) "prf" = Raise Scipy.dfitpack_error /\
  Machine.__init__ Demo64.libm Demo64.numerics Demo.fitpack Demo64.host 42
    (2 ^ 1024, 3)%Z (Demo.q 100 1) (Demo.q 200 1) "prf" = Raise OverflowError /\
  Prf.channel_to_module_output (Demo.host_with Demo64.small_file) 42
    = Ok (13%Z, 2%Z).
Proof.
  assert (H : Machine.__init__ Demo64.libm Demo64.numerics Demo.fitpack
                (Demo.host_with Demo64.small_file) 42 Demo.shape (Demo.q 100 1)
                (Demo.q 200 1) "prf" = Raise Scipy.dfitpack_error)
    by (vm_compute; reflexivity).
  split; [exact H|].
  split; [vm_compute; reflexivity|].
  destruct (construction_raises_only_listed_exceptions _ _ _ _ _ _ _ _ _ _ H)
    as [E|[E|[E|[E|[E|[E|[path E]]]]]]]; try discriminate E.
  - reflexivity.
  - reflexivity.
Defined.

(* ------------------------------------------------------------------ *)
(** ** NaN pixels pass through the fusion (lines 211-217) *)

Section NanPixels.

Context (lm : Prf.Libm).

Lemma nth_error_add1 (a b : Np.array1) (j : nat) :
  nth_error (Np.add1 a b) j =
  match nth_error a j, nth_error b j with
  | Some x, Some y => Some (fadd x y)
  | _, _ => None
  end.
Proof.
  revert b j. induction a as [|x a IH]; intros [|y b] [|j]; simpl; trivial.
  all: try apply IH.
  all: now destruct (nth_error a j).
Qed.

Lemma nth_error_add2 (a b : Np.array2) (i : nat) :
  nth_error (Np.add2 a b) i =
  match nth_error a i, nth_error b i with
  | Some r, Some s => Some (Np.add1 r s)
  | _, _ => None
  end.
Proof.
  revert b i. induction a as [|x a IH]; intros [|y b] [|i]; simpl; trivial.
  all: try apply IH.
  all: now destruct (nth_error a i).
Qed.

Lemma cell_add2 (a b : Np.array2) (i j : nat) (x y : float) :
  cell a i j = Some x -> cell b i j = Some y ->
  cell (Np.add2 a b) i j = Some (fadd x y).
Proof.
  unfold cell. rewrite nth_error_add2.
  destruct (nth_error a i) as [r|]; [|discriminate].
  destruct (nth_error b i) as [s|]; [|discriminate].
  rewrite nth_error_add1. now intros -> ->.
Qed.

Lemma cell_div_scalar2 (a : Np.array2) (w : float) (i j : nat) :
  cell (Np.div_scalar2 a w) i j
  = option_map (fun x => fdiv x w) (cell a i j).
Proof.
  unfold cell, Np.div_scalar2. rewrite nth_error_map.
  destruct (nth_error a i) as [r|]; simpl; [|reflexivity].
  apply nth_error_map.
Qed.

Lemma has_shape_cell (sh : nat * nat) (a : Np.array2) (i j : nat) :
  Np.has_shape sh a = true ->
  ((i < fst sh)%nat /\ (j < snd sh)%nat <-> cell a i j <> None).
Proof.
  unfold Np.has_shape, cell. intros H. apply andb_prop in H.
  destruct H as [L R]. apply Nat.eqb_eq in L. rewrite forallb_forall in R.
  destruct (nth_error a i) as [r|] eqn:E.
  - assert (Hi : (i < fst sh)%nat)
      by (rewrite <- L; apply nth_error_Some; congruence).
    apply nth_error_In in E. apply R in E. apply Nat.eqb_eq in E.
    rewrite nth_error_Some, E. tauto.
  - apply nth_error_None in E. split; [lia | congruence].
Qed.

Lemma cell_zeros (sh : nat * nat) (i j : nat) :
  (i < fst sh)%nat -> (j < snd sh)%nat -> cell (Np.zeros sh) i j = Some zero.
Proof.
  intros Hi Hj. unfold cell, Np.zeros, Np.zeros1.
  rewrite (nth_error_repeat _ Hi). now apply nth_error_repeat.
Qed.

Lemma fadd_nan_r (x : float) : fadd x NaN = NaN.
Proof. now destruct x. Qed.

(** One element through the loop: it stays defined, and it is NaN as soon
    as it was NaN before or is NaN in one image. *)
Lemma fuse_cell (rc rr : float) (i j : nat) (samples : list Prf.Sample) :
  (forall s, In s samples -> cell (Prf.prfn s) i j <> None) ->
  forall prf r x,
    Prf.fuse lm rc rr samples prf = Ok r ->
    cell prf i j = Some x ->
    exists v, cell (snd r) i j = Some v /\
      (x = NaN \/ (exists s, In s samples /\ cell (Prf.prfn s) i j = Some NaN)
       -> v = NaN).
Proof.
  induction samples as [|s samples IH]; intros Hall prf r x.
  - simpl. intros [= <-] Hx. exists x. split; [exact Hx|].
    intros [->|(s & [] & _)]. reflexivity.
  - simpl. intros H Hx.
    apply bind_ok_inv in H. destruct H as (w & _ & H).
    apply bind_ok_inv in H. destruct H as (r' & Hr' & H).
    injection H as <-. simpl.
    destruct (cell (Prf.prfn s) i j) as [y|] eqn:Ey;
      [|exfalso; now apply (Hall s (or_introl eq_refl))].
    assert (C : cell (Np.add2 prf (Np.div_scalar2 (Prf.prfn s) w)) i j
                = Some (fadd x (fdiv y w))).
    { apply cell_add2; [exact Hx|]. now rewrite cell_div_scalar2, Ey. }
    destruct (IH (fun s' Hs' => Hall s' (or_intror Hs')) _ r' _ Hr' C)
      as (v & Hv & Hnan).
    exists v. split; [exact Hv|].
    intros [->|(s' & [<-|Hs'] & Hs'nan)].
    + apply Hnan. left. reflexivity.
    + apply Hnan. left.
      assert (y = NaN) as -> by congruence. simpl. apply fadd_nan_r.
    + apply Hnan. right. eauto.
Qed.

End NanPixels.

(** X9.  When the images of the samples have one common shape (what
    [np.array(prfn)] requires) and one image has a NaN at position
    [(i, j)], every fused grid that is built has a NaN at [(i, j)]:
    normalisation does not remove it. *)
Theorem nan_pixel_stays_in_the_fused_grid :
  forall (lm : Prf.Libm) (shape : Z * Z) (column row : float)
         (samples : list Prf.Sample) (first s : Prf.Sample) (g : Np.array2)
         (i j : nat),
    getitem samples 0 = Ok first ->
    (forall s', In s' samples ->
       Np.has_shape (Np.shape (Prf.prfn first)) (Prf.prfn s') = true) ->
    Prf.fused_grid lm shape column row samples = Ok g ->
    In s samples ->
    cell (Prf.prfn s) i j = Some NaN ->
    cell g i j = Some NaN.
Proof.
  intros lm shape column row samples first s g i j Hfirst Hshape Hg Hs Hnan.
  unfold Prf.fused_grid in Hg. rewrite Hfirst in Hg. cbn [Py.bind] in Hg.
  apply bind_ok_inv in Hg. destruct Hg as (prf & Hacc & Hg).
  assert (Eg : g = Prf.normalize prf (Prf.cdelt1p first) (Prf.cdelt2p first))
    by congruence.
  unfold Prf.accumulate in Hacc. rewrite Hfirst in Hacc.
  cbn [Py.bind] in Hacc.
  apply bind_ok_inv in Hacc. destruct Hacc as (r & Hr & Hacc).
  assert (Ep : prf = snd r) by congruence.
  assert (Hij : (i < fst (Np.shape (Prf.prfn first)))%nat /\
                (j < snd (Np.shape (Prf.prfn first)))%nat).
  { apply (has_shape_cell _ (Prf.prfn s)); [now apply Hshape|]. congruence. }
  destruct (fuse_cell lm (Prf.ref_coordinate column (snd shape))
              (Prf.ref_coordinate row (fst shape)) i j samples)
    with (2 := Hr) (x := zero) as (v & Hv & Hvn).
  - intros s' Hs'. apply (has_shape_cell _ _ i j (Hshape s' Hs')). exact Hij.
  - apply cell_zeros; tauto.
  - rewrite Eg. unfold Prf.normalize. rewrite cell_div_scalar2, Ep, Hv.
    rewrite Hvn by (right; eauto). reflexivity.
Qed.

Lemma nan_pixel_stays_in_the_fused_grid_witness :
  exists g,
    Prf.fused_grid Demo.libm Demo.shape (Demo.q 100 1) (Demo.q 200 1)
      Demo.nan_samples = Ok g /\
    cell g 0 0 = Some NaN.
Proof.
  eexists. split; [vm_compute; reflexivity|].
  eapply (nan_pixel_stays_in_the_fused_grid Demo.libm Demo.shape
            (Demo.q 100 1) (Demo.q 200 1) Demo.nan_samples Demo.nan_first
            Demo.nan_first).
  - reflexivity.
  - intros s' Hs'. simpl in Hs'.
    repeat (destruct Hs' as [<-|Hs']; [reflexivity|]). destruct Hs'.
  - vm_compute. reflexivity.
  - now left.
  - reflexivity.
Defined.

(* ------------------------------------------------------------------ *)
(** ** The loop over the frames (lines 87-94) *)

Section FramesLoop.

Context {Model Loss : Type} (c : Phot.Collaborators Model Loss)
        (tpf : Phot.TargetPixelFile).

Local Abbreviation frames := (Phot.frames Model Loss c tpf).
Local Abbreviation append_opt_params := (Phot.append_opt_params Model Loss).
Local Abbreviation append_residuals := (Phot.append_residuals Model Loss).
Local Abbreviation append_uncertainties :=
  (Phot.append_uncertainties Model Loss).

(** One iteration: the four steps that can raise before anything is
    stored, the two appends, the uncertainties, the third append. *)
Lemma frames_step t range g self :
  frames (t :: range) g self =
  match getitem (Phot.flux tpf) t with
  | Raise e => (Raise e, self)
  | Ok frame =>
  match Phot.loss_function Model Loss self frame
          (Phot.prf_model Model Loss self) with
  | Raise e => (Raise e, self)
  | Ok logL =>
  match Phot.fit_x Model Loss c logL g with
  | Raise e => (Raise e, self)
  | Ok x =>
  match Phot.residuals_of Model Loss c (Phot.flux tpf)
          (Phot.prf_model Model Loss self) x with
  | Raise e => (Raise e, self)
  | Ok res =>
  match Phot.loss_uncertainties Model Loss c logL with
  | Raise e => (Raise e, append_residuals res (append_opt_params x self))
  | Ok u =>
      frames range x
        (append_uncertainties u
           (append_residuals res (append_opt_params x self)))
  end end end end end.
Proof.
  cbn [Phot.frames]. unfold Py.mbind, Py.lift, Py.get, Py.modify.
  reflexivity.
Qed.

(** What the loop does to the object, however it ends. *)
Lemma frames_invariant range :
  forall g self,
    Phot.prf_model Model Loss (snd (frames range g self))
      = Phot.prf_model Model Loss self /\
    Phot.loss_function Model Loss (snd (frames range g self))
      = Phot.loss_function Model Loss self /\
    exists added_p added_r added_u,
      Phot.opt_params Model Loss (snd (frames range g self))
        = Phot.opt_params Model Loss self ++ added_p /\
      Phot.residuals Model Loss (snd (frames range g self))
        = Phot.residuals Model Loss self ++ added_r /\
      Phot.uncertainties Model Loss (snd (frames range g self))
        = Phot.uncertainties Model Loss self ++ added_u /\
      length added_r = length added_p /\
      (length added_u <= length added_p <= S (length added_u))%nat /\
      (length added_p <= length range)%nat /\
      (is_ok (fst (frames range g self)) = true ->
       length added_u = length range).
Proof.
  induction range as [|t range IH]; intros g self.
  - simpl. split; [reflexivity|]. split; [reflexivity|].
    exists [], [], []. rewrite !app_nil_r. simpl.
    repeat split; auto.
  - assert (Stop : forall e,
      Phot.prf_model Model Loss (snd (@Raise Phot.params e, self))
        = Phot.prf_model Model Loss self /\
      Phot.loss_function Model Loss (snd (@Raise Phot.params e, self))
        = Phot.loss_function Model Loss self /\
      exists added_p added_r added_u,
        Phot.opt_params Model Loss (snd (@Raise Phot.params e, self))
          = Phot.opt_params Model Loss self ++ added_p /\
        Phot.residuals Model Loss (snd (@Raise Phot.params e, self))
          = Phot.residuals Model Loss self ++ added_r /\
        Phot.uncertainties Model Loss (snd (@Raise Phot.params e, self))
          = Phot.uncertainties Model Loss self ++ added_u /\
        length added_r = length added_p /\
        (length added_u <= length added_p <= S (length added_u))%nat /\
        (length added_p <= length (t :: range))%nat /\
        (is_ok (fst (@Raise Phot.params e, self)) = true ->
         length added_u = length (t :: range))).
    { intros e. simpl. split; [reflexivity|]. split; [reflexivity|].
      exists [], [], []. rewrite !app_nil_r. simpl.
      repeat split; auto; try lia; try discriminate. }
    rewrite frames_step.
    destruct (getitem (Phot.flux tpf) t) as [frame|]; [|apply Stop].
    destruct (Phot.loss_function Model Loss self frame
                (Phot.prf_model Model Loss self)) as [logL|]; [|apply Stop].
    destruct (Phot.fit_x Model Loss c logL g) as [x|]; [|apply Stop].
    destruct (Phot.residuals_of Model Loss c (Phot.flux tpf)
                (Phot.prf_model Model Loss self) x) as [res|]; [|apply Stop].
    destruct (Phot.loss_uncertainties Model Loss c logL) as [u|].
    + destruct (IH x (append_uncertainties u
                        (append_residuals res (append_opt_params x self))))
        as (Hm & Hl & ap & ar & au & Hp & Hr & Hu & L1 & L2 & L3 & L4).
      split; [exact Hm|]. split; [exact Hl|].
      exists (x :: ap), (res :: ar), (u :: au).
      rewrite Hp, Hr, Hu. simpl. rewrite <- !app_assoc. simpl.
      repeat split; auto; try lia.
      all: intros Hok; rewrite (L4 Hok); reflexivity.
    + simpl. split; [reflexivity|]. split; [reflexivity|].
      exists [x], [res], []. rewrite app_nil_r. simpl.
      repeat split; auto; try lia; try discriminate.
Qed.

Lemma last_default {A : Type} (l : list A) (a d d' : A) :
  last (a :: l) d = last (a :: l) d'.
Proof.
  revert a. induction l as [|b l IH]; intros a; [reflexivity|].
  change (last (b :: l) d = last (b :: l) d'). apply IH.
Qed.

(** A loop that completes: what was appended to [opt_params]. *)
Lemma frames_chain range :
  forall g self g' self',
    frames range g self = (Ok g', self') ->
    exists added,
      Phot.opt_params Model Loss self'
        = Phot.opt_params Model Loss self ++ added /\
      length added = length range /\
      g' = last added g /\
      forall k x, nth_error added k = Some x ->
        exists t frame logL prev,
          nth_error range k = Some t /\
          nth_error (Phot.flux tpf) t = Some frame /\
          Phot.loss_function Model Loss self frame
            (Phot.prf_model Model Loss self) = Ok logL /\
          nth_error (g :: added) k = Some prev /\
          Phot.fit_x Model Loss c logL prev = Ok x.
Proof.
  induction range as [|t range IH]; intros g self g' self'.
  - simpl. unfold Py.ret. intros [= <- <-]. exists []. rewrite app_nil_r.
    repeat split; auto. intros [|k] x; discriminate.
  - rewrite frames_step.
    destruct (getitem (Phot.flux tpf) t) as [frame|] eqn:Ef; [|discriminate].
    destruct (Phot.loss_function Model Loss self frame
                (Phot.prf_model Model Loss self)) as [logL|] eqn:El;
      [|discriminate].
    destruct (Phot.fit_x Model Loss c logL g) as [x0|] eqn:Ex; [|discriminate].
    destruct (Phot.residuals_of Model Loss c (Phot.flux tpf)
                (Phot.prf_model Model Loss self) x0) as [res|];
      [|discriminate].
    destruct (Phot.loss_uncertainties Model Loss c logL) as [u|];
      [|discriminate].
    intros H. apply IH in H.
    destruct H as (added & Hp & L & Hlast & Hchain).
    exists (x0 :: added). simpl in Hp. rewrite <- app_assoc in Hp.
    split; [exact Hp|]. split; [simpl; now rewrite L|]. split.
    + rewrite Hlast. destruct added as [|a l]; [reflexivity|].
      change (last (a :: l) x0 = last (a :: l) g). apply last_default.
    + intros [|k] x.
      * simpl. intros [= <-]. exists t, frame, logL, g.
        unfold getitem in Ef. destruct (nth_error (Phot.flux tpf) t);
          [|discriminate Ef].
        repeat split; auto. congruence.
      * simpl. intros Hk. destruct (Hchain k x Hk)
          as (t' & frame' & logL' & prev & H1 & H2 & H3 & H4 & H5).
        exists t', frame', logL', prev. repeat split; auto.
Qed.

End FramesLoop.

(** X10.  However [do_photometry] ends, it leaves [prf_model] and
    [loss_function] untouched and only appends to the three lists:
    [opt_params] and [residuals] receive the same number of entries, at
    most one per time stamp, and [uncertainties] receives as many, or one
    fewer (when [logL.uncertainties()] raised for the last fitted
    frame). *)
Theorem do_photometry_only_appends :
  forall (Model Loss : Type) (c : Phot.Collaborators Model Loss)
         (tpf : Phot.TargetPixelFile) (initial_guesses : option Phot.params)
         (self : Phot.KeplerPRFPhotometry Model Loss),
    let self' := snd (Phot.do_photometry Model Loss c tpf initial_guesses self)
    in
    Phot.prf_model Model Loss self' = Phot.prf_model Model Loss self /\
    Phot.loss_function Model Loss self' = Phot.loss_function Model Loss self /\
    exists added_p added_r added_u,
      Phot.opt_params Model Loss self'
        = Phot.opt_params Model Loss self ++ added_p /\
      Phot.residuals Model Loss self'
        = Phot.residuals Model Loss self ++ added_r /\
      Phot.uncertainties Model Loss self'
        = Phot.uncertainties Model Loss self ++ added_u /\
      length added_r = length added_p /\
      (length added_u <= length added_p <= S (length added_u))%nat /\
      (length added_p <= length (Phot.time tpf))%nat.
Proof.
  intros Model Loss c tpf [g|] self; cbv zeta.
  - rewrite do_photometry_with_guesses.
    destruct (frames_invariant c tpf (seq 0 (length (Phot.time tpf))) g self)
      as (Hm & Hl & ap & ar & au & Hp & Hr & Hu & L1 & L2 & L3 & _).
    rewrite length_seq in L3.
    assert (E : snd (match Phot.frames Model Loss c tpf
                            (seq 0 (length (Phot.time tpf))) g self with
                     | (Ok _, self') => (@Raise unit AttributeError, self')
                     | (Raise e, self') => (Raise e, self')
                     end)
                = snd (Phot.frames Model Loss c tpf
                         (seq 0 (length (Phot.time tpf))) g self)).
    { destruct (Phot.frames Model Loss c tpf _ g self) as [[?|?] ?];
        reflexivity. }
    rewrite E. split; [exact Hm|]. split; [exact Hl|].
    exists ap, ar, au. repeat (split; [assumption|]). exact L3.
  - rewrite do_photometry_without_guesses. simpl.
    split; [reflexivity|]. split; [reflexivity|].
    exists [], [], []. rewrite !app_nil_r. simpl. repeat split; auto; lia.
Qed.

(** X11.  When the loop over the frames completes, [opt_params] has
    received exactly one vector per time stamp, [tpf.flux] has at least as
    many frames as [tpf.time] has stamps, and the fits are chained: the
    vector of frame [t] is the result of fitting the likelihood of frame
    [t] from the vector of frame [t - 1] (from [initial_guesses] for the
    first frame); the loop returns the last vector. *)
Theorem frames_are_fitted_in_a_warm_start_chain :
  forall (Model Loss : Type) (c : Phot.Collaborators Model Loss)
         (tpf : Phot.TargetPixelFile) (initial_guesses last_guesses : Phot.params)
         (self self' : Phot.KeplerPRFPhotometry Model Loss),
    Phot.frames Model Loss c tpf (seq 0 (length (Phot.time tpf)))
      initial_guesses self = (Ok last_guesses, self') ->
    exists added,
      Phot.opt_params Model Loss self'
        = Phot.opt_params Model Loss self ++ added /\
      length added = length (Phot.time tpf) /\
      (length (Phot.time tpf) <= length (Phot.flux tpf))%nat /\
      last_guesses = last added initial_guesses /\
      forall t x, nth_error added t = Some x ->
        exists frame logL prev,
          nth_error (Phot.flux tpf) t = Some frame /\
          Phot.loss_function Model Loss self frame
            (Phot.prf_model Model Loss self) = Ok logL /\
          nth_error (initial_guesses :: added) t = Some prev /\
          Phot.fit_x Model Loss c logL prev = Ok x.
Proof.
  intros Model Loss c tpf g g' self self' H.
  apply frames_chain in H. destruct H as (added & Hp & L & Hlast & Hchain).
  rewrite length_seq in L.
  assert (Hchain' : forall t x, nth_error added t = Some x ->
    exists frame logL prev,
      nth_error (Phot.flux tpf) t = Some frame /\
      Phot.loss_function Model Loss self frame
        (Phot.prf_model Model Loss self) = Ok logL /\
      nth_error (g :: added) t = Some prev /\
      Phot.fit_x Model Loss c logL prev = Ok x).
  { intros t x Ht.
    destruct (Hchain t x Ht) as (t' & frame & logL & prev & H1 & H2 & H3).
    rewrite nth_error_seq in H1.
    destruct (t <? length (Phot.time tpf))%nat; [|discriminate H1].
    injection H1 as <-. eauto. }
  exists added. repeat (split; [assumption|]). split; [|split; assumption].
  destruct (length (Phot.time tpf)) as [|n] eqn:En; [lia|].
  destruct (nth_error added n) as [x|] eqn:Ex.
  - destruct (Hchain' n x Ex) as (frame & _ & _ & Hf & _).
    assert (n < length (Phot.flux tpf))%nat
      by (apply nth_error_Some; congruence).
    lia.
  - apply nth_error_None in Ex. lia.
Qed.

Lemma frames_are_fitted_in_a_warm_start_chain_witness :
  exists self',
    Phot.frames unit unit Demo.collaborators Demo.tpf
      (seq 0 (length (Phot.time Demo.tpf))) Demo.guesses Demo.photometry
      = (Ok Demo.guesses, self') /\
    length (Phot.opt_params unit unit self') = 2%nat.
Proof.
  eexists.
  match goal with
  | |- ?A = _ /\ _ => assert (E : A = (Ok Demo.guesses, _)) by reflexivity
  end.
  split; [exact E|].
  destruct (frames_are_fitted_in_a_warm_start_chain _ _ _ _ _ _ _ _ E)
    as (added & Hp & L & _).
  rewrite Hp, length_app, L. reflexivity.
Defined.

(* ------------------------------------------------------------------ *)
(** ** The name of the calibration file (lines 183-188) *)

Section FileName.

Lemma string_append_assoc (a b c : string) :
  ((a ++ b) ++ c = a ++ (b ++ c))%string.
Proof.
  induction a as [|x a IH]; simpl; [reflexivity | now rewrite IH].
Qed.

Lemma str_length_below_100 (n : nat) :
  (n < 100)%nat ->
  String.length (Prf.str (Z.of_nat n)) = if (n <? 10)%nat then 1%nat else 2%nat.
Proof.
  intros Hn.
  assert (H : forallb
                (fun n => (String.length (Prf.str (Z.of_nat n)) =?
                           (if (n <? 10)%nat then 1 else 2))%nat)
                (seq 0 100) = true) by (vm_compute; reflexivity).
  rewrite forallb_forall in H. apply Nat.eqb_eq. apply H.
  apply in_seq. lia.
Qed.

End FileName.

(** X12.  For a module number from 0 to 99 the pattern handed to
    [glob.glob] names the module with two characters, [0] followed by
    its decimal digit below 10 and its two decimal digits from 10 on: the
    pattern is the directory, a [/] unless the directory is empty or
    already ends with one, then [kplr], the two characters, a dot, the
    output number and [*_prf.fits]. *)
Theorem prf_file_path_pads_the_module :
  forall (dir : string) (module output : Z),
    (0 <= module < 100)%Z ->
    let d := (if (module <? 10)%Z then "0" ++ Prf.str module
              else Prf.str module)%string in
    String.length d = 2%nat /\
    Prf.str module
      = NilZero.string_of_uint (Nat.to_uint (Z.to_nat module)) /\
    Prf.prf_file_path dir module output =
    ((if String.eqb dir "" || Prf.ends_with_sep dir then dir
      else dir ++ "/")
     ++ "kplr" ++ d ++ "." ++ Prf.str output ++ "*_prf.fits")%string.
Proof.
  intros dir module output Hm. cbv zeta.
  pose proof (str_length_below_100 (Z.to_nat module)) as L.
  rewrite Z2Nat.id in L by lia. specialize (L ltac:(lia)).
  assert (S : Prf.str module
              = NilZero.string_of_uint (Nat.to_uint (Z.to_nat module))).
  { assert (H : forallb
                  (fun n => String.eqb (Prf.str (Z.of_nat n))
                              (NilZero.string_of_uint (Nat.to_uint n)))
                  (seq 0 100) = true) by (vm_compute; reflexivity).
    rewrite forallb_forall in H.
    specialize (H (Z.to_nat module)).
    rewrite Z2Nat.id in H by lia.
    apply String.eqb_eq. apply H. apply in_seq. lia. }
  unfold Prf.prf_file_path, Prf.os_path_join.
  destruct (module <? 10)%Z eqn:E.
  - apply Z.ltb_lt in E.
    assert (E' : (Z.to_nat module <? 10)%nat = true)
      by (apply Nat.ltb_lt; lia).
    rewrite E' in L.
    split; [simpl; now rewrite L|]. split; [exact S|].
    cbn [Prf.starts_with_sep String.append Ascii.eqb Bool.eqb].
    destruct (String.eqb dir "" || Prf.ends_with_sep dir); [reflexivity|].
    now rewrite string_append_assoc.
  - apply Z.ltb_ge in E.
    assert (E' : (Z.to_nat module <? 10)%nat = false)
      by (apply Nat.ltb_ge; lia).
    rewrite E' in L.
    split; [exact L|]. split; [exact S|].
    cbn [Prf.starts_with_sep String.append Ascii.eqb Bool.eqb].
    destruct (String.eqb dir "" || Prf.ends_with_sep dir); [reflexivity|].
    now rewrite string_append_assoc.
Qed.

Lemma prf_file_path_pads_the_module_witness :
  String.length ("0" ++ Prf.str 7) = 2%nat /\
  Prf.str 7 = "7"%string /\
  Prf.prf_file_path "prf" 7 3 = "prf/kplr07.3*_prf.fits"%string.
Proof.
  destruct (prf_file_path_pads_the_module "prf" 7 3) as (L & S & H); [lia|].
  split; [exact L|]. split; [exact S|]. exact H.
Defined.
